(** * Status-bar daemons: a shallow embedding of the broadcast services

    The three background services of the bar (time_service.py,
    window_service.py, combined_service.py) are embedded here as Rocq
    functions.  Pure helpers become functions; the state a method reads and
    writes ([self.current_data], [self.clients], [self.last_battery_update])
    is passed explicitly; a Python exception becomes a constructor of a
    result type; the threads of a daemon become the events of a scheduler.

    The first part holds the definitions, module by module, in the order of
    the source files; the second part holds the theorems. *)

From Stdlib Require Import ZArith List String Ascii Bool Lia.
From Stdlib Require Import Permutation Sorted.
From Stdlib Require Import SpecFloat QArith DecimalString.
Import ListNotations.

Local Open Scope string_scope.
Local Open Scope Z_scope.

(* ===================================================================== *)
(** * Python strings

    A [str] is a sequence of code points; the pseudo-files of the kernel
    are ASCII, and [string] covers the code points below 256. *)
(* ===================================================================== *)

Module PyStr.

Definition code (c : ascii) : N := N_of_ascii c.

(** [str.isspace] on one character, for the code points below 256:
    TAB LF VT FF CR, the separators FS GS RS US, SPACE, NEL and NBSP. *)
Definition isspace (c : ascii) : bool :=
  let n := code c in
  (((9 <=? n) && (n <=? 13)) || ((28 <=? n) && (n <=? 32))
   || (n =? 133) || (n =? 160))%N.

(** The upper-case letters below 256: A..Z and the Latin-1 capitals
    (0xC0..0xDE without the multiplication sign 0xD7). *)
Definition isupper (c : ascii) : bool :=
  let n := code c in
  (((65 <=? n) && (n <=? 90))
   || ((192 <=? n) && (n <=? 222) && negb (n =? 215)))%N.

Definition lower_char (c : ascii) : ascii :=
  if isupper c then ascii_of_N (code c + 32) else c.

(** [s.lower()] *)
Fixpoint lower (s : string) : string :=
  match s with
  | EmptyString => EmptyString
  | String c s' => String (lower_char c) (lower s')
  end.

(** [s.lstrip()] and [s.rstrip()]; [s.strip()] does both. *)
Fixpoint lstrip (s : string) : string :=
  match s with
  | EmptyString => EmptyString
  | String c s' => if isspace c then lstrip s' else s
  end.

Fixpoint rstrip (s : string) : string :=
  match s with
  | EmptyString => EmptyString
  | String c s' =>
      match rstrip s' with
      | EmptyString => if isspace c then EmptyString else String c EmptyString
      | r => String c r
      end
  end.

Definition strip (s : string) : string := rstrip (lstrip s).

(** [s.startswith(p)] *)
Fixpoint startswith (p s : string) : bool :=
  match p, s with
  | EmptyString, _ => true
  | String _ _, EmptyString => false
  | String a p', String c s' => Ascii.eqb a c && startswith p' s'
  end.

(** [p in s]: [p] occurs in [s] at some position. *)
Fixpoint contains (p s : string) : bool :=
  match s with
  | EmptyString => startswith p EmptyString
  | String _ s' => startswith p s || contains p s'
  end.

(** Patterns that [strip] cannot cut: the last, or the first, character
    is not white space. *)
Fixpoint last_nonspace (p : string) : bool :=
  match p with
  | EmptyString => false
  | String a EmptyString => negb (isspace a)
  | String _ p' => last_nonspace p'
  end.

Definition first_nonspace (p : string) : bool :=
  match p with
  | EmptyString => false
  | String a _ => negb (isspace a)
  end.

(** ** [int(s)] on a string

    [int] strips white space, takes an optional sign and then decimal
    digits, where single underscores may separate digits.  Anything else
    is a [ValueError], here [None]. *)

Definition digit_of (c : ascii) : option Z :=
  let n := code c in
  if ((48 <=? n) && (n <=? 57))%N then Some (Z.of_N n - 48) else None.

(** The rest of a numeral, after a digit. *)
Fixpoint int_digits (s : string) (acc : Z) : option Z :=
  match s with
  | EmptyString => Some acc
  | String c s' =>
      match digit_of c with
      | Some d => int_digits s' (10 * acc + d)
      | None =>
          if Ascii.eqb c "_" then
            match s' with
            | String c' s'' =>
                match digit_of c' with
                | Some d => int_digits s'' (10 * acc + d)
                | None => None
                end
            | EmptyString => None
            end
          else None
      end
  end.

Definition int_unsigned (s : string) : option Z :=
  match s with
  | String c s' =>
      match digit_of c with
      | Some d => int_digits s' d
      | None => None
      end
  | EmptyString => None
  end.

Definition int_of_str (s : string) : option Z :=
  match strip s with
  | String "-" s' => option_map Z.opp (int_unsigned s')
  | String "+" s' => int_unsigned s'
  | s' => int_unsigned s'
  end.

End PyStr.

(* ===================================================================== *)
(** * Python exceptions and floats *)
(* ===================================================================== *)

Module Py.

Inductive exn :=
  | IOError | ValueError | TypeError | OverflowError | ZeroDivisionError.

(** The outcome of a Python expression or call: a value, or an exception
    on its way up. *)
Inductive result (A : Type) :=
  | Ok (a : A)
  | Raise (e : exn).
Arguments Ok {A} a.
Arguments Raise {A} e.

Definition bind {A B} (c : result A) (k : A -> result B) : result B :=
  match c with
  | Ok a => k a
  | Raise e => Raise e
  end.

(** [try: c  except Exception: h] *)
Definition try_except {A} (c : result A) (h : exn -> result A) : result A :=
  match c with
  | Ok a => Ok a
  | Raise e => h e
  end.

(** ** Floats

    A Python [float] is an IEEE 754 binary64 number; [spec_float] with
    [prec = 53] and [emax = 1024] is the Standard Library's specification
    of that format, computed on [Z]. *)

Definition prec : Z := 53.
Definition emax : Z := 1024.

(** [float(n)] for an int [n]: the nearest binary64 number (exact below
    2^53). *)
Definition float_of_int (n : Z) : spec_float := binary_normalize prec emax n 0 false.

(** An int as the numerator or denominator of a true division: its exact
    value, with mantissa [|n|] and exponent 0. *)
Definition exact (n : Z) : spec_float :=
  match n with
  | Z0 => S754_zero false
  | Zpos p => S754_finite false p 0
  | Zneg p => S754_finite true p 0
  end.

(** [a / b] on two ints: the correctly rounded quotient;
    ZeroDivisionError when [b] is 0, OverflowError when the quotient is
    beyond the floats. *)
Definition truediv (a b : Z) : result spec_float :=
  if b =? 0 then Raise ZeroDivisionError
  else match SFdiv prec emax (exact a) (exact b) with
       | S754_infinity _ => Raise OverflowError
       | q => Ok q
       end.

(** [x * n] for a float [x] and an int [n]. *)
Definition mul_int (x : spec_float) (n : Z) : spec_float :=
  SFmul prec emax x (float_of_int n).

(** [int(x)] for a float: truncation towards zero; OverflowError on an
    infinity, ValueError on a NaN. *)
Definition int_of_float (x : spec_float) : result Z :=
  match x with
  | S754_zero _ => Ok 0
  | S754_finite s m e =>
      let v := if 0 <=? e then Zpos m * 2 ^ e else Zpos m / 2 ^ (- e) in
      Ok (if s then - v else v)
  | S754_infinity _ => Raise OverflowError
  | S754_nan => Raise ValueError
  end.

End Py.

Notation "x <- c ;; k" := (Py.bind c (fun x => k))
  (at level 61, c at next level, right associativity).

(* ===================================================================== *)
(** * [json.dumps] for the values the daemons send

    Default arguments: separators [", "] and [": "], ASCII-only output. *)
(* ===================================================================== *)

Module Json.
Import PyStr.

Definition quote : string := String (ascii_of_N 34) EmptyString.

Definition hex_digit (n : N) : ascii :=
  ascii_of_N (if (n <? 10)%N then 48 + n else 87 + n).

(** One character of a string, as [json.dumps] writes it: the characters
    from SPACE to [~] stand for themselves, except the quote and the
    backslash; the others are escaped. *)
Definition escape_char (c : ascii) : string :=
  let n := code c in
  if (n =? 34)%N then "\" ++ quote
  else if (n =? 92)%N then "\\"
  else if ((32 <=? n) && (n <=? 126))%N then String c EmptyString
  else if (n =? 10)%N then "\n"
  else if (n =? 13)%N then "\r"
  else if (n =? 9)%N then "\t"
  else if (n =? 8)%N then "\b"
  else if (n =? 12)%N then "\f"
  else "\u00" ++ String (hex_digit (n / 16)) (String (hex_digit (n mod 16)) EmptyString).

Fixpoint escape (s : string) : string :=
  match s with
  | EmptyString => EmptyString
  | String c s' => escape_char c ++ escape s'
  end.

Definition of_str (s : string) : string := quote ++ escape s ++ quote.
Definition of_int (n : Z) : string := NilZero.string_of_int (Z.to_int n).
Definition of_bool (b : bool) : string := if b then "true" else "false".
Definition of_option {A} (f : A -> string) (o : option A) : string :=
  match o with
  | Some a => f a
  | None => "null"
  end.

(** [{"k1": v1, "k2": v2, ...}] from the members in the order of the dict. *)
Fixpoint members (kvs : list (string * string)) : string :=
  match kvs with
  | [] => EmptyString
  | [(k, v)] => of_str k ++ ": " ++ v
  | (k, v) :: rest => of_str k ++ ": " ++ v ++ ", " ++ members rest
  end.

Definition object (kvs : list (string * string)) : string :=
  "{" ++ members kvs ++ "}".

(** [[v1, v2, ...]] *)
Fixpoint elements (vs : list string) : string :=
  match vs with
  | [] => EmptyString
  | [v] => v
  | v :: rest => v ++ ", " ++ elements rest
  end.

Definition array (vs : list string) : string := "[" ++ elements vs ++ "]".

(** The line feed that ends a message. *)
Definition LF : string := String (ascii_of_N 10) EmptyString.

End Json.

(* ===================================================================== *)
(** * Sockets and effects, as the three services use them *)
(* ===================================================================== *)

Module Io.

(** A client socket, named by a number: two sockets are equal when they
    are the same object. *)
Definition client : Type := nat.

(** What a method does to the outside, in the order it does it. *)
Inductive effect :=
  | BatteryRead
  | Sent (c : client) (message : string)
  | Closed (c : client).

(** The broadcast loop, the same in the three services:
    [for client in clients: try: client.send(message)
                            except ...: disconnected_clients.append(client)].
    [send_ok c] tells whether the send on [c] succeeds. *)
Fixpoint send_to_all (send_ok : client -> bool) (message : string)
    (clients_to_notify : list client) : list effect * list client :=
  match clients_to_notify with
  | [] => ([], [])
  | c :: rest =>
      let '(sent, disconnected_clients) := send_to_all send_ok message rest in
      if send_ok c then (Sent c message :: sent, disconnected_clients)
      else (sent, c :: disconnected_clients)
  end.

(** The sockets on which the send fails. *)
Definition send_fails (send_ok : client -> bool) (c : client) : bool :=
  negb (send_ok c).

(** [client in clients] *)
Definition mem (c : client) (cs : list client) : bool := existsb (Nat.eqb c) cs.

(** [clients.remove(c)] where [c] is in the list: the first occurrence
    goes. *)
Fixpoint remove_first (c : client) (cs : list client) : list client :=
  match cs with
  | [] => []
  | x :: rest => if Nat.eqb c x then rest else x :: remove_first c rest
  end.

(** [notify_clients] of time_service.py and window_service.py, after the
    message is built.  The second loop,
    [for client in disconnected_clients:
       self.clients.remove(client); try: client.close() except: pass],
    has no membership test: [remove] raises ValueError on a socket that is
    no longer in the list, and the loop stops there. *)
Fixpoint remove_disconnected (disconnected_clients : list client)
    (cs : list client) : list client * list effect * option Py.exn :=
  match disconnected_clients with
  | [] => (cs, [], None)
  | c :: rest =>
      if mem c cs then
        let '(cs', closed, raised) := remove_disconnected rest (remove_first c cs) in
        (cs', Closed c :: closed, raised)
      else (cs, [], Some Py.ValueError)
  end.

Definition broadcast (send_ok : client -> bool) (message : string)
    (cs : list client) : list client * list effect * option Py.exn :=
  let '(sent, disconnected_clients) := send_to_all send_ok message cs in
  let '(cs', closed, raised) := remove_disconnected disconnected_clients cs in
  (cs', (sent ++ closed)%list, raised).

(** What a broadcast of [message] to the sockets [before] must leave:
    the sockets [after] and the [effects]. *)
Definition isolated (send_ok : client -> bool) (message : string)
    (before after : list client) (effects : list effect) : Prop :=
  after = filter send_ok before
  /\ (forall c, In c before -> send_ok c = true ->
        In (Sent c message) effects /\ In c after /\ ~ In (Closed c) effects)
  /\ (forall c, In c before -> send_ok c = false ->
        In (Closed c) effects /\ ~ In c after
        /\ forall m, ~ In (Sent c m) effects).

End Io.

(* ===================================================================== *)
(** * combined_service.py *)
(* ===================================================================== *)

Module Combined.
Import Py PyStr Io.

(** ** The pseudo-files under /sys

    What the service knows about one attribute file: no path was recorded
    for it (the entry of [battery_files] is [None]), or a path that
    [open] refuses, or a path with its text. *)
Inductive sysfile :=
  | NoPath
  | Unreadable
  | Content (text : string).

(** The truth value of [files.get(name)]. *)
Definition has_path (f : sysfile) : bool :=
  match f with
  | NoPath => false
  | _ => true
  end.

(** [with open(path, 'r') as f: f.read()] *)
Definition read (f : sysfile) : result string :=
  match f with
  | Content text => Ok text
  | Unreadable => Raise IOError
  | NoPath => Raise TypeError
  end.

(** [int(f.read().strip())] *)
Definition read_int (f : sysfile) : result Z :=
  text <- read f ;;
  match int_of_str (strip text) with
  | Some n => Ok n
  | None => Raise ValueError
  end.

(** ** [_parse_battery_status] *)

Definition charging_states : list string := ["charging"].
Definition discharging_states : list string := ["discharging"; "not charging"].

(** [for state in states: if state in status_clean: flag = True; break] *)
Fixpoint any_state_in (states : list string) (status_clean : string) : bool :=
  match states with
  | [] => false
  | state :: rest =>
      if contains state status_clean then true else any_state_in rest status_clean
  end.

Definition _parse_battery_status (status_str : string) : bool :=
  let status_clean := lower (strip status_str) in
  let is_charging := any_state_in charging_states status_clean in
  let is_discharging := any_state_in discharging_states status_clean in
  is_charging && negb is_discharging.

(** ** [_calculate_time_from_files] *)

(** [int((num / den) * 3600)] *)
Definition seconds (num den : Z) : result Z :=
  q <- truediv num den ;;
  int_of_float (mul_int q 3600).

(** [time_seconds if time_seconds > 0 else None] *)
Definition positive_or_none (time_seconds : Z) : option Z :=
  if 0 <? time_seconds then Some time_seconds else None.

(** Method 1, the direct time files.  [Some t]: the function returns [t];
    [None]: control goes on to the next method. *)
Definition direct_time (files : string -> sysfile) (is_charging : bool)
    (status_str : string) : option Z :=
  let time_file_key :=
    if is_charging then Some "time_to_full"
    else if contains "discharging" status_str then Some "time_to_empty"
    else None in
  match time_file_key with
  | Some key =>
      if has_path (files key) then
        match read_int (files key) with
        | Ok time_seconds => if 0 <? time_seconds then Some time_seconds else None
        | Raise _ => None
        end
      else None
  | None => None
  end.

(** Methods 2 and 3 are the same code over different files: a rate
    ([power_now], [current_now]), a level ([energy_now], [charge_now]) and
    the level when full.  [Some r]: the function returns [r] (which may be
    [None]); [None]: control goes on, by a false guard or by the
    [except Exception] of the method. *)
Definition rate_time (files : string -> sysfile) (is_charging : bool)
    (rate level full : string) : option (option Z) :=
  if has_path (files rate) && has_path (files level) then
    match
      (rate_now <- read_int (files rate) ;;
       level_now <- read_int (files level) ;;
       if 0 <? rate_now then
         if is_charging && has_path (files full) then
           level_full <- read_int (files full) ;;
           time_seconds <- seconds (level_full - level_now) rate_now ;;
           Ok (Some (positive_or_none time_seconds))
         else if negb is_charging then
           time_seconds <- seconds level_now rate_now ;;
           Ok (Some (positive_or_none time_seconds))
         else Ok None
       else Ok None)
    with
    | Ok r => r
    | Raise _ => None
    end
  else None.

(** Method 3, on the current and charge files, ends the function. *)
Definition charge_method (files : string -> sysfile) (is_charging : bool)
    : option Z :=
  match rate_time files is_charging "current_now" "charge_now" "charge_full" with
  | Some r => r
  | None => None
  end.

Definition _calculate_time_from_files (files : string -> sysfile)
    (is_charging : bool) (status_str : string) : option Z :=
  match direct_time files is_charging status_str with
  | Some time_seconds => Some time_seconds
  | None =>
      match rate_time files is_charging "power_now" "energy_now" "energy_full" with
      | Some r => r
      | None => charge_method files is_charging
      end
  end.

(** A battery directory for the examples: a discharging battery without
    time-to-empty file. *)
Definition battery_dir (power energy : string) (current charge : sysfile)
    (name : string) : sysfile :=
  if String.eqb name "power_now" then Content power
  else if String.eqb name "energy_now" then Content energy
  else if String.eqb name "current_now" then current
  else if String.eqb name "charge_now" then charge
  else NoPath.

(** ** [get_battery_info_internal] *)

Definition battery_info : Type := option Z * bool * option Z.

Definition get_battery_info_internal (files : string -> sysfile) : battery_info :=
  if negb (has_path (files "capacity")) || negb (has_path (files "status")) then
    (None, false, None)
  else
    match
      (capacity <- read_int (files "capacity") ;;
       text <- read (files "status") ;;
       let status_str := strip text in
       let is_charging := _parse_battery_status status_str in
       let time_remaining :=
         if is_charging || contains "discharging" (lower status_str) then
           _calculate_time_from_files files is_charging (lower status_str)
         else None in
       Ok (Some capacity, is_charging, time_remaining))
    with
    | Ok info => info
    | Raise _ => (None, false, None)
    end.

(** ** [get_backlight_percentage_internal]

    The [except] clause names IOError and ValueError only: another
    exception leaves the method. *)
Definition get_backlight_percentage_internal
    (backlight_brightness_file backlight_max_brightness_file : sysfile)
    : result (option Z) :=
  try_except
    (if negb (has_path backlight_brightness_file && has_path backlight_max_brightness_file)
     then Ok None
     else
       current <- read_int backlight_brightness_file ;;
       max_val <- read_int backlight_max_brightness_file ;;
       if 0 <? max_val then
         q <- truediv current max_val ;;
         percent <- int_of_float (mul_int q 100) ;;
         Ok (Some percent)
       else Ok (Some 0))
    (fun e =>
       match e with
       | IOError | ValueError => Ok None
       | _ => Raise e
       end).

(** ** The state of the service *)

(** [self.current_data] *)
Record snapshot := {
  battery_percentage : option Z;
  is_charging : bool;
  battery_time_remaining : option Z;
  backlight_percentage : option Z;
  volume_percentage : option Z;
  speaker_muted : option bool;
  mic_muted : option bool
}.

Record service := {
  current_data : snapshot;
  clients : list client;
  last_battery_update : Q
}.

(** The battery fields of a snapshot. *)
Definition battery_fields (d : snapshot) : battery_info :=
  (battery_percentage d, is_charging d, battery_time_remaining d).

(** The files found at start-up. *)
Record sysfs := {
  battery_files : string -> sysfile;
  backlight_brightness_file : sysfile;
  backlight_max_brightness_file : sysfile
}.

(** [a != b] on the values of the fields: an int or [None], a bool,
    a bool or [None]. *)
Definition option_eqb {A} (eqb : A -> A -> bool) (a b : option A) : bool :=
  match a, b with
  | Some x, Some y => eqb x y
  | None, None => true
  | _, _ => false
  end.

Definition int_ne (a b : option Z) : bool := negb (option_eqb Z.eqb a b).
Definition bool_ne (a b : bool) : bool := negb (Bool.eqb a b).
Definition flag_ne (a b : option bool) : bool := negb (option_eqb Bool.eqb a b).

Definition set_battery_percentage (d : snapshot) v :=
  {| battery_percentage := v; is_charging := is_charging d;
     battery_time_remaining := battery_time_remaining d;
     backlight_percentage := backlight_percentage d;
     volume_percentage := volume_percentage d;
     speaker_muted := speaker_muted d; mic_muted := mic_muted d |}.
Definition set_is_charging (d : snapshot) v :=
  {| battery_percentage := battery_percentage d; is_charging := v;
     battery_time_remaining := battery_time_remaining d;
     backlight_percentage := backlight_percentage d;
     volume_percentage := volume_percentage d;
     speaker_muted := speaker_muted d; mic_muted := mic_muted d |}.
Definition set_battery_time_remaining (d : snapshot) v :=
  {| battery_percentage := battery_percentage d; is_charging := is_charging d;
     battery_time_remaining := v;
     backlight_percentage := backlight_percentage d;
     volume_percentage := volume_percentage d;
     speaker_muted := speaker_muted d; mic_muted := mic_muted d |}.
Definition set_backlight_percentage (d : snapshot) v :=
  {| battery_percentage := battery_percentage d; is_charging := is_charging d;
     battery_time_remaining := battery_time_remaining d;
     backlight_percentage := v;
     volume_percentage := volume_percentage d;
     speaker_muted := speaker_muted d; mic_muted := mic_muted d |}.
Definition set_volume_percentage (d : snapshot) v :=
  {| battery_percentage := battery_percentage d; is_charging := is_charging d;
     battery_time_remaining := battery_time_remaining d;
     backlight_percentage := backlight_percentage d;
     volume_percentage := v;
     speaker_muted := speaker_muted d; mic_muted := mic_muted d |}.
Definition set_speaker_muted (d : snapshot) v :=
  {| battery_percentage := battery_percentage d; is_charging := is_charging d;
     battery_time_remaining := battery_time_remaining d;
     backlight_percentage := backlight_percentage d;
     volume_percentage := volume_percentage d;
     speaker_muted := v; mic_muted := mic_muted d |}.
Definition set_mic_muted (d : snapshot) v :=
  {| battery_percentage := battery_percentage d; is_charging := is_charging d;
     battery_time_remaining := battery_time_remaining d;
     backlight_percentage := backlight_percentage d;
     volume_percentage := volume_percentage d;
     speaker_muted := speaker_muted d; mic_muted := v |}.

Definition set_current_data (self : service) (d : snapshot) : service :=
  {| current_data := d; clients := clients self;
     last_battery_update := last_battery_update self |}.
Definition set_clients (self : service) (cs : list client) : service :=
  {| current_data := current_data self; clients := cs;
     last_battery_update := last_battery_update self |}.
Definition set_last_battery_update (self : service) (t : Q) : service :=
  {| current_data := current_data self; clients := clients self;
     last_battery_update := t |}.

(** [json.dumps(self.current_data)], the keys in the order of the dict. *)
Definition dumps (d : snapshot) : string :=
  Json.object
    [ ("battery_percentage", Json.of_option Json.of_int (battery_percentage d));
      ("is_charging", Json.of_bool (is_charging d));
      ("battery_time_remaining", Json.of_option Json.of_int (battery_time_remaining d));
      ("backlight_percentage", Json.of_option Json.of_int (backlight_percentage d));
      ("volume_percentage", Json.of_option Json.of_int (volume_percentage d));
      ("speaker_muted", Json.of_option Json.of_bool (speaker_muted d));
      ("mic_muted", Json.of_option Json.of_bool (mic_muted d)) ].

(** ** [notify_clients] *)

(** [for client in disconnected_clients:
       if client in self.clients: self.clients.remove(client); client.close()] *)
Fixpoint drop_disconnected (disconnected_clients : list client)
    (cs : list client) : list client * list effect :=
  match disconnected_clients with
  | [] => (cs, [])
  | c :: rest =>
      if mem c cs then
        let '(cs', closed) := drop_disconnected rest (remove_first c cs) in
        (cs', Closed c :: closed)
      else drop_disconnected rest cs
  end.

Definition notify_clients (send_ok : client -> bool) (self : service)
    : service * list effect :=
  let data_to_send := current_data self in
  let clients_to_notify := clients self in
  let message := dumps data_to_send ++ Json.LF in
  let '(sent, disconnected_clients) := send_to_all send_ok message clients_to_notify in
  let '(cs, closed) := drop_disconnected disconnected_clients (clients self) in
  (set_clients self cs, (sent ++ closed)%list).

(** ** [update_file_data_and_notify] *)

(** The four guarded assignments made under [data_lock], with the flag
    [data_changed]. *)
Definition store_file_data (d : snapshot)
    (bat_percent : option Z) (is_charging' : bool) (time_rem backlight_percent : option Z)
    : snapshot * bool :=
  let data_changed := false in
  let '(d, data_changed) :=
    if int_ne (battery_percentage d) bat_percent
    then (set_battery_percentage d bat_percent, true) else (d, data_changed) in
  let '(d, data_changed) :=
    if bool_ne (is_charging d) is_charging'
    then (set_is_charging d is_charging', true) else (d, data_changed) in
  let '(d, data_changed) :=
    if int_ne (battery_time_remaining d) time_rem
    then (set_battery_time_remaining d time_rem, true) else (d, data_changed) in
  let '(d, data_changed) :=
    if int_ne (backlight_percentage d) backlight_percent
    then (set_backlight_percentage d backlight_percent, true) else (d, data_changed) in
  (d, data_changed).

Definition update_file_data_and_notify (sys : sysfs) (current_time : Q)
    (send_ok : client -> bool) (force_battery_update : bool) (self : service)
    : result (service * list effect) :=
  backlight_percent <-
    get_backlight_percentage_internal
      (backlight_brightness_file sys) (backlight_max_brightness_file sys) ;;
  let should_update_battery :=
    force_battery_update
    || Qle_bool 30 (current_time - last_battery_update self) in
  let '(bat_percent, is_charging', time_rem, self, read) :=
    if should_update_battery then
      let '(b, c, t) := get_battery_info_internal (battery_files sys) in
      (b, c, t, set_last_battery_update self current_time, [BatteryRead])
    else
      (battery_percentage (current_data self), is_charging (current_data self),
       battery_time_remaining (current_data self), self, []) in
  let '(d, data_changed) :=
    store_file_data (current_data self) bat_percent is_charging' time_rem backlight_percent in
  let self := set_current_data self d in
  if data_changed then
    let '(self, sent) := notify_clients send_ok self in
    Ok (self, (read ++ sent)%list)
  else Ok (self, read).

(** ** [_on_audio_state_changed] *)

(** A default device of the mixer: [volume] is [int(stream.volume)]. *)
Record stream := { volume : Z; muted : bool }.

Record audio_service := {
  speaker : option stream;
  microphone : option stream
}.

(** The guarded assignments of the audio callback. *)
Definition store_audio_data (d : snapshot) (audio : audio_service) : snapshot * bool :=
  let data_changed := false in
  let new_volume :=
    match speaker audio with
    | Some s => Some (volume s)
    | None => volume_percentage d
    end in
  let new_speaker_muted :=
    match speaker audio with
    | Some s => Some (muted s)
    | None => speaker_muted d
    end in
  let '(d, data_changed) :=
    if int_ne (volume_percentage d) new_volume
    then (set_volume_percentage d new_volume, true) else (d, data_changed) in
  let '(d, data_changed) :=
    if flag_ne (speaker_muted d) new_speaker_muted
    then (set_speaker_muted d new_speaker_muted, true) else (d, data_changed) in
  let new_mic_muted :=
    match microphone audio with
    | Some m => Some (muted m)
    | None => mic_muted d
    end in
  let '(d, data_changed) :=
    if flag_ne (mic_muted d) new_mic_muted
    then (set_mic_muted d new_mic_muted, true) else (d, data_changed) in
  (d, data_changed).

Definition _on_audio_state_changed (audio : option audio_service)
    (send_ok : client -> bool) (self : service) : service * list effect :=
  match audio with
  | None => (self, [])
  | Some a =>
      let '(d, data_changed) := store_audio_data (current_data self) a in
      let self := set_current_data self d in
      if data_changed then notify_clients send_ok self else (self, [])
  end.

(** ** The state store as the adapters see it

    The file adapter hands over the three battery fields and the
    backlight, the audio adapter what the mixer knows; [apply] is the
    comparison and assignment made under [data_lock], and its flag decides
    the broadcast. *)
Inductive adapter_input :=
  | FileData (bat_percent : option Z) (is_charging' : bool)
             (time_rem backlight_percent : option Z)
  | AudioData (audio : audio_service).

Definition apply (d : snapshot) (i : adapter_input) : snapshot * bool :=
  match i with
  | FileData bat_percent is_charging' time_rem backlight_percent =>
      store_file_data d bat_percent is_charging' time_rem backlight_percent
  | AudioData audio => store_audio_data d audio
  end.

(** The inputs of a run, one after the other: the stored snapshot at the
    end, and the snapshots that were broadcast, oldest first. *)
Fixpoint apply_all (d : snapshot) (inputs : list adapter_input)
    : snapshot * list snapshot :=
  match inputs with
  | [] => (d, [])
  | i :: rest =>
      let '(d', data_changed) := apply d i in
      let '(final, broadcasts) := apply_all d' rest in
      (final, if data_changed then d' :: broadcasts else broadcasts)
  end.

(** *** The merge, as the specification words it

    The fields an input specifies replace the stored ones, the others
    keep their value. *)
Definition merge (d : snapshot) (i : adapter_input) : snapshot :=
  match i with
  | FileData bat_percent is_charging' time_rem backlight_percent =>
      {| battery_percentage := bat_percent;
         is_charging := is_charging';
         battery_time_remaining := time_rem;
         backlight_percentage := backlight_percent;
         volume_percentage := volume_percentage d;
         speaker_muted := speaker_muted d;
         mic_muted := mic_muted d |}
  | AudioData audio =>
      {| battery_percentage := battery_percentage d;
         is_charging := is_charging d;
         battery_time_remaining := battery_time_remaining d;
         backlight_percentage := backlight_percentage d;
         volume_percentage :=
           match speaker audio with
           | Some s => Some (volume s)
           | None => volume_percentage d
           end;
         speaker_muted :=
           match speaker audio with
           | Some s => Some (muted s)
           | None => speaker_muted d
           end;
         mic_muted :=
           match microphone audio with
           | Some m => Some (muted m)
           | None => mic_muted d
           end |}
  end.

(** What the file adapter hands over in a call of
    [update_file_data_and_notify]: whether the battery files are read
    again, and the input made of the battery values (read again, or the
    stored ones) and of the backlight [backlight_percent] just computed. *)
Definition refreshes (force_battery_update : bool) (current_time : Q)
    (self : service) : bool :=
  force_battery_update || Qle_bool 30 (current_time - last_battery_update self).

Definition file_input (sys : sysfs) (force_battery_update : bool)
    (current_time : Q) (self : service) (backlight_percent : option Z)
    : adapter_input :=
  if refreshes force_battery_update current_time self then
    let '(b, c, t) := get_battery_info_internal (battery_files sys) in
    FileData b c t backlight_percent
  else
    FileData (battery_percentage (current_data self)) (is_charging (current_data self))
      (battery_time_remaining (current_data self)) backlight_percent.

Definition snapshot_eq_dec (a b : snapshot) : {a = b} + {a <> b}.
Proof. repeat decide equality. Defined.

(** The inputs that differ from the snapshot stored when they arrive,
    merged: the changes of a run, oldest first. *)
Fixpoint differing (d : snapshot) (inputs : list adapter_input) : list snapshot :=
  match inputs with
  | [] => []
  | i :: rest =>
      if snapshot_eq_dec (merge d i) d then differing d rest
      else merge d i :: differing (merge d i) rest
  end.

End Combined.

(* ===================================================================== *)
(** * time_service.py *)
(* ===================================================================== *)

Module Time.
Import Py PyStr Io.

(** What the service uses of [datetime.now()]: [weekday] is
    [now.weekday()], 0 for Monday. *)
Record datetime := {
  month : Z;
  day : Z;
  hour : Z;
  minute : Z;
  second : Z;
  weekday : Z
}.

(** [strftime("%H")] and ["%M"]: two digits. *)
Definition two_digits (n : Z) : string :=
  if n <? 10 then "0" ++ Json.of_int n else Json.of_int n.

(** [strftime("%a")] and ["%b"] in the C locale. *)
Definition abbreviated_day (w : Z) : string :=
  match w with
  | 0 => "Mon" | 1 => "Tue" | 2 => "Wed" | 3 => "Thu"
  | 4 => "Fri" | 5 => "Sat" | _ => "Sun"
  end.

Definition abbreviated_month (m : Z) : string :=
  match m with
  | 1 => "Jan" | 2 => "Feb" | 3 => "Mar" | 4 => "Apr" | 5 => "May"
  | 6 => "Jun" | 7 => "Jul" | 8 => "Aug" | 9 => "Sep" | 10 => "Oct"
  | 11 => "Nov" | _ => "Dec"
  end.

Definition get_ordinal_suffix (day : Z) : string :=
  if (10 <=? day mod 100) && (day mod 100 <=? 20) then "th"
  else match day mod 10 with
       | 1 => "st"
       | 2 => "nd"
       | 3 => "rd"
       | _ => "th"
       end.

(** [self.current_time_info] *)
Record time_info := {
  time_str : string;
  day_name : string;
  date_str : string;
  full_display : string
}.

Definition get_formatted_time (now : datetime) : time_info :=
  let time_str := two_digits (hour now) ++ ":" ++ two_digits (minute now) in
  let day_name := abbreviated_day (weekday now) in
  let day := day now in
  let suffix := get_ordinal_suffix day in
  let month := abbreviated_month (month now) in
  let date_str := Json.of_int day ++ suffix ++ " " ++ month in
  {| time_str := time_str; day_name := day_name; date_str := date_str;
     full_display := time_str ++ ", " ++ day_name ++ ", " ++ date_str |}.

Record service := {
  current_time_info : time_info;
  clients : list client
}.

Definition dumps (t : time_info) : string :=
  Json.object
    [ ("time_str", Json.of_str (time_str t));
      ("day_name", Json.of_str (day_name t));
      ("date_str", Json.of_str (date_str t));
      ("full_display", Json.of_str (full_display t)) ].

Definition notify_clients (send_ok : client -> bool) (self : service)
    : service * list effect * option exn :=
  let message := dumps (current_time_info self) ++ Json.LF in
  let '(cs, effects, raised) := broadcast send_ok message (clients self) in
  ({| current_time_info := current_time_info self; clients := cs |}, effects, raised).

(** One turn of the loop of [monitor_time], up to the sleep; [now] is the
    value of [datetime.now()].  An exception of [notify_clients] is caught
    and logged by the loop. *)
Definition monitor_time (now : datetime) (send_ok : client -> bool)
    (self : service) : service * list effect :=
  let new_time_info := get_formatted_time now in
  if negb (String.eqb (time_str new_time_info) (time_str (current_time_info self))) then
    let self := {| current_time_info := new_time_info; clients := clients self |} in
    let '(self, effects, _) := notify_clients send_ok self in
    (self, effects)
  else (self, []).

(** [sleep_seconds = 60 - now.second] *)
Definition sleep_seconds (now : datetime) : Z := 60 - second now.

(** Three moments, for the examples: a Monday at 14:05 and at 14:06, and
    the Tuesday after at 14:05. *)
Definition monday_1405 : datetime :=
  {| month := 1; day := 1; hour := 14; minute := 5; second := 0; weekday := 0 |}.
Definition monday_1406 : datetime :=
  {| month := 1; day := 1; hour := 14; minute := 6; second := 0; weekday := 0 |}.
Definition tuesday_1405 : datetime :=
  {| month := 1; day := 2; hour := 14; minute := 5; second := 0; weekday := 1 |}.

End Time.

(* ===================================================================== *)
(** * window_service.py *)
(* ===================================================================== *)

Module Window.
Import Py PyStr Io.

(** One object of the reply to [j/workspaces]; a key may be missing. *)
Record workspace := {
  ws_id : option Z;
  ws_name : option string;
  ws_windows : option Z
}.

(** What [_fetch_hyprland_data] returns: [None], or the decoded JSON. *)
Inductive reply :=
  | NoData
  | JsonObject
  | JsonList (items : list workspace).

(** An entry of the list the service exposes. *)
Record entry := {
  id : Z;
  name : option string;
  windows : Z
}.

(** [dict.get(key, default)] *)
Definition get {A} (o : option A) (default : A) : A :=
  match o with
  | Some a => a
  | None => default
  end.

(** The loop that fills [filtered_workspaces]. *)
Fixpoint filter_workspaces (data : list workspace) : list entry :=
  match data with
  | [] => []
  | ws :: rest =>
      let ws_id := get (ws_id ws) 0 in
      if 0 <=? ws_id then
        {| id := ws_id; name := ws_name ws; windows := get (ws_windows ws) 0 |}
        :: filter_workspaces rest
      else filter_workspaces rest
  end.

(** The entry made of a workspace, and the workspaces that are not
    special, for the statements about the list. *)
Definition entry_of (ws : workspace) : entry :=
  {| id := get (ws_id ws) 0; name := ws_name ws; windows := get (ws_windows ws) 0 |}.

Definition non_special (ws : workspace) : bool := 0 <=? get (ws_id ws) 0.

(** Ascending order of id. *)
Definition id_le (a b : entry) : Prop := id a <= id b.

(** [list.sort(key=lambda ws: ws["id"])]: a stable sort, entries of equal
    id keep their order. *)
Fixpoint insert_by_id (e : entry) (l : list entry) : list entry :=
  match l with
  | [] => [e]
  | x :: rest => if id e <=? id x then e :: l else x :: insert_by_id e rest
  end.

Fixpoint sort_by_id (l : list entry) : list entry :=
  match l with
  | [] => []
  | e :: rest => insert_by_id e (sort_by_id rest)
  end.

Definition get_hyprland_all_workspaces_list (data : reply) : list entry :=
  match data with
  | JsonList [] => []
  | JsonList items => sort_by_id (filter_workspaces items)
  | _ => []
  end.

(** ** The state of the service and its broadcast *)

Record window_props := {
  title : string;
  class : string;
  pid : Z
}.

(** [self.current_display_state_data] *)
Record display_state := {
  active_window : window_props;
  workspaces : list entry;
  active_workspace_id : option Z
}.

Record service := {
  current_display_state_data : display_state;
  clients : list client
}.

Definition dumps_entry (e : entry) : string :=
  Json.object
    [ ("id", Json.of_int (id e));
      ("name", Json.of_option Json.of_str (name e));
      ("windows", Json.of_int (windows e)) ].

Definition dumps (d : display_state) : string :=
  Json.object
    [ ("active_window",
       Json.object
         [ ("title", Json.of_str (title (active_window d)));
           ("class", Json.of_str (class (active_window d)));
           ("pid", Json.of_int (pid (active_window d))) ]);
      ("workspaces", Json.array (map dumps_entry (workspaces d)));
      ("active_workspace_id", Json.of_option Json.of_int (active_workspace_id d)) ].

Definition notify_clients (send_ok : client -> bool) (self : service)
    : service * list effect * option exn :=
  let message := dumps (current_display_state_data self) ++ Json.LF in
  let '(cs, effects, raised) := broadcast send_ok message (clients self) in
  ({| current_display_state_data := current_display_state_data self; clients := cs |},
   effects, raised).

End Window.

(* ===================================================================== *)
(** * The threads of a daemon

    [accept_clients], [handle_client] and the monitor of a service run in
    threads of their own.  A schedule is the order in which their steps
    happen; the steps are those between which another thread can run:

    - [Accept c]: [accept_clients] takes a connection, appends the socket
      to [self.clients] and starts the thread of [handle_client];
    - [Serialize c]: [handle_client] builds its message,
      [json.dumps(current) + "\n"];
    - [Deliver c]: [handle_client] sends that message;
    - [Change new]: the monitor has a new value; when it differs from the
      stored one it is stored and [notify_clients] sends it to the sockets
      of [self.clients].

    The sockets are healthy here: the sends succeed.  The three services
    share this shape; they differ in the snapshot and its serialisation. *)
(* ===================================================================== *)

Module Daemon.
Import Io.

Section Threads.

Variable snapshot : Type.
(** [new != current] *)
Variable differs : snapshot -> snapshot -> bool.
(** [json.dumps] *)
Variable dumps : snapshot -> string.

Inductive sender := Handler | Broadcast.

(** A message on the wire. *)
Record delivery := {
  to : client;
  from : sender;
  line : string
}.

Record daemon := {
  current : snapshot;
  clients : list client;
  (** the threads of [handle_client] that have not sent yet, each with
      its message once it is built *)
  handlers : list (client * option string);
  (** all that was sent, oldest first *)
  wire : list delivery
}.

Inductive event :=
  | Accept (c : client)
  | Serialize (c : client)
  | Deliver (c : client)
  | Change (new : snapshot).

Definition message (s : snapshot) : string := dumps s ++ Json.LF.

(** The handler of [c] builds its message, if it has not done so. *)
Fixpoint serialize (c : client) (m : string) (hs : list (client * option string))
    : list (client * option string) :=
  match hs with
  | [] => []
  | (c', None) :: rest =>
      if Nat.eqb c c' then (c', Some m) :: rest else (c', None) :: serialize c m rest
  | h :: rest => h :: serialize c m rest
  end.

(** The handler of [c] sends its message, if it has built one. *)
Fixpoint deliver (c : client) (hs : list (client * option string))
    : list (client * option string) * list delivery :=
  match hs with
  | [] => ([], [])
  | (c', Some m) :: rest =>
      if Nat.eqb c c' then (rest, [{| to := c; from := Handler; line := m |}])
      else let '(hs', sent) := deliver c rest in ((c', Some m) :: hs', sent)
  | h :: rest => let '(hs', sent) := deliver c rest in (h :: hs', sent)
  end.

(** [accept_clients], one turn of its loop: the socket goes into
    [self.clients], then the thread of [handle_client] is started. *)
Definition accept_clients (d : daemon) (c : client) : daemon :=
  {| current := current d; clients := (clients d ++ [c])%list;
     handlers := (handlers d ++ [(c, None)])%list; wire := wire d |}.

(** [handle_client], its first statement:
    [message = json.dumps(current) + "\n"]. *)
Definition handle_client_message (d : daemon) (c : client) : daemon :=
  {| current := current d; clients := clients d;
     handlers := serialize c (message (current d)) (handlers d);
     wire := wire d |}.

(** [handle_client], its second statement: [client_socket.send(message)]. *)
Definition handle_client_send (d : daemon) (c : client) : daemon :=
  let '(hs, sent) := deliver c (handlers d) in
  {| current := current d; clients := clients d; handlers := hs;
     wire := (wire d ++ sent)%list |}.

(** The monitor, one turn of its loop:
    [if new != current: current = new; self.notify_clients()]. *)
Definition monitor (d : daemon) (new : snapshot) : daemon :=
  if differs new (current d) then
    {| current := new; clients := clients d; handlers := handlers d;
       wire := (wire d
                ++ map (fun c => {| to := c; from := Broadcast; line := message new |})
                     (clients d))%list |}
  else d.

Definition step (d : daemon) (e : event) : daemon :=
  match e with
  | Accept c => accept_clients d c
  | Serialize c => handle_client_message d c
  | Deliver c => handle_client_send d c
  | Change new => monitor d new
  end.

Definition run (d : daemon) (schedule : list event) : daemon :=
  fold_left step schedule d.

(** What client [c] has received, oldest first. *)
Definition received (c : client) (d : daemon) : list delivery :=
  filter (fun m => Nat.eqb (to m) c) (wire d).

Definition inbox (c : client) (d : daemon) : list string :=
  map line (received c d).

(** Where the handler threads of [c] stand: [None] before the message is
    built, the message after. *)
Definition pending (c : client) (hs : list (client * option string))
    : list (option string) :=
  map snd (filter (fun h => Nat.eqb (fst h) c) hs).

(** [c] is a new connection: the daemon has never seen the socket. *)
Definition fresh (c : client) (d : daemon) : Prop :=
  ~ In c (clients d) /\ ~ In c (map fst (handlers d)) /\ received c d = [].

(** An event during which nothing is broadcast and the handler of [c]
    does not move: a step of another connection, or a sample equal to the
    stored value [s]. *)
Definition quiet (c : client) (s : snapshot) (e : event) : bool :=
  match e with
  | Accept c' | Serialize c' | Deliver c' => negb (Nat.eqb c' c)
  | Change new => negb (differs new s)
  end.

End Threads.

Arguments Accept {snapshot} c.
Arguments Serialize {snapshot} c.
Arguments Deliver {snapshot} c.
Arguments Change {snapshot} new.
Arguments current {snapshot} d.
Arguments clients {snapshot} d.
Arguments handlers {snapshot} d.
Arguments wire {snapshot} d.
Arguments received {snapshot} c d.
Arguments inbox {snapshot} c d.
Arguments fresh {snapshot} c d.

End Daemon.

(** The thread model at the three services: the comparison each monitor
    makes, and its serialisation. *)
Module Services.

(** [new_time_info["time_str"] != self.current_time_info["time_str"]] *)
Definition time_differs (new cur : Time.time_info) : bool :=
  negb (String.eqb (Time.time_str new) (Time.time_str cur)).

Definition time_daemon : Type := Daemon.daemon Time.time_info.
Definition time_run : time_daemon -> list (Daemon.event Time.time_info) -> time_daemon :=
  Daemon.run Time.time_info time_differs Time.dumps.

(** [data_changed], the stored snapshot against the merged one. *)
Definition combined_differs (new cur : Combined.snapshot) : bool :=
  if Combined.snapshot_eq_dec new cur then false else true.

Definition combined_run :=
  Daemon.run Combined.snapshot combined_differs Combined.dumps.

End Services.

(* ===================================================================== *)
(** * Start-up: [main] of the three services

    The outside of a starting process: whether another process holds the
    lock on the lock file, and the state of the socket path. *)
(* ===================================================================== *)

Module Supervisor.

Inductive instance := First | Second.

(** The socket path: no file; a file on which nobody listens; the socket
    of a running instance. *)
Inductive socket_path :=
  | Absent
  | Stale
  | Live (owner : instance).

Record world := {
  lock_holder : option instance;
  socket : socket_path
}.

(** What [main] does, in order. *)
Inductive action :=
  | TryLock
  | Probe
  | Unlink
  | Bind
  | Warn
  | PrintLine
  | Exit (code : Z)
  | Run.

(** [os.path.exists(socket_path)] *)
Definition exists_path (s : socket_path) : bool :=
  match s with
  | Absent => false
  | _ => true
  end.

(** [test_socket.connect(socket_path)] succeeds. *)
Definition connects (s : socket_path) : bool :=
  match s with
  | Live _ => true
  | _ => false
  end.

(** [__init__] of the three services: an existing socket path is
    unlinked, then the socket is bound and listens. *)
Definition init_service (w : world) : world * list action :=
  let unlinked := if exists_path (socket w) then [Unlink] else [] in
  ({| lock_holder := lock_holder w; socket := Live Second |},
   (unlinked ++ [Bind])%list).

(** [main] of combined_service.py, up to [service.run()]. *)
Definition combined_main (w : world) : world * list action :=
  match lock_holder w with
  | Some _ => (w, [TryLock; Warn; Exit 1])
  | None =>
      let w := {| lock_holder := Some Second; socket := socket w |} in
      let '(w, actions) := init_service w in
      (w, (TryLock :: actions ++ [Run])%list)
  end.

(** [main] of time_service.py and of window_service.py, up to
    [service.run()]. *)
Definition probing_main (w : world) : world * list action :=
  if exists_path (socket w) then
    if connects (socket w) then (w, [Probe; PrintLine; Exit 0])
    else
      let w := {| lock_holder := lock_holder w; socket := Absent |} in
      let '(w, actions) := init_service w in
      (w, (Probe :: Unlink :: actions ++ [Run])%list)
  else
    let '(w, actions) := init_service w in
    (w, (actions ++ [Run])%list).

Inductive service := CombinedService | TimeService | WindowService.

Definition main (s : service) (w : world) : world * list action :=
  match s with
  | CombinedService => combined_main w
  | TimeService | WindowService => probing_main w
  end.

(** [a] is among the actions. *)
Definition action_eqb (a b : action) : bool :=
  match a, b with
  | TryLock, TryLock | Probe, Probe | Unlink, Unlink | Bind, Bind
  | Warn, Warn | PrintLine, PrintLine | Run, Run => true
  | Exit m, Exit n => m =? n
  | _, _ => false
  end.

Definition does (a : action) (actions : list action) : bool :=
  existsb (action_eqb a) actions.

End Supervisor.

(* ===================================================================== *)
(** * The islands: what a client does with the stream of a service

    battery_island.py, system_stats_island.py, time_island.py and
    window_island.py read their socket with the same loop. *)
(* ===================================================================== *)

Module Island.
Import PyStr.

(** [s.split(sep, 1)] when [sep in s]: the text before the first
    separator and the text after it; [None] when there is no separator. *)
Fixpoint split_once (sep : ascii) (s : string) : option (string * string) :=
  match s with
  | EmptyString => None
  | String c rest =>
      if Ascii.eqb c sep then Some (EmptyString, rest)
      else match split_once sep rest with
           | Some (before, after) => Some (String c before, after)
           | None => None
           end
  end.

Definition newline : ascii := ascii_of_N 10.

(** The inner loop,
    [while '\n' in buffer: line, buffer = buffer.split('\n', 1); ...]:
    the complete lines of the buffer, and what is left of it.  The
    recursion goes along the buffer; [drain_loop] below shows that it
    satisfies the equation of the loop. *)
Fixpoint drain (buffer : string) : list string * string :=
  match buffer with
  | EmptyString => ([], EmptyString)
  | String c rest =>
      let '(lines, remainder) := drain rest in
      if Ascii.eqb c newline then (EmptyString :: lines, remainder)
      else match lines with
           | [] => ([], String c remainder)
           | line :: more => (String c line :: more, remainder)
           end
  end.

(** [if line.strip():] *)
Definition nonblank (line : string) : bool :=
  match strip line with
  | EmptyString => false
  | _ => true
  end.

(** The four clients with this loop, named by their files. *)
Inductive island :=
  | battery_island
  | system_stats_island
  | time_island
  | window_island.

(** Around [json.loads(line)], time_island.py and window_island.py have
    a [try] of their own that logs the JSONDecodeError and goes on;
    battery_island.py and system_stats_island.py catch it outside the
    loops, which ends them. *)
Definition stops_at_bad_line (i : island) : bool :=
  match i with
  | battery_island | system_stats_island => true
  | time_island | window_island => false
  end.

(** A result of [self.service_socket.recv(n).decode('utf-8')]: the text
    of the bytes received, empty when the peer has closed, or the
    UnicodeDecodeError of bytes that are not UTF-8 on their own, as when
    a chunk ends or starts inside a character of several bytes.  Each
    result of [recv] is decoded by itself. *)
Inductive received :=
  | Text (data : string)
  | NotUtf8.

(** The body of the inner loop over the complete lines of the buffer:
    the lines handed to [json.loads], and whether the loops go on.
    [loads line] tells whether [json.loads] accepts the line. *)
Fixpoint hand_over (loads : string -> bool) (stops : bool)
    (lines : list string) : list string * bool :=
  match lines with
  | [] => ([], true)
  | line :: rest =>
      if nonblank line then
        if loads line || negb stops then
          let '(handed, goes_on) := hand_over loads stops rest in
          (line :: handed, goes_on)
        else ([line], false)
      else hand_over loads stops rest
  end.

(** [listen_for_updates]: the lines handed to [json.loads], in order.
    [chunks] are the results of the calls of [recv], decoded; the loop
    ends at an empty result, at a result that does not decode, and, in
    the two islands that stop there, at a line that [json.loads]
    rejects. *)
Fixpoint listen_for_updates (i : island) (loads : string -> bool)
    (chunks : list received) (buffer : string) : list string :=
  match chunks with
  | [] => []
  | NotUtf8 :: _ => []
  | Text data :: later =>
      match data with
      | EmptyString => []
      | _ =>
          let '(lines, buffer) := drain (buffer ++ data) in
          let '(handed, goes_on) := hand_over loads (stops_at_bad_line i) lines in
          if goes_on then (handed ++ listen_for_updates i loads later buffer)%list
          else handed
      end
  end.

(** All that was received, as one text. *)
Fixpoint stream (chunks : list string) : string :=
  match chunks with
  | [] => EmptyString
  | data :: later => data ++ stream later
  end.

End Island.

(* ===================================================================== *)
(** * battery_island.py *)
(* ===================================================================== *)

Module BatteryIsland.
Import Py.

(** The glyphs, by code point. *)
Definition BATTERY_ICONS : list N :=
  [0xF007A; 0xF007B; 0xF007C; 0xF007D; 0xF007E;
   0xF007F; 0xF0080; 0xF0081; 0xF0082; 0xF0079]%N.
Definition BATTERY_ICON_FULL : N := 0xF0079%N.
Definition BATTERY_ICON_CHARGING : N := 0xF0084%N.

(** What [_get_battery_icon] gives: a glyph, an IndexError of the list,
    or an exception of the division. *)
Inductive icon :=
  | Glyph (code_point : N)
  | IndexError
  | Arithmetic (e : exn).

(** [max(0, min(int(percentage / 10), len(self.BATTERY_ICONS) - 1))] *)
Definition icon_index (percentage : Z) : result Z :=
  q <- truediv percentage 10 ;;
  tenth <- int_of_float q ;;
  Ok (Z.max 0 (Z.min tenth (Z.of_nat (List.length BATTERY_ICONS) - 1))).

Definition _get_battery_icon (percentage : Z) (is_charging : bool) : icon :=
  if is_charging then Glyph BATTERY_ICON_CHARGING
  else if 100 <=? percentage then Glyph BATTERY_ICON_FULL
  else match icon_index percentage with
       | Ok index =>
           match nth_error BATTERY_ICONS (Z.to_nat index) with
           | Some glyph => Glyph glyph
           | None => IndexError
           end
       | Raise e => Arithmetic e
       end.

(** [_format_time]; [seconds] is an int or [None]. *)
Definition _format_time (seconds : option Z) : string :=
  match seconds with
  | None => EmptyString
  | Some seconds =>
      if seconds <=? 0 then EmptyString
      else
        let hours := seconds / 3600 in
        let minutes := (seconds mod 3600) / 60 in
        if 0 <? hours then Json.of_int hours ++ "h " ++ Json.of_int minutes ++ "m"
        else Json.of_int minutes ++ "m"
  end.

End BatteryIsland.

(* ===================================================================== *)
(** * window_island.py and workspace_island.py *)
(* ===================================================================== *)

Module WindowIsland.

(** [title[:n]] *)
Fixpoint take (n : nat) (s : string) : string :=
  match n, s with
  | S n', String c rest => String c (take n' rest)
  | _, _ => EmptyString
  end.

(** The title as [update_display] shows it:
    [if len(title) > 70: title = title[:67] + "..."]. *)
Definition shown_title (title : string) : string :=
  if (70 <? String.length title)%nat then take 67 title ++ "..." else title.

End WindowIsland.

Module WorkspaceIsland.
Import Window.

(** [ws.get('id', -1)] *)
Definition id_or_special (ws : workspace) : Z := get (ws_id ws) (-1).

(** Ascending order of that key. *)
Definition by_id (a b : workspace) : Prop := id_or_special a <= id_or_special b.

(** [sorted(..., key=lambda x: x['id'])]: stable, on the workspaces that
    passed the filter, which all have an id. *)
Fixpoint insert_by_id (ws : workspace) (l : list workspace) : list workspace :=
  match l with
  | [] => [ws]
  | x :: rest =>
      if id_or_special ws <=? id_or_special x then ws :: l
      else x :: insert_by_id ws rest
  end.

Fixpoint sorted_by_id (l : list workspace) : list workspace :=
  match l with
  | [] => []
  | ws :: rest => insert_by_id ws (sorted_by_id rest)
  end.

(** [valid_workspaces_data] of [update_workspaces] *)
Definition valid_workspaces_data (workspaces_data : list workspace)
    : list workspace :=
  sorted_by_id (filter (fun ws => 0 <=? id_or_special ws) workspaces_data).

(** [self.ordered_workspace_ids] after [update_workspaces] *)
Definition ordered_workspace_ids (workspaces_data : list workspace) : list Z :=
  map id_or_special (valid_workspaces_data workspaces_data).

(** An entry of the service as the client reads it back from the JSON
    line: the three keys are there. *)
Definition decoded (e : entry) : workspace :=
  {| ws_id := Some (id e); ws_name := name e; ws_windows := Some (windows e) |}.

(** [list.index(x)]: the first position of [x]; [None] is the
    ValueError. *)
Fixpoint index (x : Z) (l : list Z) : option nat :=
  match l with
  | [] => None
  | y :: rest =>
      if y =? x then Some O
      else match index x rest with
           | Some i => Some (S i)
           | None => None
           end
  end.

(** What [on_scroll] asks of the compositor:
    [hyprctl dispatch workspace <id>], [hyprctl dispatch workspace +1],
    or nothing. *)
Inductive command :=
  | Nothing
  | SwitchTo (target_ws_id : Z)
  | CreateNext.

Definition on_scroll (ordered_workspace_ids : list Z)
    (active_workspace_id : option Z) (dy : Q) : command :=
  match ordered_workspace_ids, active_workspace_id with
  | [], _ => Nothing
  | _, None => Nothing
  | _, Some active =>
      match index active ordered_workspace_ids with
      | None => Nothing
      | Some current_active_index =>
          if negb (Qle_bool 0 dy) then
            (* scroll up *)
            match current_active_index with
            | O => Nothing
            | S previous =>
                match nth_error ordered_workspace_ids previous with
                | Some target => SwitchTo target
                | None => Nothing
                end
            end
          else if negb (Qle_bool dy 0) then
            (* scroll down *)
            if Nat.eqb current_active_index (List.length ordered_workspace_ids - 1)
            then CreateNext
            else match nth_error ordered_workspace_ids (S current_active_index) with
                 | Some target => SwitchTo target
                 | None => Nothing
                 end
          else Nothing
      end
  end.

End WorkspaceIsland.

(* ===================================================================== *)
(** * systray_island.py *)
(* ===================================================================== *)

Module Systray.
Import PyStr.

(** The two names [_create_widget_for_item] keeps on the button:
    [dbus_service_name] and [dbus_clean_object_path]; [None] for both
    unless the path starts with a colon and holds a slash. *)
Definition dbus_names (object_path : string) : option string * option string :=
  if startswith ":" object_path then
    match Island.split_once "/" object_path with
    | Some (service_name, rest) => (Some service_name, Some ("/" ++ rest))
    | None => (None, None)
    end
  else (None, None).

(** The island: the keys of [self.item_widgets], in the order of the
    dict, and the children of the box, each widget named by the path it
    was made for. *)
Record island := {
  item_widgets : list string;
  children : list string
}.

(** [object_path in self.item_widgets] *)
Definition known (object_path : string) (s : island) : bool :=
  existsb (String.eqb object_path) (item_widgets s).

(** [dict.pop(key)] and [Gtk.Box.remove(widget)], on the names. *)
Fixpoint without (object_path : string) (l : list string) : list string :=
  match l with
  | [] => []
  | x :: rest =>
      if String.eqb object_path x then rest else x :: without object_path rest
  end.

(** [_on_item_added]; [has_item] tells whether [tray.get_item] finds the
    item. *)
Definition _on_item_added (has_item : bool) (object_path : string)
    (s : island) : island :=
  if negb has_item || known object_path s then s
  else {| item_widgets := (item_widgets s ++ [object_path])%list;
          children := (children s ++ [object_path])%list |}.

Definition _on_item_removed (object_path : string) (s : island) : island :=
  if known object_path s then
    {| item_widgets := without object_path (item_widgets s);
       children := without object_path (children s) |}
  else s.

(** The signals of the tray. *)
Inductive signal :=
  | ItemAdded (has_item : bool) (object_path : string)
  | ItemRemoved (object_path : string).

Definition on_signal (s : island) (e : signal) : island :=
  match e with
  | ItemAdded has_item object_path => _on_item_added has_item object_path s
  | ItemRemoved object_path => _on_item_removed object_path s
  end.

(** The island is well formed: a path is a key of the dict once, and the
    box holds the widgets of the dict. *)
Definition well_formed (s : island) : Prop :=
  NoDup (item_widgets s) /\ children s = item_widgets s.

(** The island of [__init__], before any signal. *)
Definition empty : island := {| item_widgets := []; children := [] |}.

(** What the signals say of one item, whatever the other items do: it is
    there once a signal adds it while the tray has it, until a signal
    removes it. *)
Fixpoint present (object_path : string) (signals : list signal) (before : bool)
  : bool :=
  match signals with
  | [] => before
  | ItemAdded has_item p :: rest =>
      present object_path rest (before || (has_item && String.eqb p object_path))
  | ItemRemoved p :: rest =>
      present object_path rest (before && negb (String.eqb p object_path))
  end.

End Systray.

(* ===================================================================== *)
(** * window_service.py: the queries to the compositor *)
(* ===================================================================== *)

Module Hyprland.

(** A result of [hypr_socket.recv(8192)]: bytes (none when the peer has
    closed), [socket.timeout], or another [socket.error]. *)
Inductive received :=
  | Chunk (data : string)
  | TimedOut
  | Broken.

(** How the receive loop ends: with the data read so far, with a
    response over the limit, or with the [socket.error]. *)
Inductive response :=
  | Data (response_data : string)
  | TooLarge
  | Lost.

(** The largest response that is taken, in bytes. *)
Definition limit : Z := 131072.

(** [while True: chunk = recv(8192); if not chunk: break;
     response_data += chunk; if len(response_data) > 131072: return None],
    under [except socket.timeout].  An empty list of results is a peer
    that has closed. *)
Fixpoint receive (response_data : string) (results : list received) : response :=
  match results with
  | [] => Data response_data
  | TimedOut :: _ => Data response_data
  | Broken :: _ => Lost
  | Chunk chunk :: later =>
      match chunk with
      | EmptyString => Data response_data
      | _ =>
          let response_data := response_data ++ chunk in
          if limit <? Z.of_nat (String.length response_data) then TooLarge
          else receive response_data later
      end
  end.

(** What is at a socket path: nothing that is a socket, a socket that
    refuses the connection, or one that accepts it; then [sends] tells
    whether [sendall] goes through, and [results] what [recv] gives. *)
Inductive ipc_socket :=
  | NoSocket
  | Refuses
  | Accepts (sends : bool) (results : list received).

Record environment := {
  HYPRLAND_INSTANCE_SIGNATURE : option string;
  XDG_RUNTIME_DIR : option string;
  (** the socket under [$XDG_RUNTIME_DIR/hypr/<signature>] *)
  xdg_socket : ipc_socket;
  (** the socket under [/tmp/hypr/<signature>] *)
  tmp_socket : ipc_socket
}.

(** The truth value of [os.environ.get(name)]. *)
Definition is_set (value : option string) : bool :=
  match value with
  | Some (String _ _) => true
  | _ => false
  end.

Definition potential_paths (env : environment) : list ipc_socket :=
  ((if is_set (XDG_RUNTIME_DIR env) then [xdg_socket env] else [])
   ++ [tmp_socket env])%list.

Section Fetch.

(** The decoded JSON. *)
Variable json : Type.
(** [response_data.decode('utf-8')]; [None] is the UnicodeDecodeError of
    bytes that are not UTF-8. *)
Variable decode : string -> option string.
(** [json.loads]; [None] is the JSONDecodeError. *)
Variable loads : string -> option json.

(** How [_fetch_hyprland_data] ends: it returns a value or None, or the
    UnicodeDecodeError leaves it, which neither
    [except json.JSONDecodeError] nor
    [except (socket.error, FileNotFoundError)] catches. *)
Inductive outcome :=
  | Returns (r : option json)
  | UnicodeDecodeError.

(** One turn of the loop over [potential_paths].  [Some o]: the function
    ends with [o]; [None]: the loop goes on to the next path. *)
Definition try_socket (s : ipc_socket) : option outcome :=
  match s with
  | NoSocket => None
  | Refuses => None
  | Accepts false _ => None
  | Accepts true results =>
      match receive EmptyString results with
      | Lost => None
      | TooLarge => Some (Returns None)
      | Data EmptyString => Some (Returns None)
      | Data response_data =>
          match decode response_data with
          | Some decoded_data => Some (Returns (loads decoded_data))
          | None => Some UnicodeDecodeError
          end
      end
  end.

(** What the function makes of the bytes of a socket that has answered:
    [if response_data:] and the [try] around the decoding. *)
Definition answer_of (response : response) : outcome :=
  match response with
  | Data (String c d) =>
      match decode (String c d) with
      | Some decoded_data => Returns (loads decoded_data)
      | None => UnicodeDecodeError
      end
  | _ => Returns None
  end.

Fixpoint try_paths (paths : list ipc_socket) : outcome :=
  match paths with
  | [] => Returns None
  | s :: later =>
      match try_socket s with
      | Some o => o
      | None => try_paths later
      end
  end.

Definition _fetch_hyprland_data (env : environment) : outcome :=
  if negb (is_set (HYPRLAND_INSTANCE_SIGNATURE env)) then Returns None
  else try_paths (potential_paths env).

End Fetch.

Arguments Returns {json} r.
Arguments UnicodeDecodeError {json}.

End Hyprland.

(** ** [monitor_display_state] *)

Module WindowMonitor.
Import Io Window.

Definition display_state_eq_dec (a b : display_state) : {a = b} + {a <> b}.
Proof. repeat decide equality. Defined.

(** One turn of the loop, with the state just fetched:
    [if new_state_data != self.current_display_state_data: ...]. *)
Definition monitor_display_state (new_state_data : display_state)
    (send_ok : client -> bool) (self : service) : service * list effect :=
  if display_state_eq_dec new_state_data (current_display_state_data self)
  then (self, [])
  else
    let self := {| current_display_state_data := new_state_data;
                   clients := clients self |} in
    let '(self, effects, _) := notify_clients send_ok self in
    (self, effects).

(** The turns of the loop, one after the other: each has the state it
    fetches, and what [client.send] does on each socket at that time,
    since a socket can begin to fail at any broadcast. *)
Fixpoint monitor_all (turns : list (display_state * (client -> bool)))
    (self : service) : service * list effect :=
  match turns with
  | [] => (self, [])
  | (new_state_data, send_ok) :: later =>
      let '(self, effects) := monitor_display_state new_state_data send_ok self in
      let '(self, more) := monitor_all later self in
      (self, (effects ++ more)%list)
  end.

(** The states that differ from the one stored when they are fetched: the
    changes of a run, oldest first. *)
Fixpoint changes (stored : display_state) (samples : list display_state)
  : list display_state :=
  match samples with
  | [] => []
  | new_state_data :: later =>
      if display_state_eq_dec new_state_data stored then changes stored later
      else new_state_data :: changes new_state_data later
  end.

(** The messages sent to one client, oldest first. *)
Fixpoint sent_to (c : client) (effects : list effect) : list string :=
  match effects with
  | [] => []
  | Sent c' message :: later =>
      if Nat.eqb c' c then message :: sent_to c later else sent_to c later
  | _ :: later => sent_to c later
  end.

End WindowMonitor.

(* ===================================================================== *)
(** * combined_service.py: start-up, the watch loop, the mixer *)
(* ===================================================================== *)

Module CombinedRun.
Import Py Io Combined.

(** [self.current_data] as [__init__] sets it. *)
Definition initial_data : snapshot :=
  {| battery_percentage := None; is_charging := false;
     battery_time_remaining := None; backlight_percentage := None;
     volume_percentage := None; speaker_muted := None; mic_muted := None |}.

(** [init_audio_monitoring] without the Cvc library:
    [current_data.update({"volume_percentage": 70, "speaker_muted": False,
    "mic_muted": False})]. *)
Definition audio_placeholders (d : snapshot) : snapshot :=
  set_mic_muted
    (set_speaker_muted (set_volume_percentage d (Some 70)) (Some false))
    (Some false).

(** [__init__], once the socket is bound: the audio is set up, then the
    files are read for the first time; [cvc_available] tells whether the
    mixer is monitored, in which case its callbacks come later. *)
Definition init (cvc_available : bool) (sys : sysfs) (current_time : Q)
    : result (service * list effect) :=
  let self := {| current_data := initial_data; clients := [];
                 last_battery_update := 0 |} in
  let self :=
    if cvc_available then self
    else set_current_data self (audio_placeholders (current_data self)) in
  update_file_data_and_notify sys current_time (fun _ => true) false self.

(** One turn of [inotify_event_loop]: without inotify the loop sleeps 30
    seconds; with it, [select] returns with the descriptor ready or after
    the timeout of 30 seconds.  [current_time] is the time of the
    update. *)
Definition inotify_event_loop (inotify_available fd_ready : bool) (sys : sysfs)
    (current_time : Q) (send_ok : client -> bool) (self : service)
    : result (service * list effect) :=
  if negb inotify_available then
    update_file_data_and_notify sys current_time send_ok true self
  else if fd_ready then
    update_file_data_and_notify sys current_time send_ok true self
  else
    update_file_data_and_notify sys current_time send_ok true self.

(** ** The mixer *)

Definition INVALID_STREAM_ID : Z := 2 ^ 32 - 1.

(** The three lookups of [Cvc.MixerControl]. *)
Record mixer := {
  lookup_stream_id : Z -> option stream;
  lookup_output_id : Z -> option stream;
  lookup_input_id : Z -> option stream
}.

(** [a or b or c] *)
Definition _lookup_any_stream (control : mixer) (stream_id : Z) : option stream :=
  match lookup_stream_id control stream_id with
  | Some s => Some s
  | None =>
      match lookup_output_id control stream_id with
      | Some s => Some s
      | None => lookup_input_id control stream_id
      end
  end.

Definition _on_default_sink_changed (control : mixer) (stream_id : Z)
    (audio : audio_service) : audio_service :=
  {| speaker := if stream_id =? INVALID_STREAM_ID then None
                else _lookup_any_stream control stream_id;
     microphone := microphone audio |}.

(** The signal [default-sink-changed] and the [changed] it emits, which
    runs [_on_audio_state_changed]. *)
Definition sink_changed (control : mixer) (stream_id : Z)
    (audio : audio_service) (send_ok : client -> bool) (self : service)
    : audio_service * (service * list effect) :=
  let audio := _on_default_sink_changed control stream_id audio in
  (audio, _on_audio_state_changed (Some audio) send_ok self).

End CombinedRun.

(* ===================================================================== *)
(** * [notify_clients] among the other threads

    time_service.py and window_service.py keep [self.clients] without a
    lock: [notify_clients] runs its two loops on the list itself while
    the thread of [accept_clients] appends to it and the threads of
    [handle_client] remove from it.  (combined_service.py takes a copy
    under [data_lock] and removes under the lock, after a membership
    test.)  A schedule is the order of the steps of these threads; a step
    of [notify_clients] is one turn of one of its loops, between two of
    which another thread can run. *)
(* ===================================================================== *)

Module SharedRegistry.
Import Io.

(** Where [notify_clients] stands.  The loop [for client in self.clients]
    holds an index into the list; [disconnected_clients] is local. *)
Inductive phase :=
  | Sending (index : nat) (disconnected_clients : list client)
  | Removing (disconnected_clients : list client)
  | Returned
  | Raised (e : Py.exn).

Record registry := {
  (** [self.clients] *)
  clients : list client;
  notify : phase;
  (** what was done to the sockets, oldest first *)
  effects : list effect
}.

Inductive event :=
  (** the next turn of a loop of [notify_clients] *)
  | Notify
  (** the [finally] of [handle_client], reached when the send of the
      handler has raised or the socket is closed:
      [if client_socket in self.clients: self.clients.remove(...)], then
      [client_socket.close()] *)
  | HandlerEnds (c : client)
  (** [self.clients.append(client_socket)] of [accept_clients] *)
  | Accepted (c : client).

Section Steps.

Variable send_ok : client -> bool.
Variable message : string.

Definition notify_step (r : registry) : registry :=
  match notify r with
  | Sending index disconnected_clients =>
      match nth_error (clients r) index with
      | Some c =>
          if send_ok c then
            {| clients := clients r;
               notify := Sending (S index) disconnected_clients;
               effects := (effects r ++ [Sent c message])%list |}
          else
            {| clients := clients r;
               notify := Sending (S index) (disconnected_clients ++ [c])%list;
               effects := effects r |}
      | None =>
          {| clients := clients r; notify := Removing disconnected_clients;
             effects := effects r |}
      end
  | Removing [] =>
      {| clients := clients r; notify := Returned; effects := effects r |}
  | Removing (c :: rest) =>
      if mem c (clients r) then
        {| clients := remove_first c (clients r); notify := Removing rest;
           effects := (effects r ++ [Closed c])%list |}
      else
        {| clients := clients r; notify := Raised Py.ValueError;
           effects := effects r |}
  | Returned | Raised _ => r
  end.

Definition handler_ends (c : client) (r : registry) : registry :=
  {| clients := if mem c (clients r) then remove_first c (clients r)
                else clients r;
     notify := notify r;
     effects := (effects r ++ [Closed c])%list |}.

Definition step (r : registry) (e : event) : registry :=
  match e with
  | Notify => notify_step r
  | HandlerEnds c => handler_ends c r
  | Accepted c =>
      {| clients := (clients r ++ [c])%list; notify := notify r;
         effects := effects r |}
  end.

Definition run (schedule : list event) (r : registry) : registry :=
  fold_left step schedule r.

(** The call of [notify_clients] begins. *)
Definition start (cs : list client) : registry :=
  {| clients := cs; notify := Sending 0 []; effects := [] |}.

(** The call alone: the turns of the first loop and its end, the turns
    of the second and its end. *)
Definition alone (cs : list client) : list event :=
  repeat Notify (S (List.length cs) + S (List.length cs)).

End Steps.

End SharedRegistry.

(* ===================================================================== *)
(** * Rounding

    The record of a mantissa that is shifted to the right keeps, beside
    the mantissa, the last bit shifted out and whether a bit before it
    was set. *)
(* ===================================================================== *)

Module Rounding.

(** Nothing has been shifted out but zeros. *)
Definition no_bits_lost (r : shr_record) : Prop :=
  shr_r r = false /\ shr_s r = false.

End Rounding.

(* ===================================================================== *)
(** * Theorems *)
(* ===================================================================== *)

(** ** Strings *)

Section StringFacts.
Import PyStr.

Lemma startswith_spec p s :
  startswith p s = true <-> exists r, s = p ++ r.
Proof.
  revert s; induction p as [|a p IH]; intros s; simpl.
  - split; [intros _; now exists s | reflexivity].
  - destruct s as [|c s]; simpl.
    + split; [discriminate | intros [r Hr]; discriminate].
    + rewrite andb_true_iff, IH, Ascii.eqb_eq. split.
      * intros [-> [r ->]]. now exists r.
      * intros [r Hr]. injection Hr as -> ->. split; [reflexivity | now exists r].
Qed.

Lemma contains_spec p s :
  contains p s = true <-> exists l r, s = l ++ p ++ r.
Proof.
  induction s as [|c s IH]; simpl.
  - rewrite startswith_spec. split.
    + intros [r Hr]. now exists "", r.
    + intros [l [r Hr]]. destruct l; simpl in Hr.
      * now exists r.
      * discriminate.
  - rewrite orb_true_iff, IH, startswith_spec. split.
    + intros [[r Hr] | [l [r Hr]]].
      * now exists "", r.
      * exists (String c l), r. simpl. now rewrite Hr.
    + intros [l [r Hr]]. destruct l as [|c' l]; simpl in Hr.
      * left. now exists r.
      * right. injection Hr as _ Hr. now exists l, r.
Qed.

Lemma isspace_lower_char c : isspace (lower_char c) = isspace c.
Proof. destruct c as [[] [] [] [] [] [] [] []]; reflexivity. Qed.

Lemma lower_lstrip s : lower (lstrip s) = lstrip (lower s).
Proof.
  induction s as [|c s IH]; simpl; [reflexivity|].
  rewrite isspace_lower_char. destruct (isspace c); [exact IH | reflexivity].
Qed.

Lemma lower_rstrip s : lower (rstrip s) = rstrip (lower s).
Proof.
  induction s as [|c s IH]; simpl; [reflexivity|].
  rewrite <- IH, isspace_lower_char.
  destruct (rstrip s) as [|c' r]; simpl; [destruct (isspace c)|]; reflexivity.
Qed.

Lemma lower_strip s : lower (strip s) = strip (lower s).
Proof. unfold strip. now rewrite lower_rstrip, lower_lstrip. Qed.

Lemma startswith_empty_r p : p <> "" -> startswith p "" = false.
Proof. destruct p; [congruence | reflexivity]. Qed.

Lemma last_nonspace_nonempty p : last_nonspace p = true -> p <> "".
Proof. destruct p; simpl; congruence. Qed.

Lemma startswith_rstrip p s :
  last_nonspace p = true -> startswith p (rstrip s) = startswith p s.
Proof.
  revert p; induction s as [|c s IH]; intros p Hp; [reflexivity|].
  destruct p as [|a p]; [discriminate|].
  destruct p as [|b p].
  - (* the pattern is the single character [a] *)
    simpl in Hp. simpl rstrip.
    destruct (rstrip s) as [|c' r]; [destruct (isspace c) eqn:Hc|]; simpl;
      try reflexivity.
    destruct (Ascii.eqb a c) eqn:Hac; [|reflexivity].
    apply Ascii.eqb_eq in Hac. subst a. rewrite Hc in Hp. discriminate.
  - specialize (IH (String b p) Hp).
    change (startswith (String a (String b p)) (String c s))
      with (Ascii.eqb a c && startswith (String b p) s).
    rewrite <- IH. simpl rstrip.
    destruct (rstrip s) as [|c' r]; [destruct (isspace c)|]; simpl;
      try reflexivity.
    now rewrite andb_false_r.
Qed.

Lemma contains_rstrip p s :
  last_nonspace p = true -> contains p (rstrip s) = contains p s.
Proof.
  intros Hp. induction s as [|c s IH]; [reflexivity|].
  change (contains p (String c s)) with (startswith p (String c s) || contains p s).
  rewrite <- IH, <- (startswith_rstrip p (String c s) Hp).
  simpl rstrip. destruct (rstrip s) as [|c' r]; [destruct (isspace c)|]; simpl;
    try reflexivity.
  now rewrite orb_diag.
Qed.

Lemma contains_lstrip p s :
  first_nonspace p = true -> contains p (lstrip s) = contains p s.
Proof.
  intros Hp. induction s as [|c s IH]; [reflexivity|].
  simpl lstrip. destruct (isspace c) eqn:Hc; [|reflexivity].
  rewrite IH. destruct p as [|a p]; [discriminate|]. simpl in Hp.
  change (contains (String a p) (String c s))
    with (Ascii.eqb a c && startswith p s || contains (String a p) s).
  destruct (Ascii.eqb a c) eqn:Hac; [|reflexivity].
  apply Ascii.eqb_eq in Hac. subst a. rewrite Hc in Hp. discriminate.
Qed.

Lemma contains_strip p s :
  first_nonspace p = true -> last_nonspace p = true ->
  contains p (strip s) = contains p s.
Proof.
  intros Hf Hl. unfold strip. now rewrite contains_rstrip, contains_lstrip.
Qed.

Lemma lower_app s t : lower (s ++ t) = lower s ++ lower t.
Proof. induction s as [|c s IH]; simpl; [reflexivity | now rewrite IH]. Qed.

Lemma contains_lower p s :
  contains p s = true -> contains (lower p) (lower s) = true.
Proof.
  rewrite !contains_spec. intros [l [r ->]].
  exists (lower l), (lower r). now rewrite !lower_app.
Qed.

End StringFacts.

(** ** The embedding on examples *)

Section Examples.
Import Py PyStr.

Example int_of_str_examples :
  int_of_str " -1_200 " = Some (-1200)
  /\ int_of_str "007" = Some 7
  /\ int_of_str "+42" = Some 42
  /\ int_of_str "12a" = None
  /\ int_of_str "" = None
  /\ int_of_str "1__2" = None
  /\ int_of_str "_1" = None.
Proof. repeat split. Qed.

Example strip_lower_example : lower (strip "  Not Charging  ") = "not charging".
Proof. reflexivity. Qed.

Example float_examples :
  (q <- truediv 1 3 ;; int_of_float (mul_int q 3600)) = Ok 1200
  /\ (q <- truediv (-7) 2 ;; int_of_float (mul_int q 100)) = Ok (-350)
  /\ truediv 1 0 = Raise ZeroDivisionError
  /\ truediv (10 ^ 400) 1 = Raise OverflowError
  /\ (q <- truediv (10 ^ 400) (10 ^ 399) ;; int_of_float (mul_int q 100)) = Ok 1000.
Proof. repeat split. Qed.

Example formatted_time_example :
  Time.full_display (Time.get_formatted_time Time.monday_1405) = "14:05, Mon, 1st Jan"
  /\ Time.get_ordinal_suffix 2 = "nd" /\ Time.get_ordinal_suffix 3 = "rd"
  /\ Time.get_ordinal_suffix 11 = "th" /\ Time.get_ordinal_suffix 12 = "th"
  /\ Time.get_ordinal_suffix 13 = "th" /\ Time.get_ordinal_suffix 21 = "st"
  /\ Time.get_ordinal_suffix 30 = "th".
Proof. repeat split. Qed.

Example battery_info_example :
  let files name :=
    if String.eqb name "capacity" then Combined.Content "80"
    else if String.eqb name "status" then Combined.Content "Discharging"
    else Combined.battery_dir "7500000" "30000000" Combined.NoPath Combined.NoPath name in
  Combined.get_battery_info_internal files = (Some 80, false, Some 14400).
Proof. reflexivity. Qed.

End Examples.

(** ** One message, one line *)

Section Framing.
Import PyStr.

Lemma contains_lf_app s t :
  contains Json.LF (s ++ t) = contains Json.LF s || contains Json.LF t.
Proof.
  induction s as [|c s IH]; simpl.
  - now destruct t.
  - rewrite IH. now rewrite orb_assoc.
Qed.

Lemma escape_char_one_line c : contains Json.LF (Json.escape_char c) = false.
Proof. destruct c as [[] [] [] [] [] [] [] []]; reflexivity. Qed.

Lemma escape_one_line s : contains Json.LF (Json.escape s) = false.
Proof.
  induction s as [|c s IH]; simpl; [reflexivity|].
  now rewrite contains_lf_app, escape_char_one_line, IH.
Qed.

Lemma of_str_one_line s : contains Json.LF (Json.of_str s) = false.
Proof.
  unfold Json.of_str. now rewrite !contains_lf_app, escape_one_line.
Qed.

Lemma of_int_one_line n : contains Json.LF (Json.of_int n) = false.
Proof.
  unfold Json.of_int.
  assert (Hu : forall d, contains Json.LF (NilEmpty.string_of_uint d) = false).
  { induction d; simpl; auto. }
  assert (Hz : forall d, contains Json.LF (NilZero.string_of_uint d) = false).
  { intros d. destruct d; simpl; auto; apply (Hu d). }
  destruct (Z.to_int n) as [d|d]; simpl; [apply Hz|].
  apply (Hz d).
Qed.

Lemma of_bool_one_line b : contains Json.LF (Json.of_bool b) = false.
Proof. now destruct b. Qed.

Lemma of_option_one_line {A} (f : A -> string) o :
  (forall a, contains Json.LF (f a) = false) ->
  contains Json.LF (Json.of_option f o) = false.
Proof. intros Hf. destruct o; simpl; [apply Hf | reflexivity]. Qed.

Lemma object_one_line kvs :
  Forall (fun kv => contains Json.LF (snd kv) = false) kvs ->
  contains Json.LF (Json.object kvs) = false.
Proof.
  intros H. unfold Json.object. rewrite !contains_lf_app. simpl.
  rewrite orb_false_r.
  induction H as [|[k v] kvs Hv Hrest IH]; [reflexivity|].
  simpl in Hv. destruct kvs as [|kv kvs].
  - change (Json.members [(k, v)]) with (Json.of_str k ++ ": " ++ v).
    now rewrite !contains_lf_app, of_str_one_line, Hv.
  - change (Json.members ((k, v) :: kv :: kvs))
      with (Json.of_str k ++ ": " ++ v ++ ", " ++ Json.members (kv :: kvs)).
    now rewrite !contains_lf_app, of_str_one_line, Hv, IH.
Qed.

Lemma array_one_line vs :
  Forall (fun v => contains Json.LF v = false) vs ->
  contains Json.LF (Json.array vs) = false.
Proof.
  intros H. unfold Json.array. rewrite !contains_lf_app. simpl.
  rewrite orb_false_r.
  induction H as [|v vs Hv Hrest IH]; [reflexivity|].
  destruct vs as [|v' vs]; [exact Hv|].
  change (Json.elements (v :: v' :: vs))
    with (v ++ ", " ++ Json.elements (v' :: vs)).
  now rewrite !contains_lf_app, Hv, IH.
Qed.

(** The serialised snapshot of each service holds no line feed: a
    message, the snapshot and a line feed, is exactly one line. *)
Lemma messages_are_single_lines :
  (forall t, contains Json.LF (Time.dumps t) = false)
  /\ (forall d, contains Json.LF (Combined.dumps d) = false)
  /\ (forall d, contains Json.LF (Window.dumps d) = false).
Proof.
  split; [|split].
  - intros t. apply object_one_line.
    repeat constructor; apply of_str_one_line.
  - intros d. apply object_one_line.
    repeat constructor; cbn [snd];
      try apply of_bool_one_line;
      apply of_option_one_line;
      first [apply of_int_one_line | apply of_bool_one_line].
  - intros d. apply object_one_line. repeat constructor; cbn [snd].
    + apply object_one_line.
      repeat constructor; first [apply of_str_one_line | apply of_int_one_line].
    + apply array_one_line. apply Forall_forall. intros v Hv.
      apply in_map_iff in Hv. destruct Hv as [e [<- _]].
      apply object_one_line. repeat constructor; cbn [snd];
        first [apply of_int_one_line | apply of_option_one_line, of_str_one_line].
    + apply of_option_one_line, of_int_one_line.
Qed.

End Framing.

(** ** C3: the charging classification *)

Section Charging.
Import PyStr Combined.

Lemma any_state_in_spec states s :
  any_state_in states s = true <->
  exists phrase, In phrase states /\ contains phrase s = true.
Proof.
  induction states as [|p states IH]; simpl.
  - split; [discriminate | intros [? [[] _]]].
  - destruct (contains p s) eqn:Hp.
    + split; [intros _; exists p; auto | reflexivity].
    + rewrite IH. split.
      * intros [q [Hin Hq]]. exists q. auto.
      * intros [q [[<- | Hin] Hq]]; [congruence | exists q; auto].
Qed.

(** The cleaning of the status, [strip] then [lower], does not change
    which phrases of the two vocabularies occur. *)
Lemma any_state_in_clean states s :
  forallb (fun p => first_nonspace p && last_nonspace p) states = true ->
  any_state_in states (lower (strip s)) = any_state_in states (lower s).
Proof.
  induction states as [|p states IH]; simpl; [reflexivity|].
  rewrite !andb_true_iff. intros [[Hf Hl] Hrest].
  rewrite lower_strip, (contains_strip p _ Hf Hl), <- lower_strip.
  now rewrite (IH Hrest).
Qed.

(** C3.  For every status string, [_parse_battery_status] answers true
    exactly when the lower-cased string contains a phrase of the charging
    vocabulary and no phrase of the discharging vocabulary.  "Not
    charging" and "Discharging" are not charging, "Charging" is, and a
    string that contains both "charging" and "discharging" is not:
    discharging wins. *)
Theorem parse_battery_status_classification :
  (forall status_str,
     _parse_battery_status status_str = true <->
     (exists phrase, In phrase charging_states
                     /\ contains phrase (lower status_str) = true)
     /\ ~ (exists phrase, In phrase discharging_states
                          /\ contains phrase (lower status_str) = true))
  /\ _parse_battery_status "Not charging" = false
  /\ _parse_battery_status "Charging" = true
  /\ _parse_battery_status "Discharging" = false
  /\ (forall status_str,
        contains "charging" status_str = true ->
        contains "discharging" status_str = true ->
        _parse_battery_status status_str = false).
Proof.
  assert (Hiff : forall status_str,
     _parse_battery_status status_str = true <->
     (exists phrase, In phrase charging_states
                     /\ contains phrase (lower status_str) = true)
     /\ ~ (exists phrase, In phrase discharging_states
                          /\ contains phrase (lower status_str) = true)).
  { intros s. unfold _parse_battery_status.
    rewrite !any_state_in_clean by reflexivity.
    rewrite andb_true_iff, negb_true_iff, <- !any_state_in_spec.
    destruct (any_state_in discharging_states (lower s)); intuition congruence. }
  split; [exact Hiff|].
  repeat split; try reflexivity.
  intros s _ Hdis.
  destruct (_parse_battery_status s) eqn:Hp; [|reflexivity].
  apply Hiff in Hp. destruct Hp as [_ Hno]. exfalso. apply Hno.
  exists "discharging". split; [simpl; auto|].
  exact (contains_lower "discharging" s Hdis).
Qed.

Lemma parse_battery_status_classification_witness :
  contains "charging" "charging (was discharging)" = true
  /\ contains "discharging" "charging (was discharging)" = true
  /\ _parse_battery_status "charging (was discharging)" = false.
Proof.
  split; [reflexivity|]. split; [reflexivity|].
  exact (proj2 (proj2 (proj2 (proj2 parse_battery_status_classification)))
           "charging (was discharging)" eq_refl eq_refl).
Defined.

End Charging.

(** ** C5: the workspace list *)

Section Workspaces.
Import Window.

Lemma filter_workspaces_spec data :
  filter_workspaces data = map entry_of (filter non_special data).
Proof.
  induction data as [|ws data IH]; simpl; [reflexivity|].
  unfold non_special at 1. destruct (0 <=? get (ws_id ws) 0); simpl; now rewrite IH.
Qed.

Lemma id_le_trans : Relations_1.Transitive id_le.
Proof. intros a b c. unfold id_le. lia. Qed.

Lemma insert_by_id_perm e l : Permutation (e :: l) (insert_by_id e l).
Proof.
  induction l as [|x l IH]; simpl; [apply Permutation_refl|].
  destruct (id e <=? id x); [apply Permutation_refl|].
  eapply Permutation_trans; [apply perm_swap | apply perm_skip, IH].
Qed.

Lemma sort_by_id_perm l : Permutation l (sort_by_id l).
Proof.
  induction l as [|e l IH]; simpl; [constructor|].
  eapply Permutation_trans; [apply perm_skip, IH | apply insert_by_id_perm].
Qed.

Lemma insert_by_id_hd e x l :
  id_le x e -> HdRel id_le x l -> HdRel id_le x (insert_by_id e l).
Proof.
  intros Hxe Hl. destruct l as [|y l]; simpl; [now constructor|].
  destruct (id e <=? id y); constructor; [exact Hxe | now inversion Hl].
Qed.

Lemma insert_by_id_sorted e l :
  Sorted id_le l -> Sorted id_le (insert_by_id e l).
Proof.
  induction 1 as [|x l Hs IH Hhd]; simpl; [repeat constructor|].
  destruct (id e <=? id x) eqn:Hle.
  - constructor; [constructor; assumption | constructor; unfold id_le; lia].
  - constructor; [exact IH|]. apply insert_by_id_hd; [unfold id_le; lia | exact Hhd].
Qed.

Lemma sort_by_id_sorted l : Sorted id_le (sort_by_id l).
Proof.
  induction l as [|e l IH]; simpl; [constructor | now apply insert_by_id_sorted].
Qed.

(** C5.  For every workspace list of the compositor, the exposed list
    holds exactly the entries of the workspaces with a non-negative id, in
    ascending order of id; the ids -1, 3, 1, 2 give the entries 1, 2, 3. *)
Theorem workspaces_sorted_without_special :
  (forall items,
     let exposed := get_hyprland_all_workspaces_list (JsonList items) in
     Permutation (map entry_of (filter non_special items)) exposed
     /\ StronglySorted id_le exposed
     /\ Forall (fun e => 0 <= id e) exposed)
  /\ (forall n3 n1 n2 nm w3 w1 w2 wm,
        get_hyprland_all_workspaces_list
          (JsonList
             [ {| ws_id := Some (-1); ws_name := nm; ws_windows := wm |};
               {| ws_id := Some 3; ws_name := n3; ws_windows := Some w3 |};
               {| ws_id := Some 1; ws_name := n1; ws_windows := Some w1 |};
               {| ws_id := Some 2; ws_name := n2; ws_windows := Some w2 |} ])
        = [ {| id := 1; name := n1; windows := w1 |};
            {| id := 2; name := n2; windows := w2 |};
            {| id := 3; name := n3; windows := w3 |} ]).
Proof.
  split; [|reflexivity].
  intros items exposed.
  assert (Hex : exposed = sort_by_id (filter_workspaces items)).
  { unfold exposed. now destruct items. }
  rewrite Hex, <- filter_workspaces_spec.
  split; [apply sort_by_id_perm|].
  split; [apply Sorted_StronglySorted; [exact id_le_trans | apply sort_by_id_sorted]|].
  apply Forall_forall. intros e He.
  apply (Permutation_in _ (Permutation_sym (sort_by_id_perm _))) in He.
  rewrite filter_workspaces_spec in He. apply in_map_iff in He.
  destruct He as [ws [<- Hws]]. apply filter_In in Hws.
  destruct Hws as [_ Hns]. unfold non_special in Hns. simpl. lia.
Qed.

End Workspaces.

(** ** The broadcast of a service, run alone *)

Section Isolation.
Import Io.

Variable send_ok : client -> bool.

Lemma send_to_all_spec message cs :
  send_to_all send_ok message cs
  = (map (fun c => Sent c message) (filter send_ok cs), filter (send_fails send_ok) cs).
Proof.
  induction cs as [|c cs IH]; simpl; [reflexivity|].
  rewrite IH. unfold send_fails. now destruct (send_ok c).
Qed.

Lemma mem_In c cs : mem c cs = true <-> In c cs.
Proof.
  unfold mem. rewrite existsb_exists. split.
  - intros [x [Hx Heq]]. apply Nat.eqb_eq in Heq. now subst.
  - intros H. exists c. split; [exact H | apply Nat.eqb_refl].
Qed.

Lemma remove_first_middle c good cs :
  ~ In c good -> remove_first c (good ++ c :: cs) = (good ++ cs)%list.
Proof.
  induction good as [|g good IH]; simpl; intros Hc.
  - now rewrite Nat.eqb_refl.
  - destruct (Nat.eqb c g) eqn:Heq.
    + apply Nat.eqb_eq in Heq. subst g. tauto.
    + rewrite IH; tauto.
Qed.

(** The removal loop of combined_service.py, run on the sockets whose send
    failed, with the part [good] of the list already gone through. *)
Lemma drop_disconnected_spec good cs :
  Forall (fun c => send_ok c = true) good ->
  Combined.drop_disconnected (filter (send_fails send_ok) cs) (good ++ cs)
  = ((good ++ filter send_ok cs)%list, map Closed (filter (send_fails send_ok) cs)).
Proof.
  revert good; induction cs as [|c cs IH]; intros good Hgood; simpl.
  - reflexivity.
  - change (send_fails send_ok c) with (negb (send_ok c)).
    destruct (send_ok c) eqn:Hc; simpl.
    + replace (good ++ c :: cs)%list with ((good ++ [c]) ++ cs)%list
        by now rewrite <- app_assoc.
      rewrite IH, <- app_assoc; [reflexivity|].
      apply Forall_app. split; [exact Hgood | now repeat constructor].
    + assert (Hnot : ~ In c good).
      { intros Hin. rewrite Forall_forall in Hgood.
        specialize (Hgood c Hin). congruence. }
      replace (mem c (good ++ c :: cs)) with true
        by (symmetry; apply mem_In, in_elt).
      rewrite (remove_first_middle c good cs Hnot), (IH good Hgood).
      reflexivity.
Qed.

(** The same for the loop of time_service.py and window_service.py: no
    ValueError comes out of it. *)
Lemma remove_disconnected_spec good cs :
  Forall (fun c => send_ok c = true) good ->
  remove_disconnected (filter (send_fails send_ok) cs) (good ++ cs)
  = ((good ++ filter send_ok cs)%list, map Closed (filter (send_fails send_ok) cs), None).
Proof.
  revert good; induction cs as [|c cs IH]; intros good Hgood; simpl.
  - reflexivity.
  - change (send_fails send_ok c) with (negb (send_ok c)).
    destruct (send_ok c) eqn:Hc; simpl.
    + replace (good ++ c :: cs)%list with ((good ++ [c]) ++ cs)%list
        by now rewrite <- app_assoc.
      rewrite IH, <- app_assoc; [reflexivity|].
      apply Forall_app. split; [exact Hgood | now repeat constructor].
    + assert (Hnot : ~ In c good).
      { intros Hin. rewrite Forall_forall in Hgood.
        specialize (Hgood c Hin). congruence. }
      replace (mem c (good ++ c :: cs)) with true
        by (symmetry; apply mem_In, in_elt).
      rewrite (remove_first_middle c good cs Hnot), (IH good Hgood).
      reflexivity.
Qed.

Lemma broadcast_spec message cs :
  broadcast send_ok message cs
  = (filter send_ok cs,
     (map (fun c => Sent c message) (filter send_ok cs)
      ++ map Closed (filter (send_fails send_ok) cs))%list,
     None).
Proof.
  unfold broadcast. rewrite send_to_all_spec.
  pose proof (remove_disconnected_spec [] cs (Forall_nil _)) as Hloop.
  simpl in Hloop. now rewrite Hloop.
Qed.

Lemma combined_notify_spec self :
  Combined.notify_clients send_ok self
  = (Combined.set_clients self (filter send_ok (Combined.clients self)),
     (map (fun c => Sent c (Combined.dumps (Combined.current_data self) ++ Json.LF))
          (filter send_ok (Combined.clients self))
      ++ map Closed (filter (send_fails send_ok) (Combined.clients self)))%list).
Proof.
  unfold Combined.notify_clients. rewrite send_to_all_spec.
  pose proof (drop_disconnected_spec [] (Combined.clients self) (Forall_nil _)) as Hloop.
  simpl in Hloop. now rewrite Hloop.
Qed.

End Isolation.

Section IsolationTheorem.
Import Io.

Lemma isolated_intro send_ok message cs :
  isolated send_ok message cs (filter send_ok cs)
    (map (fun c => Sent c message) (filter send_ok cs)
     ++ map Closed (filter (send_fails send_ok) cs))%list.
Proof.
  split; [reflexivity|]. split; intros c Hin Hc.
  - split; [|split].
    + apply in_or_app. left. apply in_map_iff. exists c.
      split; [reflexivity | now apply filter_In].
    + now apply filter_In.
    + intros H. apply in_app_or in H. destruct H as [H | H];
        apply in_map_iff in H; destruct H as [x [Hx Hf]]; [discriminate|].
      injection Hx as ->. apply filter_In in Hf. unfold send_fails in Hf.
      rewrite Hc in Hf. now destruct Hf.
  - split; [|split].
    + apply in_or_app. right. apply in_map_iff. exists c.
      split; [reflexivity|]. apply filter_In. unfold send_fails.
      now rewrite Hc.
    + intros H. apply filter_In in H. destruct H as [_ H]. congruence.
    + intros m H. apply in_app_or in H. destruct H as [H | H];
        apply in_map_iff in H; destruct H as [x [Hx Hf]]; [|discriminate].
      injection Hx as -> _. apply filter_In in Hf. destruct Hf as [_ Hf].
      congruence.
Qed.

(** A broadcast that no other thread interrupts, in any of the three
    services: a socket whose send fails is the only kind removed from the
    registry, and it is closed; every other registered socket receives
    the message and stays registered; no exception leaves
    [notify_clients]; the stored state is untouched.  In
    combined_service.py, where the registry is read and changed under
    [data_lock] only, this is every broadcast: when the send to client
    [a] fails and the send to client [b] succeeds, [b] receives this
    broadcast, and the next one too. *)
Theorem broadcast_isolation :
  forall (send_ok : client -> bool),
    (forall self,
       let '(self', effects) := Combined.notify_clients send_ok self in
       isolated send_ok (Combined.dumps (Combined.current_data self) ++ Json.LF)
         (Combined.clients self) (Combined.clients self') effects
       /\ Combined.current_data self' = Combined.current_data self)
    /\ (forall self,
          let '(self', effects, raised) := Time.notify_clients send_ok self in
          isolated send_ok (Time.dumps (Time.current_time_info self) ++ Json.LF)
            (Time.clients self) (Time.clients self') effects
          /\ raised = None
          /\ Time.current_time_info self' = Time.current_time_info self)
    /\ (forall self,
          let '(self', effects, raised) := Window.notify_clients send_ok self in
          isolated send_ok
            (Window.dumps (Window.current_display_state_data self) ++ Json.LF)
            (Window.clients self) (Window.clients self') effects
          /\ raised = None
          /\ Window.current_display_state_data self'
             = Window.current_display_state_data self)
    /\ (forall a b self next_ok,
          In a (Combined.clients self) -> In b (Combined.clients self) ->
          send_ok a = false -> send_ok b = true -> next_ok b = true ->
          let message := Combined.dumps (Combined.current_data self) ++ Json.LF in
          let '(self', effects) := Combined.notify_clients send_ok self in
          In (Sent b message) effects
          /\ In (Sent b message) (snd (Combined.notify_clients next_ok self'))).
Proof.
  intros send_ok. split; [|split; [|split]].
  - intros self. rewrite combined_notify_spec. split; [|reflexivity].
    apply isolated_intro.
  - intros self. unfold Time.notify_clients. rewrite broadcast_spec. simpl.
    split; [apply isolated_intro | split; reflexivity].
  - intros self. unfold Window.notify_clients. rewrite broadcast_spec. simpl.
    split; [apply isolated_intro | split; reflexivity].
  - intros a b self next_ok Ha Hb Hfa Hfb Hnext message.
    rewrite combined_notify_spec.
    destruct (isolated_intro send_ok message (Combined.clients self))
      as [_ [Hok _]].
    destruct (Hok b Hb Hfb) as [Hsent [Hstays _]].
    split; [exact Hsent|].
    rewrite combined_notify_spec. simpl.
    destruct (isolated_intro next_ok message
                (filter send_ok (Combined.clients self))) as [_ [Hok' _]].
    exact (proj1 (Hok' b Hstays Hnext)).
Qed.

Lemma broadcast_isolation_witness :
  let send_ok := fun c : client => negb (Nat.eqb c 1) in
  let self := {| Combined.current_data :=
                   {| Combined.battery_percentage := Some 80;
                      Combined.is_charging := false;
                      Combined.battery_time_remaining := None;
                      Combined.backlight_percentage := Some 50;
                      Combined.volume_percentage := Some 70;
                      Combined.speaker_muted := Some false;
                      Combined.mic_muted := Some false |};
                 Combined.clients := [1%nat; 2%nat];
                 Combined.last_battery_update := 0%Q |} in
  let message := Combined.dumps (Combined.current_data self) ++ Json.LF in
  In (Sent 2%nat message) (snd (Combined.notify_clients send_ok self))
  /\ In (Sent 2%nat message)
        (snd (Combined.notify_clients (fun _ => true)
                (fst (Combined.notify_clients send_ok self)))).
Proof.
  intros send_ok self message.
  exact (proj2 (proj2 (proj2 (broadcast_isolation send_ok))) 1%nat 2%nat self
           (fun _ => true) (or_introl eq_refl) (or_intror (or_introl eq_refl))
           eq_refl eq_refl eq_refl).
Defined.

End IsolationTheorem.

(** ** C1: the state store of the combined service *)

Section StateStore.
Import Io Combined.

Lemma option_eqb_eq {A} (eqb : A -> A -> bool) (a b : option A) :
  (forall x y, eqb x y = true <-> x = y) ->
  option_eqb eqb a b = true <-> a = b.
Proof.
  intros Heqb. destruct a as [x|], b as [y|]; simpl;
    try (split; congruence).
  rewrite Heqb. split; congruence.
Qed.

Lemma int_ne_false a b : int_ne a b = false -> a = b.
Proof.
  unfold int_ne. rewrite negb_false_iff. apply option_eqb_eq, Z.eqb_eq.
Qed.

Lemma int_ne_true a b : int_ne a b = true -> a <> b.
Proof.
  unfold int_ne. rewrite negb_true_iff. intros H Heq.
  apply (option_eqb_eq Z.eqb a b Z.eqb_eq) in Heq. congruence.
Qed.

Lemma bool_ne_false a b : bool_ne a b = false -> a = b.
Proof. now destruct a, b. Qed.

Lemma bool_ne_true a b : bool_ne a b = true -> a <> b.
Proof. now destruct a, b. Qed.

Lemma flag_ne_false a b : flag_ne a b = false -> a = b.
Proof. now destruct a as [[]|], b as [[]|]. Qed.

Lemma flag_ne_true a b : flag_ne a b = true -> a <> b.
Proof. now destruct a as [[]|], b as [[]|]. Qed.

(** Turn the outcome of each comparison into an equation or a
    disequation of the two values. *)
Ltac compared :=
  repeat match goal with
    | H : int_ne _ _ = false |- _ => apply int_ne_false in H
    | H : int_ne _ _ = true |- _ => apply int_ne_true in H
    | H : bool_ne _ _ = false |- _ => apply bool_ne_false in H
    | H : bool_ne _ _ = true |- _ => apply bool_ne_true in H
    | H : flag_ne _ _ = false |- _ => apply flag_ne_false in H
    | H : flag_ne _ _ = true |- _ => apply flag_ne_true in H
    end.

Ltac settle_store :=
  compared; subst;
  first
    [ exfalso; congruence
    | split;
      [ reflexivity || congruence
      | split;
        [ (discriminate || (intros _ Heq; injection Heq; intros; congruence))
        | (reflexivity || (intros Hne; exfalso; apply Hne; reflexivity)
           || (intros Hne; exfalso; congruence)) ] ] ].

Lemma store_file_data_spec d bat chg rem bl :
  let '(d', data_changed) := store_file_data d bat chg rem bl in
  d' = merge d (FileData bat chg rem bl)
  /\ (data_changed = true <-> merge d (FileData bat chg rem bl) <> d).
Proof.
  destruct d as [bp ic tr bk vol sm mm]. unfold store_file_data. simpl.
  destruct (int_ne bp bat) eqn:H1; simpl;
    destruct (bool_ne ic chg) eqn:H2; simpl;
    destruct (int_ne tr rem) eqn:H3; simpl;
    destruct (int_ne bk bl) eqn:H4; simpl; settle_store.
Qed.

Lemma store_audio_data_spec d audio :
  let '(d', data_changed) := store_audio_data d audio in
  d' = merge d (AudioData audio)
  /\ (data_changed = true <-> merge d (AudioData audio) <> d).
Proof.
  destruct d as [bp ic tr bk vol sm mm], audio as [sp mic].
  unfold store_audio_data. simpl.
  destruct sp as [[v m]|], mic as [[v' m']|]; simpl;
    repeat match goal with
      | |- context [int_ne ?a ?b] => destruct (int_ne a b) eqn:?; simpl
      | |- context [flag_ne ?a ?b] => destruct (flag_ne a b) eqn:?; simpl
      end; settle_store.
Qed.

Lemma apply_spec d i :
  let '(d', data_changed) := Combined.apply d i in
  d' = merge d i /\ (data_changed = true <-> merge d i <> d).
Proof.
  destruct i; [apply store_file_data_spec | apply store_audio_data_spec].
Qed.

Lemma last_cons {A} (a d : A) l : last (a :: l) d = last l a.
Proof.
  revert a d; induction l as [|b l IH]; intros a d; [reflexivity|].
  change (last (a :: b :: l) d) with (last (b :: l) d).
  now rewrite (IH b d), (IH b a).
Qed.

Lemma apply_all_spec inputs :
  forall d,
    let '(final, broadcasts) := apply_all d inputs in
    broadcasts = differing d inputs /\ final = last (differing d inputs) d.
Proof.
  induction inputs as [|i inputs IH]; intros d; simpl; [split; reflexivity|].
  pose proof (apply_spec d i) as Hi.
  destruct (Combined.apply d i) as [d' changed]. destruct Hi as [-> Hchanged].
  specialize (IH (merge d i)).
  destruct (apply_all (merge d i) inputs) as [final broadcasts].
  destruct IH as [-> ->].
  destruct (snapshot_eq_dec (merge d i) d) as [Heq | Hne].
  - destruct changed; [exfalso; now apply (proj1 Hchanged)|].
    rewrite Heq. split; reflexivity.
  - destruct changed; [|exfalso; apply Hchanged in Hne; discriminate].
    rewrite last_cons. split; reflexivity.
Qed.

Lemma update_file_data_spec sys now send_ok force self bl :
  get_backlight_percentage_internal
    (backlight_brightness_file sys) (backlight_max_brightness_file sys) = Py.Ok bl ->
  let i := file_input sys force now self bl in
  let stored := set_current_data
                  (if refreshes force now self
                   then set_last_battery_update self now else self)
                  (merge (current_data self) i) in
  let read := if refreshes force now self then [BatteryRead] else [] in
  update_file_data_and_notify sys now send_ok force self
  = Py.Ok (if snapshot_eq_dec (merge (current_data self) i) (current_data self)
           then (stored, read)
           else (fst (notify_clients send_ok stored),
                 (read ++ snd (notify_clients send_ok stored))%list)).
Proof.
  intros Hbl. unfold update_file_data_and_notify, file_input, refreshes.
  rewrite Hbl. simpl Py.bind.
  destruct (force || Qle_bool 30 (now - last_battery_update self)).
  - destruct (get_battery_info_internal (battery_files sys)) as [[b c] t].
    pose proof (store_file_data_spec (current_data self) b c t bl) as Hs.
    simpl current_data in *.
    destruct (store_file_data (current_data self) b c t bl) as [d changed].
    destruct Hs as [-> Hchanged]. cbv zeta.
    destruct (snapshot_eq_dec _ _) as [Heq | Hne].
    + destruct changed; [exfalso; now apply (proj1 Hchanged)|]. reflexivity.
    + destruct changed; [|exfalso; apply Hchanged in Hne; discriminate].
      now destruct (notify_clients _ _).
  - pose proof (store_file_data_spec (current_data self)
                  (battery_percentage (current_data self))
                  (is_charging (current_data self))
                  (battery_time_remaining (current_data self)) bl) as Hs.
    destruct (store_file_data _ _ _ _ _) as [d changed].
    destruct Hs as [-> Hchanged]. cbv zeta.
    destruct (snapshot_eq_dec _ _) as [Heq | Hne].
    + destruct changed; [exfalso; now apply (proj1 Hchanged)|]. reflexivity.
    + destruct changed; [|exfalso; apply Hchanged in Hne; discriminate].
      now destruct (notify_clients _ _).
Qed.

Lemma audio_state_changed_spec audio send_ok self :
  let stored := set_current_data self
                  (merge (current_data self) (AudioData audio)) in
  _on_audio_state_changed (Some audio) send_ok self
  = if snapshot_eq_dec (merge (current_data self) (AudioData audio))
         (current_data self)
    then (self, [])
    else notify_clients send_ok stored.
Proof.
  unfold _on_audio_state_changed.
  pose proof (store_audio_data_spec (current_data self) audio) as Hs.
  destruct (store_audio_data (current_data self) audio) as [d changed].
  destruct Hs as [-> Hchanged]. cbv zeta.
  destruct (snapshot_eq_dec _ _) as [Heq | Hne].
  - destruct changed; [exfalso; now apply (proj1 Hchanged)|].
    rewrite Heq. now destruct self.
  - destruct changed; [|exfalso; apply Hchanged in Hne; discriminate].
    reflexivity.
Qed.

Lemma notify_sends_only send_ok self :
  ~ In BatteryRead (snd (notify_clients send_ok self)).
Proof.
  rewrite combined_notify_spec. simpl. intros H.
  apply in_app_or in H. destruct H as [H | H]; apply in_map_iff in H;
    destruct H as [c [Hc _]]; discriminate.
Qed.

End StateStore.

Section StateStoreTheorem.
Import Io Combined.

(** C1.  [apply] on the state store of the combined service: the fields
    the input specifies are replaced, the others keep their value, and the
    flag that triggers the broadcast is set exactly when the merged
    snapshot differs from the stored one.  Over any sequence of inputs the
    broadcasts are the inputs that differed from the value stored when
    they came, and the stored snapshot at the end is the last of them.
    The two adapters are that store: the audio callback, and every call of
    the file update, forced or not, within the 30 seconds or after them,
    store the merged snapshot and broadcast it to the clients exactly
    when it differs from the stored one; an input identical to the stored
    snapshot stores the same snapshot, sends nothing and drops no client.
    When the backlight computation raises, nothing is stored or sent. *)
Theorem state_store_apply :
  (forall d i,
     let '(d', data_changed) := Combined.apply d i in
     d' = merge d i /\ (data_changed = true <-> merge d i <> d))
  /\ (forall d inputs,
        let '(final, broadcasts) := apply_all d inputs in
        broadcasts = differing d inputs
        /\ final = last (differing d inputs) d)
  /\ (forall d i, merge d i = d -> apply_all d [i] = (d, []))
  /\ (forall audio send_ok self,
        _on_audio_state_changed (Some audio) send_ok self
        = if snapshot_eq_dec (merge (current_data self) (AudioData audio))
               (current_data self)
          then (self, [])
          else notify_clients send_ok
                 (set_current_data self
                    (merge (current_data self) (AudioData audio))))
  /\ (forall sys now send_ok self bl,
        get_backlight_percentage_internal
          (backlight_brightness_file sys) (backlight_max_brightness_file sys)
        = Py.Ok bl ->
        refreshes false now self = false ->
        update_file_data_and_notify sys now send_ok false self
        = Py.Ok (if snapshot_eq_dec
                      (set_backlight_percentage (current_data self) bl)
                      (current_data self)
                 then (self, [])
                 else notify_clients send_ok
                        (set_current_data self
                           (set_backlight_percentage (current_data self) bl))))
  /\ (forall sys now send_ok force self bl,
        get_backlight_percentage_internal
          (backlight_brightness_file sys) (backlight_max_brightness_file sys)
        = Py.Ok bl ->
        let i := file_input sys force now self bl in
        let stored := set_current_data
                        (if refreshes force now self
                         then set_last_battery_update self now else self)
                        (merge (current_data self) i) in
        let read := if refreshes force now self then [BatteryRead] else [] in
        update_file_data_and_notify sys now send_ok force self
        = Py.Ok (if snapshot_eq_dec (merge (current_data self) i) (current_data self)
                 then (stored, read)
                 else (fst (notify_clients send_ok stored),
                       (read ++ snd (notify_clients send_ok stored))%list)))
  /\ (forall sys now send_ok force self bl,
        get_backlight_percentage_internal
          (backlight_brightness_file sys) (backlight_max_brightness_file sys)
        = Py.Ok bl ->
        let i := file_input sys force now self bl in
        let read := if refreshes force now self then [BatteryRead] else [] in
        exists self' effects,
          update_file_data_and_notify sys now send_ok force self
          = Py.Ok (self', effects)
          /\ current_data self' = merge (current_data self) i
          /\ (merge (current_data self) i = current_data self ->
              effects = read
              /\ current_data self' = current_data self
              /\ clients self' = clients self)
          /\ (merge (current_data self) i <> current_data self ->
              effects
              = (read
                 ++ map (fun c => Sent c (dumps (merge (current_data self) i)
                                          ++ Json.LF))
                      (filter send_ok (clients self))
                 ++ map Closed (filter (send_fails send_ok) (clients self)))%list
              /\ clients self' = filter send_ok (clients self)))
  /\ (forall audio send_ok self,
        let i := AudioData audio in
        exists self' effects,
          _on_audio_state_changed (Some audio) send_ok self = (self', effects)
          /\ current_data self' = merge (current_data self) i
          /\ (merge (current_data self) i = current_data self ->
              effects = [] /\ self' = self)
          /\ (merge (current_data self) i <> current_data self ->
              effects
              = (map (fun c => Sent c (dumps (merge (current_data self) i)
                                       ++ Json.LF))
                   (filter send_ok (clients self))
                 ++ map Closed (filter (send_fails send_ok) (clients self)))%list
              /\ clients self' = filter send_ok (clients self)))
  /\ (forall sys now send_ok force self e,
        get_backlight_percentage_internal
          (backlight_brightness_file sys) (backlight_max_brightness_file sys)
        = Py.Raise e ->
        update_file_data_and_notify sys now send_ok force self = Py.Raise e).
Proof.
  split; [exact apply_spec|]. split; [intros d inputs; apply apply_all_spec|].
  split; [|split; [|split; [|split; [|split; [|split]]]]].
  - intros d i Hsame. pose proof (apply_all_spec [i] d) as H.
    destruct (apply_all d [i]) as [final broadcasts]. destruct H as [-> ->].
    simpl. rewrite Hsame. now destruct (snapshot_eq_dec d d).
  - intros audio send_ok self. apply audio_state_changed_spec.
  - intros sys now send_ok self bl Hbl Hwin.
    rewrite (update_file_data_spec sys now send_ok false self bl Hbl).
    unfold file_input. rewrite Hwin.
    assert (Hmerge : merge (current_data self)
                       (FileData (battery_percentage (current_data self))
                          (is_charging (current_data self))
                          (battery_time_remaining (current_data self)) bl)
                     = set_backlight_percentage (current_data self) bl)
      by reflexivity.
    rewrite Hmerge.
    destruct (snapshot_eq_dec _ _) as [Heq | Hne].
    + rewrite Heq. now destruct self.
    + now destruct (notify_clients _ _).
  - intros sys now send_ok force self bl Hbl.
    exact (update_file_data_spec sys now send_ok force self bl Hbl).
  - intros sys now send_ok force self bl Hbl i read.
    rewrite (update_file_data_spec sys now send_ok force self bl Hbl).
    fold i. fold read. rewrite combined_notify_spec.
    assert (Hclients : clients (if refreshes force now self
                                then set_last_battery_update self now else self)
                       = clients self)
      by (now destruct (refreshes force now self)).
    cbn [fst snd set_clients set_current_data current_data clients].
    rewrite Hclients.
    destruct (snapshot_eq_dec (merge (current_data self) i) (current_data self))
      as [Heq | Hne]; eexists; eexists; (split; [reflexivity|]).
    + cbn [current_data clients]. split; [reflexivity|].
      split; [|intros Hne; now elim Hne].
      intros _. split; [reflexivity|]. split; [exact Heq | exact Hclients].
    + cbn [current_data clients]. split; [reflexivity|].
      split; [intros Heq; now elim Hne|].
      intros _. split; reflexivity.
  - intros audio send_ok self i. rewrite audio_state_changed_spec. fold i.
    rewrite combined_notify_spec.
    destruct (snapshot_eq_dec (merge (current_data self) i) (current_data self))
      as [Heq | Hne]; eexists; eexists; (split; [reflexivity|]).
    + split; [now rewrite Heq|]. split; [|intros Hne; now elim Hne].
      intros _. split; reflexivity.
    + cbn [fst snd set_clients set_current_data current_data clients].
      split; [reflexivity|]. split; [intros Heq; now elim Hne|].
      intros _. split; reflexivity.
  - intros sys now send_ok force self e H.
    unfold update_file_data_and_notify. now rewrite H.
Qed.

Lemma state_store_apply_witness :
  let d := {| battery_percentage := Some 80; is_charging := false;
              battery_time_remaining := Some 5400;
              backlight_percentage := Some 50; volume_percentage := Some 70;
              speaker_muted := Some false; mic_muted := None |} in
  let i := FileData (Some 80) false (Some 5400) (Some 50) in
  let sys := {| battery_files := fun _ => NoPath;
                backlight_brightness_file := Content "50";
                backlight_max_brightness_file := Content "100" |} in
  let self := {| current_data := d; clients := [1%nat];
                 last_battery_update := 100%Q |} in
  (merge d i = d /\ apply_all d [i] = (d, []))
  /\ update_file_data_and_notify sys 110%Q (fun _ => true) false self
     = Py.Ok (self, [])
  /\ exists self' effects,
       update_file_data_and_notify sys 110%Q (fun _ => true) true self
       = Py.Ok (self', effects)
       /\ current_data self'
          = merge d (file_input sys true 110%Q self (Some 50)).
Proof.
  intros d i sys self. split; [split; [reflexivity|]|split].
  - exact (proj1 (proj2 (proj2 state_store_apply)) d i eq_refl).
  - exact (proj1 (proj2 (proj2 (proj2 (proj2 state_store_apply)))) sys 110%Q
             (fun _ => true) self (Some 50) eq_refl eq_refl).
  - destruct (proj1 (proj2 (proj2 (proj2 (proj2 (proj2 (proj2 state_store_apply))))))
                sys 110%Q (fun _ => true) true self (Some 50) eq_refl)
      as [self' [effects [Hrun [Hstored _]]]].
    exists self', effects. split; [exact Hrun | exact Hstored].
Defined.

End StateStoreTheorem.

(** ** C8: the refresh window of the battery *)

Section RateLimit.
Import Io Combined.

Lemma within_window now self :
  (now - last_battery_update self < 30)%Q -> refreshes false now self = false.
Proof.
  intros Hlt. unfold refreshes. simpl.
  destruct (Qle_bool 30 (now - last_battery_update self)) eqn:Hle; [|reflexivity].
  apply Qle_bool_iff in Hle. exfalso. exact (Qle_not_lt _ _ Hle Hlt).
Qed.

Lemma notify_keeps_state send_ok self :
  current_data (fst (notify_clients send_ok self)) = current_data self
  /\ last_battery_update (fst (notify_clients send_ok self))
     = last_battery_update self.
Proof. rewrite combined_notify_spec. split; reflexivity. Qed.

Lemma update_unforced sys now send_ok self bl :
  get_backlight_percentage_internal
    (backlight_brightness_file sys) (backlight_max_brightness_file sys) = Py.Ok bl ->
  (now - last_battery_update self < 30)%Q ->
  exists self' effects,
    update_file_data_and_notify sys now send_ok false self = Py.Ok (self', effects)
    /\ ~ In BatteryRead effects
    /\ battery_fields (current_data self') = battery_fields (current_data self)
    /\ backlight_percentage (current_data self') = bl
    /\ last_battery_update self' = last_battery_update self.
Proof.
  intros Hbl Hlt. apply within_window in Hlt.
  rewrite (update_file_data_spec sys now send_ok false self bl Hbl).
  unfold file_input. rewrite Hlt.
  destruct (snapshot_eq_dec _ _) as [Heq | Hne]; eexists; eexists;
    (split; [reflexivity|]).
  - simpl. repeat split; tauto.
  - destruct (notify_keeps_state send_ok
                (set_current_data self
                   (merge (current_data self)
                      (FileData (battery_percentage (current_data self))
                         (is_charging (current_data self))
                         (battery_time_remaining (current_data self)) bl))))
      as [Hd Hl].
    rewrite Hd, Hl. simpl. repeat split. apply notify_sends_only.
Qed.

Lemma update_forced sys now send_ok self bl :
  get_backlight_percentage_internal
    (backlight_brightness_file sys) (backlight_max_brightness_file sys) = Py.Ok bl ->
  exists self' effects,
    update_file_data_and_notify sys now send_ok true self
    = Py.Ok (self', BatteryRead :: effects)
    /\ battery_fields (current_data self')
       = get_battery_info_internal (battery_files sys)
    /\ backlight_percentage (current_data self') = bl
    /\ last_battery_update self' = now.
Proof.
  intros Hbl.
  rewrite (update_file_data_spec sys now send_ok true self bl Hbl).
  unfold file_input, refreshes. simpl orb. cbv iota.
  destruct (get_battery_info_internal (battery_files sys)) as [[b c] t].
  destruct (snapshot_eq_dec _ _) as [Heq | Hne]; eexists; eexists;
    (split; [reflexivity|]).
  - simpl. repeat split.
  - match goal with
    | |- context [notify_clients send_ok ?s] =>
        destruct (notify_keeps_state send_ok s) as [Hd Hl]
    end.
    rewrite Hd, Hl. simpl. repeat split.
Qed.

(** When the backlight computation raises, the update raises with it:
    nothing is read from the battery, nothing is stored or sent. *)
Lemma update_raises sys now send_ok force self e :
  get_backlight_percentage_internal
    (backlight_brightness_file sys) (backlight_max_brightness_file sys) = Py.Raise e ->
  update_file_data_and_notify sys now send_ok force self = Py.Raise e.
Proof. intros H. unfold update_file_data_and_notify. now rewrite H. Qed.

(** C8.  When the backlight can be computed: an update that is not forced
    and comes less than 30 seconds after the last refresh of the battery
    reads no battery file and keeps the three battery fields as stored,
    while the backlight takes the value just computed; a forced update
    reads the battery files at once, whatever the time, and stamps the
    refresh; two updates in a row within the window read no battery
    file. *)
Theorem battery_refresh_window :
  forall sys now send_ok self bl,
    get_backlight_percentage_internal
      (backlight_brightness_file sys) (backlight_max_brightness_file sys)
    = Py.Ok bl ->
    ((now - last_battery_update self < 30)%Q ->
     exists self' effects,
       update_file_data_and_notify sys now send_ok false self
       = Py.Ok (self', effects)
       /\ ~ In BatteryRead effects
       /\ battery_fields (current_data self') = battery_fields (current_data self)
       /\ backlight_percentage (current_data self') = bl
       /\ last_battery_update self' = last_battery_update self)
    /\ (exists self' effects,
          update_file_data_and_notify sys now send_ok true self
          = Py.Ok (self', BatteryRead :: effects)
          /\ battery_fields (current_data self')
             = get_battery_info_internal (battery_files sys)
          /\ backlight_percentage (current_data self') = bl
          /\ last_battery_update self' = now)
    /\ (forall sys2 now2 send_ok2 bl2,
          get_backlight_percentage_internal
            (backlight_brightness_file sys2) (backlight_max_brightness_file sys2)
          = Py.Ok bl2 ->
          (now - last_battery_update self < 30)%Q ->
          (now2 - last_battery_update self < 30)%Q ->
          exists s1 e1 s2 e2,
            update_file_data_and_notify sys now send_ok false self = Py.Ok (s1, e1)
            /\ update_file_data_and_notify sys2 now2 send_ok2 false s1
               = Py.Ok (s2, e2)
            /\ ~ In BatteryRead (e1 ++ e2)%list
            /\ battery_fields (current_data s2) = battery_fields (current_data self)
            /\ backlight_percentage (current_data s2) = bl2).
Proof.
  intros sys now send_ok self bl Hbl. split; [|split].
  - now apply update_unforced.
  - now apply update_forced.
  - intros sys2 now2 send_ok2 bl2 Hbl2 Hlt Hlt2.
    destruct (update_unforced sys now send_ok self bl Hbl Hlt)
      as [s1 [e1 [H1 [Hno1 [Hbat1 [_ Hlast1]]]]]].
    rewrite <- Hlast1 in Hlt2.
    destruct (update_unforced sys2 now2 send_ok2 s1 bl2 Hbl2 Hlt2)
      as [s2 [e2 [H2 [Hno2 [Hbat2 [Hbk2 _]]]]]].
    exists s1, e1, s2, e2. repeat split; try assumption.
    + intros Hin. apply in_app_or in Hin. tauto.
    + congruence.
Qed.

End RateLimit.

Section RateLimitWitness.
Import Io Combined.

Lemma battery_refresh_window_witness :
  let sys := {| battery_files := fun _ => NoPath;
                backlight_brightness_file := Content "50";
                backlight_max_brightness_file := Content "100" |} in
  let sys2 := {| battery_files := fun _ => NoPath;
                 backlight_brightness_file := Content "60";
                 backlight_max_brightness_file := Content "100" |} in
  let self := {| current_data :=
                   {| battery_percentage := Some 80; is_charging := false;
                      battery_time_remaining := Some 5400;
                      backlight_percentage := Some 40;
                      volume_percentage := Some 70;
                      speaker_muted := Some false; mic_muted := Some false |};
                 clients := [1%nat];
                 last_battery_update := 100%Q |} in
  get_backlight_percentage_internal (Content "50") (Content "100")
  = Py.Ok (Some 50)
  /\ (110 - 100 < 30)%Q
  /\ (exists self' effects,
        update_file_data_and_notify sys 110%Q (fun _ => true) false self
        = Py.Ok (self', effects)
        /\ ~ In BatteryRead effects
        /\ battery_fields (current_data self') = battery_fields (current_data self)
        /\ backlight_percentage (current_data self') = Some 50
        /\ last_battery_update self' = last_battery_update self)
  /\ (exists s1 e1 s2 e2,
        update_file_data_and_notify sys 110%Q (fun _ => true) false self
        = Py.Ok (s1, e1)
        /\ update_file_data_and_notify sys2 120%Q (fun _ => true) false s1
           = Py.Ok (s2, e2)
        /\ ~ In BatteryRead (e1 ++ e2)%list
        /\ battery_fields (current_data s2) = battery_fields (current_data self)
        /\ backlight_percentage (current_data s2) = Some 60).
Proof.
  intros sys sys2 self. split; [reflexivity|]. split; [reflexivity|].
  destruct (battery_refresh_window sys 110%Q (fun _ => true) self (Some 50)
              eq_refl) as [Hfirst [_ Htwo]].
  split; [exact (Hfirst eq_refl)|].
  exact (Htwo sys2 120%Q (fun _ => true) (Some 60) eq_refl eq_refl eq_refl).
Defined.

End RateLimitWitness.

(** ** The floats of the discharge time

    [int((energy_now / power_now) * 3600)] goes through two roundings to
    53 bits, of the quotient and of the product.  What follows bounds
    them, on the Standard Library's specification of the floats. *)

(** *** Binary digits *)
Section Digits.

Lemma digits2_bounds p :
  2 ^ (Zpos (digits2_pos p) - 1) <= Zpos p < 2 ^ Zpos (digits2_pos p).
Proof.
  induction p as [p IH | p IH |]; simpl digits2_pos.
  - rewrite Pos2Z.inj_succ.
    replace (Z.succ (Zpos (digits2_pos p)) - 1) with (Z.succ (Zpos (digits2_pos p) - 1)) by lia.
    rewrite !Z.pow_succ_r by lia. lia.
  - rewrite Pos2Z.inj_succ.
    replace (Z.succ (Zpos (digits2_pos p)) - 1) with (Z.succ (Zpos (digits2_pos p) - 1)) by lia.
    rewrite !Z.pow_succ_r by lia. lia.
  - simpl. lia.
Qed.

Lemma digits2_unique p k :
  2 ^ (k - 1) <= Zpos p < 2 ^ k -> Zpos (digits2_pos p) = k.
Proof.
  intros [Hlow Hhigh]. pose proof (digits2_bounds p) as [Hl Hh].
  assert (Hk : 0 < k).
  { destruct (Z.ltb_spec 0 k) as [H|H]; [exact H|].
    assert (2 ^ k <= 1).
    { destruct (Z.eq_dec k 0) as [->|]; [simpl; lia|].
      rewrite Z.pow_neg_r by lia. lia. }
    lia. }
  destruct (Z.lt_trichotomy (Zpos (digits2_pos p)) k) as [H | [H | H]]; [|exact H|].
  - assert (2 ^ Zpos (digits2_pos p) <= 2 ^ (k - 1))
      by (apply Z.pow_le_mono_r; lia).
    lia.
  - assert (2 ^ k <= 2 ^ (Zpos (digits2_pos p) - 1))
      by (apply Z.pow_le_mono_r; lia).
    lia.
Qed.

Lemma Zdigits2_unique m k :
  2 ^ (k - 1) <= m < 2 ^ k -> 0 < m -> Zdigits2 m = k.
Proof.
  intros H Hm. destruct m as [|p|p]; try lia. simpl. now apply digits2_unique.
Qed.

End Digits.

(** *** Shifting a mantissa to the right *)
Section Shift.
Import Rounding.

Lemma shr_1_m r : 0 <= shr_m r -> shr_m (shr_1 r) = shr_m r / 2.
Proof.
  destruct r as [[|[p|p|]|p] rr ss]; cbn [shr_1 shr_m]; intros H; try lia.
  - reflexivity.
  - rewrite (Pos2Z.inj_xI p). Z.to_euclidean_division_equations. lia.
  - rewrite (Pos2Z.inj_xO p). Z.to_euclidean_division_equations. lia.
  - reflexivity.
Qed.

Lemma shr_1_clean r :
  0 <= shr_m r -> no_bits_lost r -> shr_m r mod 2 = 0 -> no_bits_lost (shr_1 r).
Proof.
  destruct r as [[|[p|p|]|p] rr ss]; cbn [shr_1 shr_m]; intros H [Hr Hs] Heven;
    cbn [shr_r shr_s] in Hr, Hs; subst; try lia; try (split; reflexivity).
  - rewrite (Pos2Z.inj_xI p) in Heven. Z.to_euclidean_division_equations. lia.
  - discriminate.
Qed.

Lemma mod_mul_zero m a b :
  0 < a -> 0 < b -> m mod (a * b) = 0 -> m mod a = 0 /\ (m / a) mod b = 0.
Proof.
  intros Ha Hb H. apply Z.mod_divide in H; [|lia]. destruct H as [k ->].
  split.
  - apply Z.mod_divide; [lia|]. exists (k * b). lia.
  - replace (k * (a * b)) with (k * b * a) by lia. rewrite Z.div_mul by lia.
    apply Z.mod_divide; [lia|]. now exists k.
Qed.

Lemma iter_shr p :
  forall r,
    0 <= shr_m r ->
    shr_m (SpecFloat.iter_pos shr_1 p r) = shr_m r / 2 ^ Zpos p
    /\ (no_bits_lost r -> shr_m r mod 2 ^ Zpos p = 0 -> no_bits_lost (SpecFloat.iter_pos shr_1 p r)).
Proof.
  induction p as [p IH | p IH |]; intros r Hr; cbn [SpecFloat.iter_pos].
  - assert (Hpow : 2 ^ Zpos p~1 = 2 * (2 ^ Zpos p * 2 ^ Zpos p)).
    { replace (Zpos p~1) with (1 + (Zpos p + Zpos p)) by lia.
      rewrite !Z.pow_add_r by lia. reflexivity. }
    assert (Hp : 0 < 2 ^ Zpos p) by (apply Z.pow_pos_nonneg; lia).
    assert (H1 : 0 <= shr_m (shr_1 r))
      by (rewrite shr_1_m by assumption; apply Z.div_pos; lia).
    destruct (IH (shr_1 r) H1) as [Hm1 Hc1].
    assert (H2 : 0 <= shr_m (SpecFloat.iter_pos shr_1 p (shr_1 r)))
      by (rewrite Hm1; apply Z.div_pos; lia).
    destruct (IH _ H2) as [Hm2 Hc2].
    split.
    + rewrite Hm2, Hm1, shr_1_m, Hpow by assumption.
      rewrite !Z.div_div by lia. reflexivity.
    + intros Hclean Hmod. rewrite Hpow in Hmod.
      apply mod_mul_zero in Hmod; [|lia|lia]. destruct Hmod as [Heven Hmod].
      apply mod_mul_zero in Hmod; [|lia|lia]. destruct Hmod as [Hmod1 Hmod2].
      apply Hc2.
      * apply Hc1; [now apply shr_1_clean|]. now rewrite shr_1_m.
      * rewrite Hm1, shr_1_m by assumption. exact Hmod2.
  - assert (Hpow : 2 ^ Zpos p~0 = 2 ^ Zpos p * 2 ^ Zpos p).
    { replace (Zpos p~0) with (Zpos p + Zpos p) by lia.
      rewrite Z.pow_add_r by lia. reflexivity. }
    assert (Hp : 0 < 2 ^ Zpos p) by (apply Z.pow_pos_nonneg; lia).
    destruct (IH r Hr) as [Hm1 Hc1].
    assert (H2 : 0 <= shr_m (SpecFloat.iter_pos shr_1 p r))
      by (rewrite Hm1; apply Z.div_pos; lia).
    destruct (IH _ H2) as [Hm2 Hc2].
    split.
    + rewrite Hm2, Hm1, Hpow. rewrite Z.div_div by lia. reflexivity.
    + intros Hclean Hmod. rewrite Hpow in Hmod.
      apply mod_mul_zero in Hmod; [|lia|lia]. destruct Hmod as [Hmod1 Hmod2].
      apply Hc2; [now apply Hc1|]. now rewrite Hm1.
  - split; [now rewrite shr_1_m|]. intros Hclean Hmod.
    now apply shr_1_clean.
Qed.

(** [shr] by [n] bits, for any [n] that is not negative. *)
Lemma shr_spec r e n :
  0 <= shr_m r -> 0 <= n ->
  shr_m (fst (shr r e n)) = shr_m r / 2 ^ n
  /\ snd (shr r e n) = e + n
  /\ (no_bits_lost r -> shr_m r mod 2 ^ n = 0 -> no_bits_lost (fst (shr r e n))).
Proof.
  intros Hr Hn. destruct n as [|p|p]; [| |lia].
  - simpl. rewrite Z.div_1_r. split; [reflexivity|]. split; [lia|]. auto.
  - simpl. destruct (iter_shr p r Hr) as [Hm Hc]. split; [exact Hm|].
    split; [reflexivity | exact Hc].
Qed.

End Shift.

(** *** Rounding to 53 bits *)
Section Round.
Import Py Rounding.

Lemma fexp_normal e :
  -1074 <= e - 53 -> fexp prec emax e = e - 53.
Proof. intros H. unfold fexp, emin, prec, emax. lia. Qed.

Lemma record_of_loc_m m l : shr_m (shr_record_of_loc m l) = m.
Proof. now destruct l as [|[]]. Qed.

Lemma record_of_loc_clean m : no_bits_lost (shr_record_of_loc m loc_Exact).
Proof. split; reflexivity. Qed.

Lemma round_nearest_even_near r :
  let m := round_nearest_even (shr_m r) (loc_of_shr_record r) in
  (m = shr_m r \/ (m = shr_m r + 1 /\ ~ no_bits_lost r)) /\ (no_bits_lost r -> m = shr_m r).
Proof.
  destruct r as [m [] []]; cbn [shr_m loc_of_shr_record round_nearest_even].
  - split; [right; split; [reflexivity | intros [H _]; discriminate]
           | intros [H _]; discriminate].
  - destruct (Z.even m).
    + split; [now left | reflexivity].
    + split; [right; split; [reflexivity | intros [H _]; discriminate]
             | intros [H _]; discriminate].
  - split; [now left | reflexivity].
  - split; [now left | reflexivity].
Qed.

Lemma pow2_pos k : 0 <= k -> 0 < 2 ^ k.
Proof. intros H. apply Z.pow_pos_nonneg; lia. Qed.

(** A mantissa of [d >= 53] bits is cut to its first 53 bits [a], and
    rounded to [a] or to [a + 1]; to [a] when nothing is cut off. *)
Lemma round_aux mx ex lx d :
  0 < mx -> Zdigits2 mx = d -> 53 <= d ->
  -1074 <= ex + d - 53 -> ex + d - 53 + 1 <= 971 ->
  let n := d - 53 in
  let a := mx / 2 ^ n in
  2 ^ 52 <= a < 2 ^ 53
  /\ exists m' e',
       binary_round_aux prec emax false mx ex lx = S754_finite false m' e'
       /\ 2 ^ 52 <= Zpos m' < 2 ^ 53
       /\ ((Zpos m' = a /\ e' = ex + n)
           \/ (Zpos m' = a + 1 /\ e' = ex + n)
           \/ (a + 1 = 2 ^ 53 /\ Zpos m' = 2 ^ 52 /\ e' = ex + n + 1))
       /\ (lx = loc_Exact -> mx mod 2 ^ n = 0 -> Zpos m' = a /\ e' = ex + n).
Proof.
  intros Hmx Hd Hd53 Hlow Hhigh n a.
  assert (Hn : 0 <= n) by (unfold n; lia).
  assert (Hpn : 0 < 2 ^ n) by (now apply pow2_pos).
  assert (Ha : 2 ^ 52 <= a < 2 ^ 53).
  { destruct mx as [|p|p]; try lia. simpl in Hd.
    pose proof (digits2_bounds p) as [Hl Hh]. rewrite Hd in Hl, Hh.
    assert (E1 : 2 ^ (d - 1) = 2 ^ 52 * 2 ^ n).
    { rewrite <- Z.pow_add_r by lia. f_equal. unfold n. lia. }
    assert (E2 : 2 ^ d = 2 ^ 53 * 2 ^ n).
    { rewrite <- Z.pow_add_r by lia. f_equal. unfold n. lia. }
    unfold a. split.
    - apply Z.div_le_lower_bound; lia.
    - apply Z.div_lt_upper_bound; lia. }
  split; [exact Ha|].
  unfold binary_round_aux, shr_fexp.
  rewrite Hd, (fexp_normal (d + ex)) by lia.
  replace (d + ex - 53 - ex) with n by (unfold n; lia).
  pose proof (shr_spec (shr_record_of_loc mx lx) ex n) as Hshr.
  rewrite record_of_loc_m in Hshr. specialize (Hshr (Z.lt_le_incl _ _ Hmx) Hn).
  destruct (shr (shr_record_of_loc mx lx) ex n) as [r1 e1].
  cbn [fst snd] in Hshr. destruct Hshr as [Hm1 [He1 Hclean1]]. fold a in Hm1.
  pose proof (round_nearest_even_near r1) as Hround. cbv zeta in Hround.
  rewrite Hm1 in Hround. rewrite Hm1.
  set (mr := round_nearest_even a (loc_of_shr_record r1)) in *.
  destruct Hround as [Hnear Hexact].
  assert (Hmr : 2 ^ 52 <= mr <= 2 ^ 53) by lia.
  destruct (Z.eq_dec mr (2 ^ 53)) as [Htop | Htop].
  - (* the rounding has gone up to 2^53 *)
    assert (Hdig : Zdigits2 mr = 54).
    { apply Zdigits2_unique; [|lia]. rewrite Htop. simpl. lia. }
    rewrite Hdig, (fexp_normal (54 + e1)) by lia.
    replace (54 + e1 - 53 - e1) with 1 by lia.
    rewrite Htop. cbn [shr_record_of_loc shr SpecFloat.iter_pos].
    change (shr_1 {| shr_m := 2 ^ 53; shr_r := false; shr_s := false |})
      with {| shr_m := 2 ^ 52; shr_r := false; shr_s := false |}.
    cbn [shr_m]. change (2 ^ 52) with (Zpos (Z.to_pos (2 ^ 52))).
    replace (e1 + 1 <=? emax - prec) with true
      by (symmetry; apply Z.leb_le; unfold emax, prec; lia).
    eexists. eexists. split; [reflexivity|].
    split; [simpl; lia|]. split.
    + right. right. split; [lia|]. split; [reflexivity | lia].
    + intros Hl Hmod. exfalso. subst lx.
      specialize (Hexact (Hclean1 (record_of_loc_clean mx) Hmod)). lia.
  - assert (Hdig : Zdigits2 mr = 53).
    { apply Zdigits2_unique; [|lia]. simpl. simpl in Hmr. lia. }
    rewrite Hdig, (fexp_normal (53 + e1)) by lia.
    replace (53 + e1 - 53 - e1) with 0 by lia.
    cbn [shr]. rewrite record_of_loc_m.
    destruct mr as [|m'|m'] eqn:Emr; try (simpl in Hmr; lia).
    replace (e1 <=? emax - prec) with true
      by (symmetry; apply Z.leb_le; unfold emax, prec; lia).
    eexists. eexists. split; [reflexivity|].
    split; [simpl in Hmr |- *; lia|]. split.
    + destruct Hnear as [Hsame | [Hup _]]; [left | right; left]; split; lia.
    + intros Hl Hmod. subst lx.
      specialize (Hexact (Hclean1 (record_of_loc_clean mx) Hmod)). split; lia.
Qed.

End Round.

(** *** The quotient of two ints *)
Section Quotient.
Import Py Rounding.

Lemma Zdigits2_bounds m :
  0 < m -> 2 ^ (Zdigits2 m - 1) <= m < 2 ^ Zdigits2 m /\ 1 <= Zdigits2 m.
Proof.
  intros Hm. destruct m as [|p|p]; try lia. simpl. split; [apply digits2_bounds | lia].
Qed.

Lemma Zdigits2_le m k : 0 < m < 2 ^ k -> 0 <= k -> Zdigits2 m <= k.
Proof.
  intros [Hm Hk] Hk0. destruct (Zdigits2_bounds m Hm) as [[Hl _] H1].
  destruct (Z.le_gt_cases (Zdigits2 m) k) as [H|H]; [exact H|].
  assert (2 ^ k <= 2 ^ (Zdigits2 m - 1)) by (apply Z.pow_le_mono_r; lia). lia.
Qed.

Lemma new_location_exact nb_steps : new_location nb_steps 0 = loc_Exact.
Proof. unfold new_location. now destruct (Z.even nb_steps). Qed.

(** [E / P] for two positive ints: a float [m * 2^e] with 53 bits, at
    most one unit of its last place away from the quotient, and the
    quotient itself when [P] divides [E]. *)
Lemma truediv_pos E P :
  0 < E < 2 ^ 39 -> 0 < P < 2 ^ 64 ->
  exists m e,
    truediv E P = Ok (S754_finite false m e)
    /\ 2 ^ 52 <= Zpos m < 2 ^ 53
    /\ -116 <= e <= -13
    /\ Zpos m * P - P <= E * 2 ^ (- e) <= Zpos m * P + P
    /\ ((P | E) -> Zpos m * P = E * 2 ^ (- e)).
Proof.
  intros HE HP.
  destruct (Zdigits2_bounds E (proj1 HE)) as [[HEl HEh] Hd1].
  destruct (Zdigits2_bounds P (proj1 HP)) as [[HPl HPh] Hd2].
  pose proof (Zdigits2_le E 39 HE ltac:(lia)) as Hd1'.
  pose proof (Zdigits2_le P 64 HP ltac:(lia)) as Hd2'.
  set (d1 := Zdigits2 E) in *. set (d2 := Zdigits2 P) in *.
  set (s := 53 + d2 - d1).
  assert (Hs : 15 <= s <= 116) by (unfold s; lia).
  unfold truediv. replace (P =? 0) with false by (symmetry; apply Z.eqb_neq; lia).
  destruct E as [|pe|pe]; try lia. destruct P as [|pp|pp]; try lia.
  cbn [exact SFdiv xorb].
  unfold SFdiv_core_binary. fold d1. fold d2.
  rewrite (fexp_normal (d1 + 0 - (d2 + 0))) by lia.
  replace (Z.min (d1 + 0 - (d2 + 0) - 53) (0 - 0)) with (- s) by (unfold s; lia).
  replace (0 - 0 - - s) with s by lia.
  destruct s as [|ps|ps] eqn:Es; try lia. rewrite <- Es in *.
  change (IntDef.Z.div_eucl (IntDef.Z.shiftl (Zpos pe) s) (Zpos pp))
    with (Z.div_eucl (Z.shiftl (Zpos pe) s) (Zpos pp)).
  rewrite Z.shiftl_mul_pow2 by lia.
  pose proof (Z.div_eucl_eq (Zpos pe * 2 ^ s) (Zpos pp) ltac:(lia)) as Hdiv.
  pose proof (Z.mod_pos_bound (Zpos pe * 2 ^ s) (Zpos pp) ltac:(lia)) as Hrem.
  unfold Z.modulo in Hrem.
  assert (Hquot : fst (Z.div_eucl (Zpos pe * 2 ^ s) (Zpos pp))
                  = Zpos pe * 2 ^ s / Zpos pp) by reflexivity.
  destruct (Z.div_eucl (Zpos pe * 2 ^ s) (Zpos pp)) as [q r]. cbn [fst] in Hquot.
  assert (Hps : 0 < 2 ^ s) by (apply pow2_pos; lia).
  assert (Hq : 2 ^ 52 <= q < 2 ^ 54).
  { assert (E1 : 2 ^ (d1 - 1) * 2 ^ s = 2 ^ 52 * 2 ^ d2).
    { rewrite <- !Z.pow_add_r by lia. f_equal. unfold s in Es |- *. lia. }
    assert (E2 : 2 ^ d1 * 2 ^ s = 2 ^ 54 * 2 ^ (d2 - 1)).
    { rewrite <- !Z.pow_add_r by lia. f_equal. unfold s in Es |- *. lia. }
    assert (Zpos pe * 2 ^ s >= 2 ^ 52 * 2 ^ d2) by nia.
    assert (Zpos pe * 2 ^ s < 2 ^ 54 * 2 ^ (d2 - 1)) by nia.
    assert (0 < 2 ^ (d2 - 1)) by (apply pow2_pos; lia).
    split; nia. }
  set (d := Zdigits2 q).
  assert (Hd : d = 53 \/ d = 54).
  { destruct (Z.lt_ge_cases q (2 ^ 53)) as [H | H].
    - left. apply Zdigits2_unique; [simpl; simpl in H; lia | lia].
    - right. apply Zdigits2_unique; [simpl; simpl in H; lia | lia]. }
  destruct (round_aux q (- s) (new_location (Zpos pp) r) d ltac:(lia) eq_refl
              ltac:(lia) ltac:(lia) ltac:(lia))
    as [Ha [m [e [Hres [Hm [Hcases Hexact]]]]]].
  rewrite Hres. exists m, e. split; [reflexivity|]. split; [exact Hm|].
  set (n := d - 53) in *. set (a := q / 2 ^ n) in *.
  set (t := s - n).
  assert (Hn : n = 0 \/ n = 1) by (unfold n; lia).
  assert (Ht : 14 <= t <= 116) by (unfold t; lia).
  assert (Hpt : 0 < 2 ^ t) by (apply pow2_pos; lia).
  assert (Hst : 2 ^ s = 2 ^ t * 2 ^ n).
  { rewrite <- Z.pow_add_r by lia. f_equal. unfold t. lia. }
  assert (Hpn : 0 < 2 ^ n) by (apply pow2_pos; lia).
  assert (Haq : a = Zpos pe * 2 ^ t / Zpos pp).
  { unfold a. rewrite Hquot, Z.div_div by lia.
    rewrite Hst, Z.mul_assoc. rewrite Z.div_mul_cancel_r by lia. reflexivity. }
  assert (Hbracket : a * Zpos pp <= Zpos pe * 2 ^ t < a * Zpos pp + Zpos pp).
  { rewrite Haq.
    pose proof (Z.div_mod (Zpos pe * 2 ^ t) (Zpos pp) ltac:(lia)).
    pose proof (Z.mod_pos_bound (Zpos pe * 2 ^ t) (Zpos pp) ltac:(lia)). nia. }
  split; [|split].
  - destruct Hcases as [[_ ->] | [[_ ->] | [_ [_ ->]]]]; unfold t in Ht; lia.
  - destruct Hcases as [[Hma ->] | [[Hma ->] | [Htop [Hm52 ->]]]].
    + replace (- (- s + n)) with t by (unfold t; lia). rewrite Hma. lia.
    + replace (- (- s + n)) with t by (unfold t; lia). rewrite Hma. lia.
    + replace (- (- s + n + 1)) with (t - 1) by (unfold t; lia).
      assert (Ht1 : 2 ^ t = 2 * 2 ^ (t - 1)).
      { replace t with (1 + (t - 1)) at 1 by lia.
        rewrite Z.pow_add_r by lia. reflexivity. }
      rewrite Hm52. change (2 ^ 53) with (2 * 2 ^ 52) in Htop. nia.
  - intros Hdivides.
    assert (Hr : r = 0).
    { destruct Hdivides as [k Hk].
      assert (Hzero : (Zpos pe * 2 ^ s) mod Zpos pp = 0).
      { apply Z.mod_divide; [lia|]. exists (k * 2 ^ s). rewrite Hk. lia. }
      pose proof (Z.div_mod (Zpos pe * 2 ^ s) (Zpos pp) ltac:(lia)) as Hdm.
      rewrite Hzero, <- Hquot in Hdm. lia. }
    assert (Hqmod : q mod 2 ^ n = 0).
    { destruct Hn as [-> | ->]; [apply Z.mod_1_r|].
      apply Z.mod_divide; [lia|].
      destruct Hdivides as [k Hk]. exists (k * 2 ^ (s - 1)).
      assert (Hs1 : 2 ^ s = 2 * 2 ^ (s - 1)).
      { replace s with (1 + (s - 1)) at 1 by lia.
        rewrite Z.pow_add_r by lia. reflexivity. }
      change (2 ^ 1) with 2. subst r. rewrite Hk in Hdiv. nia. }
    subst r. destruct (Hexact (new_location_exact _) Hqmod) as [Hma ->].
    replace (- (- s + n)) with t by (unfold t; lia). rewrite Hma, Haq.
    destruct Hdivides as [k Hk]. rewrite Hk.
    replace (k * Zpos pp * 2 ^ t) with (k * 2 ^ t * Zpos pp) by lia.
    rewrite Z.div_mul by lia. lia.
Qed.

End Quotient.

(** *** Times 3600, and back to an int *)
Section Seconds.
Import Py Combined.

Lemma float_3600 :
  float_of_int 3600 = S754_finite false 7916483719987200 (-41).
Proof. reflexivity. Qed.

Lemma mul_3600 m e :
  2 ^ 52 <= Zpos m < 2 ^ 53 -> -116 <= e <= -13 ->
  exists m2 e2,
    mul_int (S754_finite false m e) 3600 = S754_finite false m2 e2
    /\ 2 ^ 52 <= Zpos m2 < 2 ^ 53
    /\ -106 <= e2 <= 0
    /\ Zpos m2 * 2 ^ (- e) - 2 ^ (- e) <= 3600 * Zpos m * 2 ^ (- e2)
       <= Zpos m2 * 2 ^ (- e) + 2 ^ (- e)
    /\ (forall w, 3600 * Zpos m = w * 2 ^ (- e) -> w < 2 ^ 53 ->
        Zpos m2 * 2 ^ (- e) = 3600 * Zpos m * 2 ^ (- e2)).
Proof.
  intros Hm He. unfold mul_int. rewrite float_3600. cbn [SFmul xorb].
  set (c := 7916483719987200).
  change (Zpos (m * 7916483719987200)) with (Zpos m * c).
  set (M := Zpos m * c).
  assert (Hc : c = 3600 * 2 ^ 41) by reflexivity.
  assert (HM : 2 ^ 104 < M < 2 ^ 106).
  { unfold M. change (2 ^ 104) with (2 ^ 52 * 2 ^ 52).
    change (2 ^ 106) with (2 ^ 53 * 2 ^ 53).
    assert (2 ^ 52 < c < 2 ^ 53) by (unfold c; simpl; lia). nia. }
  set (d := Zdigits2 M).
  assert (Hd : d = 105 \/ d = 106).
  { destruct (Z.lt_ge_cases M (2 ^ 105)) as [H | H].
    - left. apply Zdigits2_unique; [|lia]. change (105 - 1) with 104. lia.
    - right. apply Zdigits2_unique; [|lia]. change (106 - 1) with 105. lia. }
  destruct (round_aux M (e + -41) loc_Exact d ltac:(lia) eq_refl
              ltac:(lia) ltac:(lia) ltac:(lia))
    as [Ha [m2 [e2 [Hres [Hm2 [Hcases Hexact]]]]]].
  rewrite Hres. exists m2, e2. split; [reflexivity|]. split; [exact Hm2|].
  set (n := d - 53) in *. set (a := M / 2 ^ n) in *.
  set (u := 41 - e - n).
  assert (Hn : 52 <= n <= 53) by (unfold n; lia).
  assert (Hu : 1 <= u <= 105) by (unfold u; lia).
  set (A := 2 ^ (- e)).
  assert (HA : 0 < A) by (apply pow2_pos; lia).
  assert (Hpn : 0 < 2 ^ n) by (apply pow2_pos; lia).
  assert (Hpu : 0 < 2 ^ u) by (apply pow2_pos; lia).
  assert (Hsplit : 2 ^ n * 2 ^ u = 2 ^ 41 * A).
  { unfold A. rewrite <- !Z.pow_add_r by lia. f_equal. unfold u. lia. }
  assert (Hbracket : a * 2 ^ n <= M < a * 2 ^ n + 2 ^ n).
  { unfold a. pose proof (Z.div_mod M (2 ^ n) ltac:(lia)).
    pose proof (Z.mod_pos_bound M (2 ^ n) ltac:(lia)). nia. }
  assert (HMc : M * 2 ^ u = 3600 * Zpos m * 2 ^ u * 2 ^ 41).
  { unfold M. rewrite Hc. ring. }
  assert (Hscaled : a * A <= 3600 * Zpos m * 2 ^ u < a * A + A).
  { assert (H1 : a * (2 ^ 41 * A) <= 3600 * Zpos m * 2 ^ u * 2 ^ 41)
      by (rewrite <- Hsplit, <- HMc; nia).
    assert (H2 : 3600 * Zpos m * 2 ^ u * 2 ^ 41 < (a + 1) * (2 ^ 41 * A))
      by (rewrite <- Hsplit, <- HMc; nia).
    assert (0 < 2 ^ 41) by (simpl; lia). split; nia. }
  split; [|split].
  - destruct Hcases as [[_ ->] | [[_ ->] | [_ [_ ->]]]]; unfold u in Hu; lia.
  - destruct Hcases as [[Hma ->] | [[Hma ->] | [Htop [Hm52 ->]]]].
    + replace (- (e + -41 + n)) with u by (unfold u; lia). rewrite Hma. lia.
    + replace (- (e + -41 + n)) with u by (unfold u; lia). rewrite Hma. lia.
    + replace (- (e + -41 + n + 1)) with (u - 1) by (unfold u; lia).
      assert (Hu1 : 2 ^ u = 2 * 2 ^ (u - 1)).
      { replace u with (1 + (u - 1)) at 1 by lia.
        rewrite Z.pow_add_r by lia. reflexivity. }
      rewrite Hm52. change (2 ^ 53) with (2 * 2 ^ 52) in Htop. nia.
  - intros w Hw Hw53.
    assert (Hmod : M mod 2 ^ n = 0).
    { assert (HMw : M = w * (2 ^ 41 * A)) by (unfold M; rewrite Hc; nia).
      assert (Hdle : d <= 94 - e).
      { apply Zdigits2_le; [|lia]. split; [lia|].
        replace (94 - e) with (53 + (41 + - e)) by lia.
        rewrite !Z.pow_add_r by lia. fold A. rewrite HMw.
        apply Z.mul_lt_mono_pos_r; [|exact Hw53].
        apply Z.mul_pos_pos; [reflexivity | exact HA]. }
      apply Z.mod_divide; [lia|]. exists (w * 2 ^ (u)).
      rewrite HMw, <- Hsplit. ring. }
    destruct (Hexact eq_refl Hmod) as [Hma ->].
    replace (- (e + -41 + n)) with u by (unfold u; lia). rewrite Hma.
    assert (Hexactly : a * 2 ^ n = M).
    { unfold a. pose proof (Z.div_mod M (2 ^ n) ltac:(lia)) as Hdm.
      rewrite Hmod in Hdm. lia. }
    assert (H1 : a * (2 ^ 41 * A) = 3600 * Zpos m * 2 ^ u * 2 ^ 41)
      by (rewrite <- Hsplit, <- HMc, <- Hexactly; ring).
    fold A. assert (0 < 2 ^ 41) by (simpl; lia). nia.
Qed.

Lemma int_of_positive m e :
  e <= 0 -> int_of_float (S754_finite false m e) = Ok (Zpos m / 2 ^ (- e)).
Proof.
  intros He. cbn [int_of_float]. destruct (Z.leb_spec 0 e) as [H | H].
  - assert (e = 0) by lia. subst e. change (2 ^ 0) with 1.
    change (2 ^ (- 0)) with 1. now rewrite Z.mul_1_r, Z.div_1_r.
  - reflexivity.
Qed.


(** The two roundings together move the result by less than one part
    in [P] of a second. *)
Lemma rounded_close E P m A m2 B :
  0 < E -> 0 < P -> 3600 * E < 2 ^ 50 ->
  2 ^ 52 <= m -> 2 ^ 52 <= m2 -> 0 < A -> 0 < B ->
  m * P - P <= E * A <= m * P + P ->
  m2 * A - A <= 3600 * m * B <= m2 * A + A ->
  (3600 * E - 1) * (A * B) < m2 * (A * P) < (3600 * E + 1) * (A * B).
Proof.
  intros HE HP HN Hm Hm2 HA HB Hdiv Hmul.
  set (N := 3600 * E) in *.
  assert (H3 : 10800 * P < A).
  { assert (2 ^ 52 * P <= m * P) by nia.
    assert (N * A <= (2 ^ 50 - 1) * A) by nia.
    assert (3600 * (E * A) = N * A) by (unfold N; ring).
    change (2 ^ 52) with 4503599627370496 in *.
    change (2 ^ 50) with 1125899906842624 in *. nia. }
  assert (HmP : 3600 * m * P <= N * A + 3600 * P).
  { assert (3600 * (E * A) = N * A) by (unfold N; ring). nia. }
  assert (HmP' : N * A - 3600 * P <= 3600 * m * P).
  { assert (3600 * (E * A) = N * A) by (unfold N; ring). nia. }
  assert (H4 : 3 * P < B).
  { assert (2 ^ 52 * A <= m2 * A) by nia.
    assert (Hx : (2 ^ 52 - 1) * A * P <= 3600 * m * P * B) by nia.
    assert (Hy : 3600 * m * P * B <= (N * A + 3600 * P) * B) by nia.
    assert (Hz : (N * A + 3600 * P) * B < (2 ^ 50 * A) * B).
    { apply Z.mul_lt_mono_pos_r; [exact HB|].
      change (2 ^ 50) with 1125899906842624 in *. nia. }
    assert (Hw : (2 ^ 52 - 1) * P * A < 2 ^ 50 * B * A) by nia.
    assert (Hv : (2 ^ 52 - 1) * P < 2 ^ 50 * B)
      by (apply (Z.mul_lt_mono_pos_r A); [exact HA | exact Hw]).
    change (2 ^ 52) with 4503599627370496 in *.
    change (2 ^ 50) with 1125899906842624 in *. lia. }
  assert (Hkey : 3600 * P * B + A * P < A * B).
  { assert (10800 * P * B < A * B) by nia.
    assert (3 * P * A < B * A) by nia. nia. }
  split.
  - assert ((3600 * m * B - A) * P <= m2 * A * P) by nia.
    assert ((N * A - 3600 * P) * B <= (3600 * m * P) * B) by nia.
    nia.
  - assert (m2 * A * P <= (3600 * m * B + A) * P) by nia.
    assert ((3600 * m * P) * B <= (N * A + 3600 * P) * B) by nia.
    nia.
Qed.

(** So the result is the floor of the exact value, or one below it; and
    it is the floor unless the exact value is a whole number. *)
Lemma floor_of_rounded E P m A m2 B :
  0 < E -> 0 < P -> 3600 * E < 2 ^ 50 ->
  2 ^ 52 <= m -> 2 ^ 52 <= m2 -> 0 < A -> 0 < B ->
  m * P - P <= E * A <= m * P + P ->
  m2 * A - A <= 3600 * m * B <= m2 * A + A ->
  3600 * E / P - 1 <= m2 / B <= 3600 * E / P
  /\ ((3600 * E) mod P <> 0 -> m2 / B = 3600 * E / P).
Proof.
  intros HE HP HN Hm Hm2 HA HB Hdiv Hmul.
  pose proof (rounded_close E P m A m2 B HE HP HN Hm Hm2 HA HB Hdiv Hmul)
    as [Hdown Hup].
  set (N := 3600 * E) in *. set (k := N / P).
  pose proof (Z.div_mod N P ltac:(lia)) as HNk. fold k in HNk.
  pose proof (Z.mod_pos_bound N P HP) as Hrho.
  assert (HAP : 0 < A * P) by nia.
  assert (Hlt : m2 < (k + 1) * B).
  { apply (Z.mul_lt_mono_pos_r (A * P)); [exact HAP|].
    assert ((N + 1) * (A * B) <= (k + 1) * P * (A * B)) by nia. nia. }
  assert (Hle : m2 / B <= k).
  { assert (m2 / B < k + 1)
      by (apply Z.div_lt_upper_bound; [exact HB | lia]). lia. }
  split; [split; [|exact Hle]|].
  - assert (Hgt : (k - 1) * B < m2 + 1).
    { apply (Z.mul_lt_mono_pos_r (A * P)); [exact HAP|].
      assert ((k - 1) * P * (A * B) <= (N - 1) * (A * B)) by nia. nia. }
    apply Z.div_le_lower_bound; lia.
  - intros Hrest.
    assert (Hge : k * B < m2 + 1).
    { apply (Z.mul_lt_mono_pos_r (A * P)); [exact HAP|].
      assert (k * P * (A * B) <= (N - 1) * (A * B)) by nia. nia. }
    assert (k <= m2 / B) by (apply Z.div_le_lower_bound; lia). lia.
Qed.

(** [int((E / P) * 3600)] is the floor of the exact value when [P]
    divides [E], and when the exact value is not a whole number. *)
Lemma seconds_floor E P :
  0 <= E -> 3600 * E < 2 ^ 50 -> 0 < P < 2 ^ 64 ->
  (P | E) \/ ~ (P | 3600 * E) ->
  seconds E P = Ok (3600 * E / P).
Proof.
  intros HE HN HP Hcase.
  destruct (Z.eq_dec E 0) as [-> | HE0].
  - unfold seconds, truediv.
    replace (P =? 0) with false by (symmetry; apply Z.eqb_neq; lia).
    destruct P as [|pp|pp]; try lia. reflexivity.
  - assert (HE39 : 0 < E < 2 ^ 39).
    { split; [lia|]. change (2 ^ 50) with 1125899906842624 in HN.
      change (2 ^ 39) with 549755813888. lia. }
    destruct (truediv_pos E P HE39 HP) as [m [e [Hq [Hm [He [Hdiv Hexact]]]]]].
    destruct (mul_3600 m e Hm He) as [m2 [e2 [Hmul [Hm2 [He2 [Hnear Hexact2]]]]]].
    unfold seconds. rewrite Hq. cbn [bind]. rewrite Hmul.
    rewrite int_of_positive by lia. f_equal.
    set (A := 2 ^ (- e)) in *. set (B := 2 ^ (- e2)) in *.
    assert (HA : 0 < A) by (apply pow2_pos; lia).
    assert (HB : 0 < B) by (apply pow2_pos; lia).
    destruct Hcase as [Hdivides | Hnot].
    + specialize (Hexact Hdivides). destruct Hdivides as [k Hk].
      assert (Hk0 : 0 < k) by nia.
      assert (HmA : Zpos m = k * A) by nia.
      assert (Hk50 : 3600 * k < 2 ^ 50) by nia.
      assert (Hw : 3600 * Zpos m = (3600 * k) * A) by nia.
      specialize (Hexact2 (3600 * k) Hw ltac:(change (2 ^ 50) with 1125899906842624 in Hk50; change (2 ^ 53) with 9007199254740992; lia)).
      assert (Hm2B : Zpos m2 = 3600 * k * B) by nia.
      rewrite Hm2B, Z.div_mul by lia.
      rewrite Hk. replace (3600 * (k * P)) with (3600 * k * P) by ring.
      now rewrite Z.div_mul by lia.
    + apply (floor_of_rounded E P (Zpos m) A (Zpos m2) B); try lia.
      intros Hzero. apply Hnot. apply Z.mod_divide; [lia | exact Hzero].
Qed.

(** In the case that is left, a whole number of seconds out of a number
    of hours that is not whole, the result is that number or one below
    it. *)
Lemma seconds_within_one E P :
  0 <= E -> 3600 * E < 2 ^ 50 -> 0 < P < 2 ^ 64 ->
  exists time_seconds,
    seconds E P = Ok time_seconds
    /\ 3600 * E / P - 1 <= time_seconds <= 3600 * E / P.
Proof.
  intros HE HN HP.
  destruct (Z.eq_dec E 0) as [-> | HE0].
  - exists 0. rewrite (seconds_floor 0 P); try lia.
    + split; [reflexivity|]. change (3600 * 0 / P) with 0. lia.
    + left. exists 0. lia.
  - assert (HE39 : 0 < E < 2 ^ 39).
    { split; [lia|]. change (2 ^ 50) with 1125899906842624 in HN.
      change (2 ^ 39) with 549755813888. lia. }
    destruct (truediv_pos E P HE39 HP) as [m [e [Hq [Hm [He [Hdiv Hexact]]]]]].
    destruct (mul_3600 m e Hm He) as [m2 [e2 [Hmul [Hm2 [He2 [Hnear Hexact2]]]]]].
    unfold seconds. rewrite Hq. cbn [bind]. rewrite Hmul.
    rewrite int_of_positive by lia. eexists. split; [reflexivity|].
    apply (floor_of_rounded E P (Zpos m) (2 ^ (- e)) (Zpos m2) (2 ^ (- e2)));
      try lia; apply pow2_pos; lia.
Qed.

End Seconds.

(** ** C4: the time remaining from the power and energy files *)

Section BatteryTime.
Import Py PyStr Combined.

Lemma read_int_has_path f n : read_int f = Ok n -> has_path f = true.
Proof. destruct f; simpl; [discriminate | reflexivity | reflexivity]. Qed.

Lemma charge_method_absent files is_charging :
  files "current_now" = NoPath \/ files "charge_now" = NoPath ->
  charge_method files is_charging = None.
Proof.
  unfold charge_method, rate_time. intros [-> | ->]; simpl;
    [reflexivity | now rewrite andb_false_r].
Qed.

(** C4, as the code has it.  Discharging, no time-to-empty file, power_now
    and energy_now readable as ints.  With power_now > 0, for values in
    the range of the kernel's files (energy_now below 2^50 / 3600,
    power_now below 2^64), the result is the floor of
    energy_now / power_now * 3600 when that floor is positive, and null
    when it is 0: this whenever energy_now is a multiple of power_now, and
    whenever the exact value is not a whole number of seconds.  (In the
    case left out the float arithmetic of the code can lose a second.)
    With power_now = 0 (or below) nothing is divided and the result is
    the one of the method on current_now and charge_now, which is null
    when one of these files is absent. *)
Theorem discharge_time_from_power_and_energy :
  forall files status_str power_now energy_now,
    contains "discharging" status_str = true ->
    files "time_to_empty" = NoPath ->
    read_int (files "power_now") = Ok power_now ->
    read_int (files "energy_now") = Ok energy_now ->
    (0 < power_now < 2 ^ 64 ->
     0 <= energy_now -> 3600 * energy_now < 2 ^ 50 ->
     (power_now | energy_now) \/ ~ (power_now | 3600 * energy_now) ->
     _calculate_time_from_files files false status_str
     = positive_or_none (3600 * energy_now / power_now))
    /\ (0 < power_now ->
        _calculate_time_from_files files false status_str
        = match seconds energy_now power_now with
          | Ok time_seconds => positive_or_none time_seconds
          | Raise _ => charge_method files false
          end)
    /\ (power_now <= 0 ->
        _calculate_time_from_files files false status_str
        = charge_method files false)
    /\ (power_now <= 0 ->
        files "current_now" = NoPath \/ files "charge_now" = NoPath ->
        _calculate_time_from_files files false status_str = None).
Proof.
  intros files status_str power_now energy_now Hdis Hempty Hpower Henergy.
  assert (Hcalc : _calculate_time_from_files files false status_str
                  = match rate_time files false "power_now" "energy_now" "energy_full" with
                    | Some r => r
                    | None => charge_method files false
                    end).
  { unfold _calculate_time_from_files, direct_time.
    rewrite Hdis, Hempty. reflexivity. }
  assert (Hrate : rate_time files false "power_now" "energy_now" "energy_full"
                  = if 0 <? power_now then
                      match seconds energy_now power_now with
                      | Ok time_seconds => Some (positive_or_none time_seconds)
                      | Raise _ => None
                      end
                    else None).
  { unfold rate_time.
    rewrite (read_int_has_path _ _ Hpower), (read_int_has_path _ _ Henergy).
    rewrite Hpower, Henergy. simpl.
    destruct (0 <? power_now); [|reflexivity].
    now destruct (seconds energy_now power_now). }
  rewrite Hcalc, Hrate. split; [|split; [|split]].
  - intros Hpos Henergy0 Hrange Hcase.
    replace (0 <? power_now) with true by (symmetry; apply Z.ltb_lt; lia).
    now rewrite (seconds_floor energy_now power_now Henergy0 Hrange Hpos Hcase).
  - intros Hpos. apply Z.ltb_lt in Hpos. rewrite Hpos.
    now destruct (seconds energy_now power_now).
  - intros Hle. apply Z.ltb_ge in Hle. now rewrite Hle.
  - intros Hle Habsent. apply Z.ltb_ge in Hle. rewrite Hle.
    now apply charge_method_absent.
Qed.

Lemma discharge_time_from_power_and_energy_witness :
  (let files := battery_dir "7500000" "30000000" NoPath NoPath in
   _calculate_time_from_files files false "discharging" = Some 14400)
  /\ (let files := battery_dir "7000000" "30000000" NoPath NoPath in
      _calculate_time_from_files files false "discharging" = Some 15428)
  /\ (let files := battery_dir "0" "30000000" NoPath NoPath in
      _calculate_time_from_files files false "discharging" = None).
Proof.
  split; [|split].
  - refine (proj1 (discharge_time_from_power_and_energy
                     (battery_dir "7500000" "30000000" NoPath NoPath) "discharging"
                     7500000 30000000 eq_refl eq_refl eq_refl eq_refl) _ _ _ _).
    + split; reflexivity.
    + discriminate.
    + reflexivity.
    + left. exists 4. reflexivity.
  - refine (proj1 (discharge_time_from_power_and_energy
                     (battery_dir "7000000" "30000000" NoPath NoPath) "discharging"
                     7000000 30000000 eq_refl eq_refl eq_refl eq_refl) _ _ _ _).
    + split; reflexivity.
    + discriminate.
    + reflexivity.
    + right. intros [k Hk]. lia.
  - refine (proj2 (proj2 (proj2 (discharge_time_from_power_and_energy
                            (battery_dir "0" "30000000" NoPath NoPath) "discharging"
                            0 30000000 eq_refl eq_refl eq_refl eq_refl)))
              _ (or_introl eq_refl)).
    discriminate.
Defined.

(** The claim of C4 fails as it is worded: an empty battery that still
    draws power gives null where the floor is 0, and with power_now = 0
    the current and charge files, when present, give a value. *)
Lemma discharge_time_counterexample :
  (let files := battery_dir "5000000" "0" NoPath NoPath in
   0 * 3600 / 5000000 = 0
   /\ _calculate_time_from_files files false "discharging" = None)
  /\ (let files := battery_dir "0" "30000000" (Content "1000") (Content "500") in
      _calculate_time_from_files files false "discharging" = Some 1800).
Proof. split; [split|]; reflexivity. Qed.

End BatteryTime.

(** ** C10: the backlight percentage *)

Section Backlight.
Import Py PyStr Combined.

(** Where the computation cannot be made, the result is null or 0, and
    no exception leaves the method: a file without path, a file that
    cannot be opened, a text that is no int, a maximum that is not
    positive. *)
Lemma backlight_percentage_without_ratio bf mf :
  (has_path bf = false \/ has_path mf = false ->
   get_backlight_percentage_internal bf mf = Ok None)
  /\ (bf = Unreadable \/ mf = Unreadable ->
      get_backlight_percentage_internal bf mf = Ok None)
  /\ (forall text, bf = Content text -> int_of_str (strip text) = None ->
      get_backlight_percentage_internal bf mf = Ok None)
  /\ (forall current text, read_int bf = Ok current ->
      mf = Content text -> int_of_str (strip text) = None ->
      get_backlight_percentage_internal bf mf = Ok None)
  /\ (forall current max_val, read_int bf = Ok current ->
      read_int mf = Ok max_val -> max_val <= 0 ->
      get_backlight_percentage_internal bf mf = Ok (Some 0)).
Proof.
  unfold get_backlight_percentage_internal. repeat split.
  - intros [H | H]; rewrite H; [reflexivity | now rewrite andb_false_r].
  - intros [-> | ->]; [now destruct mf|].
    destruct bf as [| |text]; try reflexivity. simpl. unfold read_int. simpl.
    now destruct (int_of_str (strip text)).
  - intros text -> Hbad. destruct mf; try reflexivity;
      unfold read_int; simpl; now rewrite Hbad.
  - intros current text Hcur -> Hbad.
    rewrite (read_int_has_path _ _ Hcur), Hcur. unfold read_int. simpl.
    now rewrite Hbad.
  - intros current max_val Hcur Hmax Hle.
    rewrite (read_int_has_path _ _ Hcur), (read_int_has_path _ _ Hmax).
    rewrite Hcur, Hmax. simpl. apply Z.ltb_ge in Hle. now rewrite Hle.
Qed.

(** C10, at brightness 29 of 100.  The quotient 29/100 is the float
    0.28999999999999998, its product with 100 is 28.999999999999996, and
    [int] cuts it to 28, while the floor of 29/100*100 is 29. *)
Theorem backlight_percentage_29_of_100 :
  get_backlight_percentage_internal (Content "29") (Content "100") = Ok (Some 28)
  /\ 29 * 100 / 100 = 29.
Proof. split; reflexivity. Qed.

(** On a backlight of 100 steps the percentage is the level itself, except
    at 29, 57 and 58, where it is one below. *)
Lemma backlight_percentage_of_100 :
  forall level,
    0 <= level <= 100 ->
    get_backlight_percentage_internal (Content (Json.of_int level)) (Content "100")
    = Ok (Some (if (level =? 29) || (level =? 57) || (level =? 58)
                then level - 1 else level)).
Proof.
  intros level Hlevel.
  assert (Hall :
    forallb
      (fun n =>
         let level := Z.of_nat n in
         match get_backlight_percentage_internal
                 (Content (Json.of_int level)) (Content "100") with
         | Ok (Some percent) =>
             percent =? (if (level =? 29) || (level =? 57) || (level =? 58)
                         then level - 1 else level)
         | _ => false
         end)
      (seq 0 101) = true) by (vm_compute; reflexivity).
  rewrite forallb_forall in Hall.
  specialize (Hall (Z.to_nat level)).
  rewrite Z2Nat.id in Hall by lia. cbv zeta in Hall.
  assert (Hin : In (Z.to_nat level) (seq 0 101)) by (apply in_seq; lia).
  specialize (Hall Hin).
  destruct (get_backlight_percentage_internal _ _) as [[percent|]|e];
    try discriminate.
  apply Z.eqb_eq in Hall. now subst.
Qed.

(** The same one-off at other levels of a 100- or 1000-step backlight. *)
Example backlight_percentage_other_levels :
  get_backlight_percentage_internal (Content "57") (Content "100") = Ok (Some 56)
  /\ get_backlight_percentage_internal (Content "58") (Content "100") = Ok (Some 57)
  /\ get_backlight_percentage_internal (Content "290") (Content "1000") = Ok (Some 28)
  /\ get_backlight_percentage_internal (Content "50") (Content "100") = Ok (Some 50).
Proof. repeat split. Qed.

(** The discharge time has the same one-off: 13/3 hours are 15600
    seconds, the code finds 15599. *)
Example discharge_time_one_second_short :
  seconds 13 3 = Ok 15599 /\ 13 * 3600 / 3 = 15600.
Proof. split; reflexivity. Qed.

End Backlight.

(** ** C6: the clock *)

Section Clock.
Import Io Time.

(** C6, as the code has it.  On a wake the clock broadcasts exactly when
    the new [time_str] differs from the stored one: then the whole new
    record is stored and sent to every client; with the same [time_str]
    nothing is stored and nothing is sent, whatever the other fields. *)
Theorem clock_broadcast_on_time_str :
  forall now send_ok self,
    let new_time_info := get_formatted_time now in
    (time_str new_time_info = time_str (current_time_info self) ->
     monitor_time now send_ok self = (self, []))
    /\ (time_str new_time_info <> time_str (current_time_info self) ->
        monitor_time now send_ok self
        = ({| current_time_info := new_time_info;
              clients := filter send_ok (clients self) |},
           (map (fun c => Sent c (dumps new_time_info ++ Json.LF))
                (filter send_ok (clients self))
            ++ map Closed (filter (send_fails send_ok) (clients self)))%list)).
Proof.
  intros now send_ok self new_time_info. unfold monitor_time.
  fold new_time_info. split; intros H.
  - apply String.eqb_eq in H. now rewrite H.
  - apply String.eqb_neq in H. rewrite H. simpl.
    unfold notify_clients. simpl. now rewrite broadcast_spec.
Qed.

Lemma clock_broadcast_on_time_str_witness :
  let self := {| current_time_info := get_formatted_time monday_1405;
                 clients := [1%nat] |} in
  monitor_time monday_1406 (fun _ => true) self
  = ({| current_time_info := get_formatted_time monday_1406; clients := [1%nat] |},
     [Sent 1%nat (dumps (get_formatted_time monday_1406) ++ Json.LF)])
  /\ monitor_time tuesday_1405 (fun _ => true) self = (self, []).
Proof.
  intros self. split.
  - refine (proj2 (clock_broadcast_on_time_str monday_1406 (fun _ => true) self) _).
    vm_compute. discriminate.
  - exact (proj1 (clock_broadcast_on_time_str tuesday_1405 (fun _ => true) self)
             eq_refl).
Defined.

(** The claim of C6 fails as it is worded: a wake at the same minute of
    the next day has a new record (day name and date differ), and nothing
    is stored or sent. *)
Lemma clock_whole_record_counterexample :
  let self := {| current_time_info := get_formatted_time monday_1405;
                 clients := [1%nat] |} in
  get_formatted_time tuesday_1405 <> current_time_info self
  /\ monitor_time tuesday_1405 (fun _ => true) self = (self, []).
Proof.
  intros self. split; [vm_compute; discriminate | reflexivity].
Qed.

End Clock.

(** ** C2: the first message of a new client *)

Section FirstMessage.
Import Io Daemon.

Variable snapshot : Type.
Variable differs : snapshot -> snapshot -> bool.
Variable dumps : snapshot -> string.

Local Abbreviation daemon := (Daemon.daemon snapshot).
Local Abbreviation step := (Daemon.step snapshot differs dumps).
Local Abbreviation run := (Daemon.run snapshot differs dumps).
Local Abbreviation message := (Daemon.message snapshot dumps).
Local Abbreviation quiet := (Daemon.quiet snapshot differs).

Lemma pending_unknown c hs : ~ In c (map fst hs) -> pending c hs = [].
Proof.
  induction hs as [|[k o] hs IH]; simpl; [reflexivity|]. intros Hc.
  unfold pending. simpl. destruct (Nat.eqb k c) eqn:Hk.
  - apply Nat.eqb_eq in Hk. tauto.
  - apply IH. tauto.
Qed.

Lemma pending_app c hs hs' :
  pending c (hs ++ hs') = (pending c hs ++ pending c hs')%list.
Proof. unfold pending. now rewrite filter_app, map_app. Qed.

Lemma pending_cons c k o hs :
  pending c ((k, o) :: hs)
  = if Nat.eqb k c then o :: pending c hs else pending c hs.
Proof. unfold pending. simpl. now destruct (Nat.eqb k c). Qed.

Lemma pending_serialize_other c c' m hs :
  c' <> c -> pending c (serialize c' m hs) = pending c hs.
Proof.
  intros Hne. induction hs as [|[k [am|]] hs IH]; simpl; [reflexivity| |].
  - now rewrite !pending_cons, IH.
  - destruct (Nat.eqb c' k) eqn:Hk.
    + apply Nat.eqb_eq in Hk. subst k. rewrite !pending_cons.
      apply Nat.eqb_neq in Hne. now rewrite Hne.
    + now rewrite !pending_cons, IH.
Qed.

Lemma pending_serialize_self c m hs :
  pending c hs = [None] -> pending c (serialize c m hs) = [Some m].
Proof.
  induction hs as [|[k o] hs IH]; [discriminate|].
  rewrite pending_cons. destruct (Nat.eqb k c) eqn:Hk.
  - intros Hp. injection Hp as -> Hrest. simpl.
    rewrite Nat.eqb_sym, Hk, pending_cons, Hk. now rewrite Hrest.
  - intros Hp. destruct o as [am|]; simpl.
    + now rewrite pending_cons, Hk, IH.
    + rewrite Nat.eqb_sym, Hk, pending_cons, Hk. now apply IH.
Qed.

Lemma deliver_other c c' hs :
  c' <> c ->
  pending c (fst (deliver c' hs)) = pending c hs
  /\ Forall (fun m => to m = c') (snd (deliver c' hs)).
Proof.
  intros Hne. induction hs as [|[k [am|]] hs IH]; simpl.
  - split; [reflexivity | constructor].
  - destruct (Nat.eqb c' k) eqn:Hk.
    + apply Nat.eqb_eq in Hk. subst k. simpl. rewrite pending_cons.
      apply Nat.eqb_neq in Hne. rewrite Hne. split; [reflexivity|].
      now repeat constructor.
    + destruct (deliver c' hs) as [hs' sent]. simpl in *.
      rewrite !pending_cons. destruct IH as [-> Hsent]. now split.
  - destruct (deliver c' hs) as [hs' sent]. simpl in *.
    rewrite !pending_cons. destruct IH as [-> Hsent]. now split.
Qed.

Lemma deliver_self c m hs :
  pending c hs = [Some m] ->
  snd (deliver c hs) = [{| to := c; from := Handler; line := m |}].
Proof.
  induction hs as [|[k o] hs IH]; [discriminate|].
  rewrite pending_cons. destruct (Nat.eqb k c) eqn:Hk.
  - intros Hp. injection Hp as -> _. simpl. now rewrite Nat.eqb_sym, Hk.
  - intros Hp. specialize (IH Hp). destruct o as [am|]; simpl.
    + rewrite Nat.eqb_sym, Hk. now destruct (deliver c hs).
    + now destruct (deliver c hs).
Qed.

Lemma received_app c (d : daemon) (cur : snapshot) cs hs sent :
  received c {| current := cur; clients := cs; handlers := hs;
                wire := (wire d ++ sent)%list |}
  = (received c d ++ filter (fun m => Nat.eqb (to m) c) sent)%list.
Proof. unfold received. simpl. apply filter_app. Qed.

Lemma filter_to_other c c' (sent : list delivery) :
  c' <> c -> Forall (fun m => to m = c') sent ->
  filter (fun m => Nat.eqb (to m) c) sent = [].
Proof.
  intros Hne. induction 1 as [|m sent Hm _ IH]; simpl; [reflexivity|].
  rewrite Hm. apply Nat.eqb_neq in Hne. now rewrite Hne.
Qed.

(** While nothing is broadcast and the handler of [c] does not move, the
    stored value, the stage of the handler and what [c] has received stay
    as they are. *)
Lemma quiet_step c s0 o (d : daemon) e :
  quiet c s0 e = true ->
  current d = s0 /\ pending c (handlers d) = [o] /\ received c d = [] ->
  current (step d e) = s0 /\ pending c (handlers (step d e)) = [o]
  /\ received c (step d e) = [].
Proof.
  intros Hq [Hcur [Hpend Hrecv]]. destruct e as [c'|c'|c'|new]; simpl in Hq;
    unfold Daemon.step, Daemon.accept_clients, Daemon.handle_client_message,
    Daemon.handle_client_send, Daemon.monitor.
  - apply negb_true_iff, Nat.eqb_neq in Hq. simpl.
    rewrite pending_app, Hpend. unfold pending at 1. simpl.
    apply Nat.eqb_neq in Hq. rewrite Hq. auto.
  - apply negb_true_iff, Nat.eqb_neq in Hq. simpl.
    rewrite (pending_serialize_other c c' _ _ Hq). auto.
  - apply negb_true_iff, Nat.eqb_neq in Hq.
    destruct (deliver_other c c' (handlers d) Hq) as [Hp Hsent].
    simpl. destruct (deliver c' (handlers d)) as [hs sent]. simpl in *.
    rewrite received_app, Hrecv, (filter_to_other c c' sent Hq Hsent).
    rewrite Hp. auto.
  - apply negb_true_iff in Hq. simpl. rewrite Hcur, Hq. auto.
Qed.

Lemma quiet_run c s0 o schedule :
  forallb (quiet c s0) schedule = true ->
  forall d : daemon,
    current d = s0 /\ pending c (handlers d) = [o] /\ received c d = [] ->
    current (run d schedule) = s0
    /\ pending c (handlers (run d schedule)) = [o]
    /\ received c (run d schedule) = [].
Proof.
  induction schedule as [|e schedule IH]; simpl; intros Hq d Hd; [exact Hd|].
  apply andb_true_iff in Hq. destruct Hq as [He Hrest].
  apply (IH Hrest). now apply quiet_step.
Qed.

(** What is on the wire stays there. *)
Lemma step_wire (d : daemon) e : exists sent, wire (step d e) = (wire d ++ sent)%list.
Proof.
  destruct e as [c|c|c|new];
    unfold Daemon.step, Daemon.accept_clients, Daemon.handle_client_message,
    Daemon.handle_client_send, Daemon.monitor; simpl.
  - exists []. now rewrite app_nil_r.
  - exists []. now rewrite app_nil_r.
  - destruct (deliver c (handlers d)) as [hs sent]. now exists sent.
  - destruct (differs new (current d)); simpl; eexists; [reflexivity|].
    now rewrite app_nil_r.
Qed.

Lemma run_wire schedule :
  forall d : daemon, exists sent, wire (run d schedule) = (wire d ++ sent)%list.
Proof.
  induction schedule as [|e schedule IH]; simpl; intros d.
  - exists []. now rewrite app_nil_r.
  - destruct (IH (step d e)) as [sent Hsent].
    destruct (step_wire d e) as [sent' Hsent'].
    exists (sent' ++ sent)%list. now rewrite Hsent, Hsent', app_assoc.
Qed.

Lemma run_cons (d : daemon) e schedule :
  run d (e :: schedule) = run (step d e) schedule.
Proof. reflexivity. Qed.

Lemma run_app (d : daemon) schedule schedule' :
  run d (schedule ++ schedule') = run (run d schedule) schedule'.
Proof. apply fold_left_app. Qed.

(** What holds of the first message.  The socket of a new client is
    registered first; the handler then builds one line, the serialised
    snapshot and a line feed, and sends it.  When nothing is broadcast
    between the registration and that send, this line is the first message
    of the client, it is the snapshot at the time of the connection, and
    all that a change sends comes after it. *)
Lemma initial_snapshot_first_when_quiet :
  forall (d : daemon) (c : client) (mid1 mid2 post : list (event snapshot)),
    fresh c d ->
    forallb (quiet c (current d)) mid1 = true ->
    forallb (quiet c (current d)) mid2 = true ->
    exists rest,
      received c
        (run d (Accept c :: mid1 ++ Serialize c :: mid2 ++ Deliver c :: post)%list)
      = {| to := c; from := Handler; line := dumps (current d) ++ Json.LF |}
        :: rest.
Proof.
  intros d c mid1 mid2 post [_ [Hunknown Hnone]] Hmid1 Hmid2.
  rewrite run_cons, run_app, run_cons, run_app, run_cons.
  set (d1 := run (step d (Accept c)) mid1).
  set (d2 := run (step d1 (Serialize c)) mid2).
  (* registered, the handler not yet run *)
  assert (H1 : current d1 = current d /\ pending c (handlers d1) = [None]
               /\ received c d1 = []).
  { apply (quiet_run c (current d) None mid1 Hmid1).
    unfold Daemon.step, Daemon.accept_clients, Daemon.handle_client_message,
    Daemon.handle_client_send, Daemon.monitor. simpl.
    rewrite pending_app, (pending_unknown c _ Hunknown). unfold pending. simpl.
    rewrite Nat.eqb_refl. auto. }
  destruct H1 as [Hcur1 [Hpend1 Hrecv1]].
  (* the message is built *)
  assert (H2 : current d2 = current d
               /\ pending c (handlers d2) = [Some (message (current d))]
               /\ received c d2 = []).
  { apply (quiet_run c (current d) _ mid2 Hmid2).
    unfold Daemon.step, Daemon.accept_clients, Daemon.handle_client_message,
    Daemon.handle_client_send, Daemon.monitor. simpl.
    rewrite Hcur1. split; [reflexivity|]. split; [|exact Hrecv1].
    now apply pending_serialize_self. }
  destruct H2 as [Hcur2 [Hpend2 Hrecv2]].
  (* the message is sent, and stays first *)
  destruct (run_wire post (step d2 (Deliver c))) as [sent Hsent].
  unfold received. rewrite Hsent, filter_app.
  unfold Daemon.step, Daemon.accept_clients, Daemon.handle_client_message,
  Daemon.handle_client_send, Daemon.monitor. simpl.
  pose proof (deliver_self c _ _ Hpend2) as Hdel.
  destruct (deliver c (handlers d2)) as [hs out]. simpl in Hdel. subst out.
  simpl. rewrite filter_app. fold (received c d2). rewrite Hrecv2. simpl.
  rewrite Nat.eqb_refl. simpl. eexists. reflexivity.
Qed.

Lemma filter_to_unknown c (mk : client -> delivery) cs :
  (forall x, to (mk x) = x) -> ~ In c cs ->
  filter (fun m => Nat.eqb (to m) c) (map mk cs) = [].
Proof.
  intros Hmk. induction cs as [|x cs IH]; simpl; [reflexivity|]. intros Hc.
  rewrite Hmk. destruct (Nat.eqb x c) eqn:Hx.
  - apply Nat.eqb_eq in Hx. tauto.
  - apply IH. tauto.
Qed.

(** In each of the three services a change that falls between the
    registration of a new client and the send of its handler reaches the
    client first. *)
Lemma broadcast_can_overtake (d : daemon) c new :
  fresh c d -> differs new (current d) = true ->
  received c (run d [Accept c; Change new; Serialize c; Deliver c])
  = [ {| to := c; from := Broadcast; line := dumps new ++ Json.LF |};
      {| to := c; from := Handler; line := dumps new ++ Json.LF |} ].
Proof.
  intros [Hclients [Hhandlers Hwire]] Hdiff.
  unfold Daemon.run. simpl fold_left.
  unfold Daemon.step, Daemon.accept_clients, Daemon.handle_client_message,
  Daemon.handle_client_send, Daemon.monitor.
  simpl. rewrite Hdiff. simpl.
  assert (Hpend : pending c (serialize c (message new) (handlers d ++ [(c, None)]))
                  = [Some (message new)]).
  { apply pending_serialize_self.
    rewrite pending_app, (pending_unknown c _ Hhandlers). unfold pending. simpl.
    now rewrite Nat.eqb_refl. }
  pose proof (deliver_self c _ _ Hpend) as Hdel.
  destruct (deliver c (serialize c (message new) (handlers d ++ [(c, None)])))
    as [hs out].
  simpl in Hdel. subst out. unfold received in *. simpl.
  rewrite !filter_app, map_app, filter_app, Hwire.
  rewrite (filter_to_unknown c
             (fun x => {| to := x; from := Broadcast; line := message new |})
             (clients d) (fun x => eq_refl) Hclients).
  simpl. now rewrite Nat.eqb_refl.
Qed.

End FirstMessage.

Section FirstMessageExamples.
Import Io Daemon Services.

Lemma initial_snapshot_first_when_quiet_witness :
  let s0 := Time.get_formatted_time Time.monday_1405 in
  let s1 := Time.get_formatted_time Time.monday_1406 in
  let d := {| current := s0; clients := [2%nat]; handlers := []; wire := [] |} in
  exists rest,
    received 1%nat
      (time_run d ([Accept 1%nat; Accept 3%nat; Change s0; Serialize 1%nat;
                    Serialize 3%nat; Deliver 1%nat; Change s1]))
    = {| to := 1%nat; from := Handler; line := Time.dumps s0 ++ Json.LF |} :: rest.
Proof.
  intros s0 s1 d.
  refine (initial_snapshot_first_when_quiet Time.time_info time_differs Time.dumps
            d 1%nat [Accept 3%nat; Change s0] [Serialize 3%nat] [Change s1]
            _ eq_refl eq_refl).
  split; [|split; [|reflexivity]]; simpl; intros H; [destruct H as [H | H]|];
    [discriminate H | exact H | exact H].
Defined.

(** C2, at a schedule of the time service.  The socket is in the registry
    before the handler has sent anything, so a change that comes in
    between is broadcast to the new client first.  Here the client
    connects at 14:05; the minute turns before its handler runs; the first
    line it receives is the broadcast of 14:06, not the snapshot of the
    time of the connection, and the handler's line comes second. *)
Theorem broadcast_overtakes_initial_snapshot :
  let s0 := Time.get_formatted_time Time.monday_1405 in
  let s1 := Time.get_formatted_time Time.monday_1406 in
  let d := {| current := s0; clients := []; handlers := []; wire := [] |} in
  let after := time_run d [Accept 1%nat; Change s1; Serialize 1%nat; Deliver 1%nat] in
  map (fun m => (from m, line m)) (received 1%nat after)
  = [ (Broadcast, Time.dumps s1 ++ Json.LF); (Handler, Time.dumps s1 ++ Json.LF) ]
  /\ Time.dumps s1 ++ Json.LF <> Time.dumps s0 ++ Json.LF.
Proof.
  intros s0 s1 d after. split; [reflexivity | vm_compute; discriminate].
Qed.

(** With the message built before the change and sent after it, the
    client is left with the old snapshot as its latest line. *)
Example stale_snapshot_after_update :
  let s0 := Time.get_formatted_time Time.monday_1405 in
  let s1 := Time.get_formatted_time Time.monday_1406 in
  let d := {| current := s0; clients := []; handlers := []; wire := [] |} in
  inbox 1%nat
    (time_run d [Accept 1%nat; Serialize 1%nat; Change s1; Deliver 1%nat])
  = [ Time.dumps s1 ++ Json.LF; Time.dumps s0 ++ Json.LF ].
Proof. reflexivity. Qed.

(** The same in the combined service: the backlight changes between the
    registration and the send of the handler. *)
Example combined_broadcast_overtakes :
  let d0 := {| Combined.battery_percentage := Some 80;
               Combined.is_charging := false;
               Combined.battery_time_remaining := None;
               Combined.backlight_percentage := Some 50;
               Combined.volume_percentage := Some 70;
               Combined.speaker_muted := Some false;
               Combined.mic_muted := Some false |} in
  let d1 := Combined.set_backlight_percentage d0 (Some 60) in
  let d := {| current := d0; clients := []; handlers := []; wire := [] |} in
  map from
    (received 1%nat
       (combined_run d [Accept 1%nat; Change d1; Serialize 1%nat; Deliver 1%nat]))
  = [Broadcast; Handler].
Proof. reflexivity. Qed.

End FirstMessageExamples.

(** ** C9: a second instance *)

Section Startup.
Import Supervisor.

(** C9, as the code has it.  The combined service takes the lock and
    does not probe: with the lock held it warns and exits with status 1,
    and the world is as it was; with the lock free it removes any existing
    socket path, reachable or not, and binds.  The time and window
    services take no lock and probe: with a live socket they print a line
    and exit with status 0, and the world is as it was; only a socket
    path that does not answer is removed before binding. *)
Theorem second_instance_startup :
  (forall w holder,
     lock_holder w = Some holder ->
     combined_main w = (w, [TryLock; Warn; Exit 1]))
  /\ (forall w,
        lock_holder w = None ->
        socket (fst (combined_main w)) = Live Second
        /\ does Probe (snd (combined_main w)) = false
        /\ does Unlink (snd (combined_main w)) = exists_path (socket w))
  /\ (forall w owner,
        socket w = Live owner ->
        probing_main w = (w, [Probe; PrintLine; Exit 0]))
  /\ (forall w,
        socket w = Stale ->
        probing_main w
        = ({| lock_holder := lock_holder w; socket := Live Second |},
           [Probe; Unlink; Bind; Run]))
  /\ (forall w,
        socket w = Absent ->
        probing_main w
        = ({| lock_holder := lock_holder w; socket := Live Second |}, [Bind; Run]))
  /\ (forall w, does TryLock (snd (probing_main w)) = false)
  /\ (forall w,
        does Unlink (snd (probing_main w)) = true -> connects (socket w) = false).
Proof.
  split; [|split; [|split; [|split; [|split; [|split]]]]].
  - intros w holder H. unfold combined_main. now rewrite H.
  - intros [holder [| |owner]] H; simpl in H; subst holder; repeat split.
  - intros w owner H. unfold probing_main. now rewrite H.
  - intros w H. unfold probing_main. now rewrite H.
  - intros w H. unfold probing_main, init_service. now rewrite H.
  - intros [holder [| |owner]]; reflexivity.
  - intros [holder [| |owner]]; simpl; congruence.
Qed.

Lemma second_instance_startup_witness :
  let running := {| lock_holder := Some First; socket := Live First |} in
  let crashed := {| lock_holder := None; socket := Stale |} in
  let clean := {| lock_holder := None; socket := Absent |} in
  combined_main running = (running, [TryLock; Warn; Exit 1])
  /\ probing_main running = (running, [Probe; PrintLine; Exit 0])
  /\ probing_main crashed
     = ({| lock_holder := None; socket := Live Second |}, [Probe; Unlink; Bind; Run])
  /\ probing_main clean
     = ({| lock_holder := None; socket := Live Second |}, [Bind; Run])
  /\ does Unlink (snd (combined_main crashed)) = true
  /\ connects (socket crashed) = false.
Proof.
  intros running crashed clean.
  destruct second_instance_startup
    as [Hheld [Hfree [Hlive [Hstale [Habsent [_ Hunlink]]]]]].
  split; [exact (Hheld running First eq_refl)|].
  split; [exact (Hlive running First eq_refl)|].
  split; [exact (Hstale crashed eq_refl)|].
  split; [exact (Habsent clean eq_refl)|].
  split; [exact (proj2 (proj2 (Hfree crashed eq_refl)))|].
  exact (Hunlink crashed eq_refl).
Defined.

(** The claim of C9 fails as it is worded.  With the first instance
    running, the second combined service never probes the socket, and the
    second time or window service never looks at a lock.  And the combined
    service removes a socket path without asking whether it answers: if
    the lock file is gone while the first instance still listens, the
    second one unlinks the live socket and binds its own. *)
Lemma second_instance_counterexample :
  (let w := {| lock_holder := Some First; socket := Live First |} in
   does Probe (snd (main CombinedService w)) = false
   /\ does TryLock (snd (main TimeService w)) = false
   /\ does TryLock (snd (main WindowService w)) = false)
  /\ (let w := {| lock_holder := None; socket := Live First |} in
      connects (socket w) = true
      /\ main CombinedService w
         = ({| lock_holder := Some Second; socket := Live Second |},
            [TryLock; Unlink; Bind; Run])).
Proof. repeat split. Qed.

End Startup.

(* ===================================================================== *)
(** * Beyond the claims: the clients *)
(* ===================================================================== *)

(** ** More on strings *)

Section Append.

Lemma append_assoc (s t u : string) : (s ++ t) ++ u = s ++ t ++ u.
Proof. induction s as [|c s IH]; simpl; [reflexivity | now rewrite IH]. Qed.

Lemma append_nil_r (s : string) : s ++ "" = s.
Proof. induction s as [|c s IH]; simpl; [reflexivity | now rewrite IH]. Qed.

Lemma length_append (s t : string) :
  String.length (s ++ t) = (String.length s + String.length t)%nat.
Proof. induction s as [|c s IH]; simpl; [reflexivity | now rewrite IH]. Qed.

End Append.

(** ** The lines a client reads *)

Section Lines.
Import PyStr Island.

(** [drain] is the loop of the source:
    [while '\n' in buffer: line, buffer = buffer.split('\n', 1)]. *)
Lemma drain_loop buffer :
  drain buffer
  = match split_once newline buffer with
    | Some (line, rest) => let '(lines, remainder) := drain rest in
                           (line :: lines, remainder)
    | None => ([], buffer)
    end.
Proof.
  induction buffer as [|c rest IH]; [reflexivity|].
  simpl. destruct (Ascii.eqb c newline).
  - now destruct (drain rest).
  - rewrite IH. destruct (split_once newline rest) as [[line after]|].
    + now destruct (drain after).
    + reflexivity.
Qed.

Lemma drain_remainder buffer :
  split_once newline (snd (drain buffer)) = None.
Proof.
  induction buffer as [|c rest IH]; [reflexivity|].
  simpl. destruct (drain rest) as [lines remainder]. simpl in IH.
  destruct (Ascii.eqb c newline) eqn:Hc; [exact IH|].
  destruct lines; simpl; [now rewrite Hc, IH | exact IH].
Qed.

Lemma drain_app s t :
  drain (s ++ t)
  = let '(lines, remainder) := drain s in
    let '(more, remainder') := drain (remainder ++ t) in
    ((lines ++ more)%list, remainder').
Proof.
  induction s as [|c s IH]; simpl.
  - now destruct (drain t).
  - rewrite IH. destruct (drain s) as [lines remainder].
    destruct (Ascii.eqb c newline) eqn:Hc.
    + now destruct (drain (remainder ++ t)).
    + destruct lines as [|line lines]; simpl.
      * rewrite Hc. now destruct (drain (remainder ++ t)) as [[|m more] r].
      * now destruct (drain (remainder ++ t)).
Qed.

Lemma stream_app chunks chunks' :
  stream (chunks ++ chunks') = stream chunks ++ stream chunks'.
Proof.
  induction chunks as [|data chunks IH]; simpl; [reflexivity|].
  now rewrite IH, append_assoc.
Qed.

Lemma hand_over_app loads stops lines more :
  hand_over loads stops (lines ++ more)
  = let '(handed, goes_on) := hand_over loads stops lines in
    if goes_on then
      let '(handed', goes_on') := hand_over loads stops more in
      ((handed ++ handed')%list, goes_on')
    else (handed, false).
Proof.
  induction lines as [|line lines IH]; simpl.
  - now destruct (hand_over loads stops more).
  - destruct (nonblank line); [|exact IH].
    destruct (loads line || negb stops); [|reflexivity].
    rewrite IH. destruct (hand_over loads stops lines) as [handed goes_on].
    destruct goes_on; [|reflexivity].
    now destruct (hand_over loads stops more).
Qed.

(** Where no line makes the loops stop, every line that is not blank is
    handed over. *)
Lemma hand_over_all loads stops lines :
  (stops = true -> Forall (fun line => loads line = true) (filter nonblank lines)) ->
  hand_over loads stops lines = (filter nonblank lines, true).
Proof.
  induction lines as [|line lines IH]; simpl; [reflexivity|]. intros Hall.
  destruct (nonblank line) eqn:Hline; [|exact (IH Hall)].
  assert (Hgoes : loads line || negb stops = true).
  { destruct stops; [|now rewrite orb_true_r].
    specialize (Hall eq_refl). inversion Hall as [|? ? Hl _]. now rewrite Hl. }
  rewrite Hgoes, IH; [reflexivity|].
  intros Hstops. specialize (Hall Hstops). now inversion Hall.
Qed.

(** What the loop hands over depends on the text received, not on how
    [recv] has cut it. *)
Lemma listen_spec i loads chunks :
  Forall (fun data => data <> "") chunks ->
  forall buffer,
    split_once newline buffer = None ->
    listen_for_updates i loads (map Text chunks) buffer
    = fst (hand_over loads (stops_at_bad_line i)
             (fst (drain (buffer ++ stream chunks)))).
Proof.
  induction 1 as [|data chunks Hdata _ IH]; intros buffer Hbuffer.
  - simpl. rewrite append_nil_r. now rewrite drain_loop, Hbuffer.
  - simpl. destruct data as [|c data]; [congruence|].
    replace (buffer ++ String c data ++ stream chunks)
      with ((buffer ++ String c data) ++ stream chunks)
      by (now rewrite append_assoc).
    rewrite (drain_app (buffer ++ String c data)).
    pose proof (drain_remainder (buffer ++ String c data)) as Hrem.
    destruct (drain (buffer ++ String c data)) as [lines remainder].
    simpl in Hrem. rewrite (IH remainder Hrem).
    destruct (drain (remainder ++ stream chunks)) as [more remainder'].
    cbn [fst]. rewrite hand_over_app.
    destruct (hand_over loads (stops_at_bad_line i) lines) as [handed goes_on].
    destruct goes_on; [|reflexivity].
    now destruct (hand_over loads (stops_at_bad_line i) more).
Qed.

(** X1.  For each of the four islands and whatever [json.loads] accepts:
    when every result of [recv] decodes on its own, two ways of cutting
    the same text into non-empty chunks hand the same lines to
    [json.loads], in the same order; and what follows an empty result,
    the end of the connection, or a result that does not decode, is not
    read. *)
Theorem listen_rechunk :
  forall i loads,
    (forall chunks chunks',
       Forall (fun data => data <> "") chunks ->
       Forall (fun data => data <> "") chunks' ->
       stream chunks = stream chunks' ->
       listen_for_updates i loads (map Text chunks) ""
       = listen_for_updates i loads (map Text chunks') "")
    /\ (forall chunks last later,
          Forall (fun data => data <> "") chunks ->
          last = Text "" \/ last = NotUtf8 ->
          listen_for_updates i loads (map Text chunks ++ last :: later) ""
          = listen_for_updates i loads (map Text chunks) "").
Proof.
  intros i loads. split.
  - intros chunks chunks' H H' Hsame.
    rewrite (listen_spec i loads chunks H "" eq_refl),
      (listen_spec i loads chunks' H' "" eq_refl).
    simpl. now rewrite Hsame.
  - intros chunks last later H Hlast.
    assert (Hgen : forall buffer,
              listen_for_updates i loads (map Text chunks ++ last :: later) buffer
              = listen_for_updates i loads (map Text chunks) buffer).
    { induction H as [|data chunks Hdata _ IH]; intros buffer.
      - now destruct Hlast as [-> | ->].
      - simpl. destruct data; [congruence|].
        destruct (drain (buffer ++ String a data)) as [lines remainder].
        now rewrite IH. }
    apply Hgen.
Qed.

Lemma listen_rechunk_witness :
  listen_for_updates battery_island (fun _ => true)
    [Text "{}"; Text "
[1"; Text "]
"] ""
  = listen_for_updates battery_island (fun _ => true)
      [Text "{}
["; Text "1]
"] "".
Proof.
  refine (proj1 (listen_rechunk battery_island (fun _ => true))
            ["{}"; "
[1"; "]
"] ["{}
["; "1]
"] _ _ eq_refl);
    repeat constructor; discriminate.
Defined.

(** A line without line feed, followed by one, is the first line read. *)
Lemma split_once_line line rest :
  contains Json.LF line = false ->
  split_once newline (line ++ String newline rest) = Some (line, rest).
Proof.
  induction line as [|c line IH]; intros Hline; [reflexivity|].
  change (contains Json.LF (String c line))
    with (Ascii.eqb newline c && true || contains Json.LF line) in Hline.
  apply orb_false_iff in Hline. destruct Hline as [Hc Hline].
  rewrite andb_true_r, Ascii.eqb_sym in Hc.
  simpl. rewrite Hc. now rewrite (IH Hline).
Qed.

Lemma nonblank_starts c s : isspace c = false -> nonblank (String c s) = true.
Proof.
  intros Hc. unfold nonblank, strip. simpl lstrip. rewrite Hc.
  simpl. destruct (rstrip s); [now rewrite Hc | reflexivity].
Qed.

(** The lines of a sequence of messages are the messages without their
    line feed. *)
Lemma drain_messages {A} (dumps : A -> string) snaps :
  (forall s, contains Json.LF (dumps s) = false) ->
  drain (stream (map (fun s => dumps s ++ Json.LF) snaps))
  = (map dumps snaps, "").
Proof.
  intros Hline. induction snaps as [|s snaps IH]; [reflexivity|].
  simpl map. simpl stream. rewrite drain_loop.
  rewrite append_assoc.
  change (Json.LF ++ stream (map (fun s0 => dumps s0 ++ Json.LF) snaps))
    with (String newline (stream (map (fun s0 => dumps s0 ++ Json.LF) snaps))).
  rewrite (split_once_line (dumps s) _ (Hline s)). now rewrite IH.
Qed.

Lemma listen_messages {A} (dumps : A -> string) i loads snaps chunks :
  (forall s, contains Json.LF (dumps s) = false) ->
  (forall s, nonblank (dumps s) = true) ->
  (stops_at_bad_line i = true ->
   Forall (fun line => loads line = true) (map dumps snaps)) ->
  Forall (fun data => data <> "") chunks ->
  stream chunks = stream (map (fun s => dumps s ++ Json.LF) snaps) ->
  listen_for_updates i loads (map Text chunks) "" = map dumps snaps.
Proof.
  intros Hline Hnonblank Hloads Hchunks Hsame.
  rewrite (listen_spec i loads chunks Hchunks "" eq_refl). simpl.
  rewrite Hsame, (drain_messages dumps snaps Hline). cbn [fst]. clear Hsame.
  assert (Hall : filter nonblank (map dumps snaps) = map dumps snaps).
  { clear Hloads. induction snaps as [|s snaps IH]; simpl; [reflexivity|].
    now rewrite Hnonblank, IH. }
  rewrite hand_over_all; [now rewrite Hall|]. now rewrite Hall.
Qed.

(** X2.  Whatever a service sends, snapshot after snapshot, and however
    the socket cuts it, the client hands to [json.loads] exactly the
    serialised snapshots, each once and in the order sent.  For the two
    islands that stop at a line [json.loads] rejects, this takes that
    [json.loads] accepts what [json.dumps] has written. *)
Theorem islands_read_every_message :
  forall i loads chunks,
    Forall (fun data => data <> "") chunks ->
    (forall snaps,
       (stops_at_bad_line i = true ->
        Forall (fun line => loads line = true) (map Time.dumps snaps)) ->
       stream chunks = stream (map (fun s => Time.dumps s ++ Json.LF) snaps) ->
       listen_for_updates i loads (map Text chunks) "" = map Time.dumps snaps)
    /\ (forall snaps,
          (stops_at_bad_line i = true ->
           Forall (fun line => loads line = true) (map Combined.dumps snaps)) ->
          stream chunks = stream (map (fun s => Combined.dumps s ++ Json.LF) snaps) ->
          listen_for_updates i loads (map Text chunks) "" = map Combined.dumps snaps)
    /\ (forall snaps,
          (stops_at_bad_line i = true ->
           Forall (fun line => loads line = true) (map Window.dumps snaps)) ->
          stream chunks = stream (map (fun s => Window.dumps s ++ Json.LF) snaps) ->
          listen_for_updates i loads (map Text chunks) "" = map Window.dumps snaps).
Proof.
  intros i loads chunks Hchunks.
  destruct messages_are_single_lines as [Htime [Hcombined Hwindow]].
  split; [|split]; intros snaps Hloads Hsame.
  - apply listen_messages; auto. intros s. now apply nonblank_starts.
  - apply listen_messages; auto. intros s. now apply nonblank_starts.
  - apply listen_messages; auto. intros s. now apply nonblank_starts.
Qed.

Lemma islands_read_every_message_witness :
  let snaps := [Time.get_formatted_time Time.monday_1405;
                Time.get_formatted_time Time.monday_1406] in
  let text := stream (map (fun s => Time.dumps s ++ Json.LF) snaps) in
  let chunks := [substring 0 40 text; substring 40 100 text;
                 substring 140 (String.length text - 140) text] in
  listen_for_updates time_island (fun _ => true) (map Text chunks) ""
  = map Time.dumps snaps.
Proof.
  intros snaps text chunks.
  refine (proj1 (islands_read_every_message time_island (fun _ => true) chunks _)
            snaps _ _).
  - repeat constructor; vm_compute; discriminate.
  - discriminate.
  - vm_compute. reflexivity.
Defined.

End Lines.

(** ** The battery label *)

Section BatteryLabel.
Import Py BatteryIsland.

Lemma append_nonempty s c t : s ++ String c t <> "".
Proof. destruct s; discriminate. Qed.

(** X3.  [_format_time] gives the empty text exactly for an unknown or
    non-positive time.  For a positive time it gives whole hours and
    minutes, the minutes below 60 and the seconds rounded down to the
    minute; the hours are left out when there are none. *)
Theorem format_time_hours_minutes :
  (forall seconds,
     _format_time seconds = ""
     <-> seconds = None \/ exists s, seconds = Some s /\ s <= 0)
  /\ (forall s,
        0 < s ->
        exists hours minutes,
          0 <= hours /\ 0 <= minutes < 60
          /\ 3600 * hours + 60 * minutes <= s < 3600 * hours + 60 * minutes + 60
          /\ _format_time (Some s)
             = (if 0 <? hours then Json.of_int hours ++ "h " else "")
               ++ Json.of_int minutes ++ "m").
Proof.
  split.
  - intros [s|]; simpl.
    + destruct (s <=? 0) eqn:Hs.
      * split; [intros _; right; exists s; split; [reflexivity | lia] | reflexivity].
      * split.
        -- destruct (0 <? s / 3600); intros H; exfalso;
             exact (append_nonempty _ _ _ H).
        -- intros [H | [s' [H Hs']]]; [discriminate|]. injection H as <-. lia.
    + split; [now left | reflexivity].
  - intros s Hs. exists (s / 3600), ((s mod 3600) / 60).
    pose proof (Z.div_mod s 3600 ltac:(lia)) as Hdiv.
    pose proof (Z.mod_pos_bound s 3600 ltac:(lia)) as Hmod.
    pose proof (Z.div_mod (s mod 3600) 60 ltac:(lia)) as Hdiv'.
    pose proof (Z.mod_pos_bound (s mod 3600) 60 ltac:(lia)) as Hmod'.
    assert (0 <= s / 3600) by (apply Z.div_pos; lia).
    assert (0 <= (s mod 3600) / 60 < 60)
      by (split; [apply Z.div_pos; lia | apply Z.div_lt_upper_bound; lia]).
    repeat split; try lia.
    simpl. replace (s <=? 0) with false by (symmetry; apply Z.leb_gt; lia).
    destruct (0 <? s / 3600); [now rewrite !append_assoc | reflexivity].
Qed.

Lemma format_time_hours_minutes_witness :
  exists hours minutes,
    0 <= hours /\ 0 <= minutes < 60
    /\ 3600 * hours + 60 * minutes <= 5430 < 3600 * hours + 60 * minutes + 60
    /\ _format_time (Some 5430)
       = (if 0 <? hours then Json.of_int hours ++ "h " else "")
         ++ Json.of_int minutes ++ "m".
Proof. apply (proj2 format_time_hours_minutes 5430). reflexivity. Defined.

Lemma icon_index_in_list percentage index :
  icon_index percentage = Ok index -> 0 <= index <= 9.
Proof.
  unfold icon_index. destruct (truediv percentage 10) as [q|e]; [|discriminate].
  simpl. destruct (int_of_float q) as [tenth|e]; [|discriminate].
  simpl. intros H. injection H as <-. lia.
Qed.

(** X4.  The battery glyph: the charging glyph when charging, whatever
    the level; otherwise the full glyph from 100 up, and below it the
    glyph of the decade, [BATTERY_ICONS[percentage // 10]]; the list is
    never indexed outside its ten glyphs. *)
Theorem battery_icon_by_decade :
  (forall percentage,
     _get_battery_icon percentage true = Glyph BATTERY_ICON_CHARGING)
  /\ (forall percentage,
        100 <= percentage ->
        _get_battery_icon percentage false = Glyph BATTERY_ICON_FULL)
  /\ (forall percentage,
        0 <= percentage < 100 ->
        exists glyph,
          nth_error BATTERY_ICONS (Z.to_nat (percentage / 10)) = Some glyph
          /\ _get_battery_icon percentage false = Glyph glyph)
  /\ (forall percentage is_charging,
        _get_battery_icon percentage is_charging <> IndexError).
Proof.
  split; [reflexivity|]. split; [|split].
  - intros p Hp. unfold _get_battery_icon.
    now replace (100 <=? p) with true by (symmetry; apply Z.leb_le; lia).
  - intros p Hp.
    assert (Hall :
      forallb
        (fun n =>
           let p := Z.of_nat n in
           match nth_error BATTERY_ICONS (Z.to_nat (p / 10)),
                 _get_battery_icon p false with
           | Some glyph, Glyph glyph' => N.eqb glyph glyph'
           | _, _ => false
           end)
        (seq 0 100) = true) by (vm_compute; reflexivity).
    rewrite forallb_forall in Hall. specialize (Hall (Z.to_nat p)).
    rewrite Z2Nat.id in Hall by lia. cbv zeta in Hall.
    assert (Hin : In (Z.to_nat p) (seq 0 100)) by (apply in_seq; lia).
    specialize (Hall Hin).
    destruct (nth_error BATTERY_ICONS (Z.to_nat (p / 10))) as [glyph|];
      [|discriminate].
    destruct (_get_battery_icon p false) as [glyph'| |e]; try discriminate.
    apply N.eqb_eq in Hall. subst glyph'. now exists glyph.
  - intros p c. unfold _get_battery_icon.
    destruct c; [discriminate|]. destruct (100 <=? p); [discriminate|].
    destruct (icon_index p) as [index|e] eqn:Hindex; [|discriminate].
    apply icon_index_in_list in Hindex.
    destruct (nth_error BATTERY_ICONS (Z.to_nat index)) eqn:Hnth; [discriminate|].
    apply nth_error_None in Hnth. simpl in Hnth. lia.
Qed.

Lemma battery_icon_by_decade_witness :
  _get_battery_icon 100 false = Glyph BATTERY_ICON_FULL
  /\ exists glyph,
       nth_error BATTERY_ICONS (Z.to_nat (29 / 10)) = Some glyph
       /\ _get_battery_icon 29 false = Glyph glyph.
Proof.
  destruct battery_icon_by_decade as [_ [Hfull [Hdecade _]]]. split.
  - apply Hfull. discriminate.
  - apply Hdecade. split; [discriminate | reflexivity].
Defined.

End BatteryLabel.

(** ** The window title *)

Section WindowTitle.
Import WindowIsland.

Lemma length_take n s : String.length (take n s) = Nat.min n (String.length s).
Proof.
  revert s; induction n as [|n IH]; intros s; [reflexivity|].
  destruct s as [|c s]; simpl; [reflexivity | now rewrite IH].
Qed.

Lemma take_app n s t :
  (n <= String.length s)%nat -> take n (s ++ t) = take n s.
Proof.
  revert s; induction n as [|n IH]; intros s Hn; [reflexivity|].
  destruct s as [|c s]; simpl in *; [lia|]. rewrite IH; [reflexivity | lia].
Qed.

Lemma take_take n s : take n (take n s) = take n s.
Proof.
  revert s; induction n as [|n IH]; intros s; [reflexivity|].
  destruct s as [|c s]; simpl; [reflexivity | now rewrite IH].
Qed.

(** X5.  The title the window island shows is at most 70 characters
    long: a title of up to 70 characters is shown as it is, a longer one
    as its first 67 characters and three dots; shortening a shown title
    again changes nothing. *)
Theorem shown_title_at_most_70 :
  forall title,
    (String.length (shown_title title) <= 70)%nat
    /\ ((String.length title <= 70)%nat -> shown_title title = title)
    /\ ((70 < String.length title)%nat ->
        shown_title title = take 67 title ++ "..."
        /\ String.length (shown_title title) = 70%nat
        /\ take 67 (shown_title title) = take 67 title)
    /\ shown_title (shown_title title) = shown_title title.
Proof.
  intros title. unfold shown_title.
  destruct (70 <? String.length title)%nat eqn:Hlong.
  - apply Nat.ltb_lt in Hlong.
    assert (Hlen : String.length (take 67 title ++ "...") = 70%nat).
    { rewrite length_append, length_take.
      change (String.length "...") with 3%nat. lia. }
    split; [lia|]. split; [lia|]. split.
    + intros _. split; [reflexivity|]. split; [exact Hlen|].
      rewrite take_app; [apply take_take | rewrite length_take; lia].
    + rewrite Hlen. reflexivity.
  - rewrite Hlong. apply Nat.ltb_ge in Hlong.
    split; [lia|]. split; [reflexivity|]. split; [lia|]. reflexivity.
Qed.

End WindowTitle.

Section WindowTitleWitness.
Import WindowIsland.

Lemma shown_title_at_most_70_witness :
  let long := "Release notes for the next version and a list of what is left to do - Mozilla Firefox" in
  shown_title "Terminal" = "Terminal"
  /\ shown_title long = take 67 long ++ "..."
  /\ String.length (shown_title long) = 70%nat.
Proof.
  intros long.
  destruct (shown_title_at_most_70 "Terminal") as [_ [Hshort _]].
  destruct (shown_title_at_most_70 long) as [_ [_ [Hlong _]]].
  split; [apply Hshort; vm_compute; lia|].
  assert (H : (70 < String.length long)%nat) by (vm_compute; lia).
  destruct (Hlong H) as [Heq [Hlen _]]. split; assumption.
Defined.

End WindowTitleWitness.

(** ** The workspace buttons *)

Section WorkspaceButtons.
Import Window WorkspaceIsland.

Lemma insert_ws_perm ws l : Permutation (ws :: l) (WorkspaceIsland.insert_by_id ws l).
Proof.
  induction l as [|x l IH]; simpl; [apply Permutation_refl|].
  destruct (id_or_special ws <=? id_or_special x); [apply Permutation_refl|].
  eapply Permutation_trans; [apply perm_swap | apply perm_skip, IH].
Qed.

Lemma sorted_ws_perm l : Permutation l (sorted_by_id l).
Proof.
  induction l as [|ws l IH]; simpl; [constructor|].
  eapply Permutation_trans; [apply perm_skip, IH | apply insert_ws_perm].
Qed.

Lemma insert_ws_sorted ws l :
  Sorted by_id l -> Sorted by_id (WorkspaceIsland.insert_by_id ws l).
Proof.
  induction 1 as [|x l Hs IH Hhd]; simpl; [repeat constructor|].
  destruct (id_or_special ws <=? id_or_special x) eqn:Hle.
  - constructor; [constructor; assumption | constructor; unfold by_id; lia].
  - constructor; [exact IH|].
    destruct l as [|y l]; simpl; [constructor; unfold by_id; lia|].
    destruct (id_or_special ws <=? id_or_special y);
      constructor; [unfold by_id; lia | now inversion Hhd].
Qed.

Lemma sorted_ws_sorted l : Sorted by_id (sorted_by_id l).
Proof.
  induction l as [|ws l IH]; simpl; [constructor | now apply insert_ws_sorted].
Qed.

(** Sorting what is sorted changes nothing. *)
Lemma sorted_ws_fixpoint l : Sorted by_id l -> sorted_by_id l = l.
Proof.
  induction 1 as [|x l Hs IH Hhd]; simpl; [reflexivity|].
  rewrite IH. destruct Hhd as [|y l Hxy]; simpl; [reflexivity|].
  unfold by_id in Hxy.
  now replace (id_or_special x <=? id_or_special y) with true
    by (symmetry; apply Z.leb_le; exact Hxy).
Qed.

Lemma filter_all {A} (f : A -> bool) l :
  Forall (fun x => f x = true) l -> filter f l = l.
Proof.
  induction 1 as [|x l Hx _ IH]; simpl; [reflexivity|]. now rewrite Hx, IH.
Qed.

Lemma by_id_trans : Relations_1.Transitive by_id.
Proof. intros a b c. unfold by_id. lia. Qed.

Lemma sorted_map_ids l :
  Sorted by_id l -> StronglySorted Z.le (map id_or_special l).
Proof.
  intros Hs. apply Sorted_StronglySorted in Hs; [|exact by_id_trans].
  induction Hs as [|x l _ IH Hall]; simpl; constructor; [exact IH|].
  apply Forall_map. exact Hall.
Qed.

(** X6.  The ids the workspace island keeps for scrolling are the
    non-negative ids of the list it was given, in ascending order.  A
    list that is already in ascending order without negative ids is kept
    as it is; such is the list the window service sends, so the island
    shows the workspaces in the order of the service. *)
Theorem island_workspace_order :
  (forall workspaces_data,
     let ids := ordered_workspace_ids workspaces_data in
     StronglySorted Z.le ids
     /\ Forall (fun i => 0 <= i) ids
     /\ Permutation
          (map id_or_special
             (filter (fun ws => 0 <=? id_or_special ws) workspaces_data))
          ids)
  /\ (forall workspaces_data,
        Sorted by_id workspaces_data ->
        Forall (fun ws => 0 <= id_or_special ws) workspaces_data ->
        valid_workspaces_data workspaces_data = workspaces_data)
  /\ (forall items,
        let exposed := get_hyprland_all_workspaces_list (JsonList items) in
        valid_workspaces_data (map decoded exposed) = map decoded exposed
        /\ ordered_workspace_ids (map decoded exposed) = map id exposed).
Proof.
  assert (Hkept : forall workspaces_data,
            Sorted by_id workspaces_data ->
            Forall (fun ws => 0 <= id_or_special ws) workspaces_data ->
            valid_workspaces_data workspaces_data = workspaces_data).
  { intros data Hsorted Hvalid. unfold valid_workspaces_data.
    rewrite filter_all; [now apply sorted_ws_fixpoint|].
    eapply Forall_impl; [|exact Hvalid]. intros ws Hws. now apply Z.leb_le. }
  split; [|split; [exact Hkept|]].
  - intros data ids. unfold ids, ordered_workspace_ids, valid_workspaces_data.
    split; [apply sorted_map_ids, sorted_ws_sorted|]. split.
    + apply Forall_map, Forall_forall. intros ws Hws.
      apply (Permutation_in _ (Permutation_sym (sorted_ws_perm _))) in Hws.
      apply filter_In in Hws. destruct Hws as [_ Hws]. now apply Z.leb_le.
    + apply Permutation_map, sorted_ws_perm.
  - intros items exposed.
    assert (Hexposed : exposed = sort_by_id (filter_workspaces items)).
    { unfold exposed. now destruct items. }
    assert (Hsorted : Sorted by_id (map decoded exposed)).
    { rewrite Hexposed.
      generalize (sort_by_id_sorted (filter_workspaces items)).
      generalize (sort_by_id (filter_workspaces items)). clear.
      intros l Hs. induction Hs as [|e l _ IH Hhd]; simpl; constructor; [exact IH|].
      destruct Hhd as [|e' l Hle]; simpl; constructor. exact Hle. }
    assert (Hvalid : Forall (fun ws => 0 <= id_or_special ws) (map decoded exposed)).
    { rewrite Hexposed. apply Forall_map, Forall_forall. intros e He.
      apply (Permutation_in _ (Permutation_sym (sort_by_id_perm _))) in He.
      rewrite filter_workspaces_spec in He. apply in_map_iff in He.
      destruct He as [ws [<- Hws]]. apply filter_In in Hws.
      destruct Hws as [_ Hns]. unfold non_special in Hns. simpl.
      now apply Z.leb_le. }
    split; [now apply Hkept|].
    unfold ordered_workspace_ids. rewrite (Hkept _ Hsorted Hvalid).
    rewrite map_map. reflexivity.
Qed.

Lemma island_workspace_order_witness :
  let data := [ {| ws_id := Some 1; ws_name := Some "1"; ws_windows := Some 2 |};
                {| ws_id := Some 4; ws_name := Some "4"; ws_windows := Some 0 |} ] in
  valid_workspaces_data data = data.
Proof.
  intros data. apply (proj1 (proj2 island_workspace_order)).
  - repeat constructor. unfold by_id, id_or_special. simpl. lia.
  - repeat constructor; unfold id_or_special; simpl; lia.
Defined.

(** *** Scrolling *)

Lemma index_In x l i : index x l = Some i -> nth_error l i = Some x.
Proof.
  revert i; induction l as [|y l IH]; intros i; simpl; [discriminate|].
  destruct (y =? x) eqn:Hy.
  - intros H. injection H as <-. apply Z.eqb_eq in Hy. now subst.
  - destruct (index x l) as [j|]; [|discriminate].
    intros H. injection H as <-. now apply IH.
Qed.

Lemma index_middle x before after :
  ~ In x before -> index x (before ++ x :: after) = Some (List.length before).
Proof.
  induction before as [|y before IH]; simpl; intros Hx.
  - now rewrite Z.eqb_refl.
  - destruct (y =? x) eqn:Hy; [apply Z.eqb_eq in Hy; tauto|].
    rewrite IH; tauto.
Qed.

Lemma nth_error_middle {A} (before : list A) x after :
  nth_error (before ++ x :: after) (List.length before) = Some x.
Proof. induction before as [|y before IH]; simpl; [reflexivity | exact IH]. Qed.

Lemma scrolls_up dy : (dy < 0)%Q -> Qle_bool 0 dy = false.
Proof.
  intros H. destruct (Qle_bool 0 dy) eqn:Hle; [|reflexivity].
  apply Qle_bool_iff in Hle. exfalso. exact (Qle_not_lt _ _ Hle H).
Qed.

Lemma scrolls_down dy : (0 < dy)%Q -> Qle_bool 0 dy = true /\ Qle_bool dy 0 = false.
Proof.
  intros H. split.
  - apply Qle_bool_iff, Qlt_le_weak, H.
  - destruct (Qle_bool dy 0) eqn:Hle; [|reflexivity].
    apply Qle_bool_iff in Hle. exfalso. exact (Qle_not_lt _ _ Hle H).
Qed.

(** X7.  [on_scroll] only ever switches to a workspace of its list;
    nothing happens without workspaces, without an active workspace, with
    an active workspace that is not in the list, on the first workspace
    when scrolling up, and when the wheel has not moved; a new workspace
    is asked for only on the last one. *)
Theorem scroll_stays_in_list :
  (forall ids active dy target,
     on_scroll ids active dy = SwitchTo target -> In target ids)
  /\ (forall ids active dy,
        on_scroll ids active dy = CreateNext ->
        exists a, active = Some a
                  /\ index a ids = Some (List.length ids - 1)%nat
                  /\ (0 < dy)%Q)
  /\ (forall active dy, on_scroll [] active dy = Nothing)
  /\ (forall ids dy, on_scroll ids None dy = Nothing)
  /\ (forall ids a dy, index a ids = None -> on_scroll ids (Some a) dy = Nothing)
  /\ (forall a rest dy, (dy < 0)%Q -> on_scroll (a :: rest) (Some a) dy = Nothing)
  /\ (forall ids active dy, (dy == 0)%Q -> on_scroll ids active dy = Nothing).
Proof.
  split; [|split; [|split; [|split; [|split; [|split]]]]].
  - intros ids active dy target. unfold on_scroll.
    destruct ids as [|i ids]; [discriminate|]. destruct active as [a|]; [|discriminate].
    destruct (index a (i :: ids)) as [k|]; [|discriminate].
    destruct (negb (Qle_bool 0 dy)).
    + destruct k as [|k]; [discriminate|].
      destruct (nth_error (i :: ids) k) eqn:Hk; [|discriminate].
      intros H. injection H as <-. eapply nth_error_In, Hk.
    + destruct (negb (Qle_bool dy 0)); [|discriminate].
      destruct (Nat.eqb k _); [discriminate|].
      destruct (nth_error (i :: ids) (S k)) eqn:Hk; [|discriminate].
      intros H. injection H as <-. eapply nth_error_In, Hk.
  - intros ids active dy. unfold on_scroll.
    destruct ids as [|i ids]; [discriminate|]. destruct active as [a|]; [|discriminate].
    destruct (index a (i :: ids)) as [k|] eqn:Hindex; [|discriminate].
    destruct (Qle_bool 0 dy) eqn:Hup; simpl.
    + destruct (Qle_bool dy 0) eqn:Hdown; simpl; [discriminate|].
      destruct (Nat.eqb k _) eqn:Hk.
      * intros _. exists a. apply Nat.eqb_eq in Hk. subst k.
        split; [reflexivity|]. split; [exact Hindex|].
        apply Qnot_le_lt. intros Hle. apply Qle_bool_iff in Hle. congruence.
      * destruct (nth_error _ _); discriminate.
    + destruct k; [discriminate|]. destruct (nth_error _ _); discriminate.
  - reflexivity.
  - intros [|i ids] dy; reflexivity.
  - intros [|i ids] a dy H; [reflexivity|]. unfold on_scroll. now rewrite H.
  - intros a rest dy Hdy. unfold on_scroll. simpl index. rewrite Z.eqb_refl.
    now rewrite (scrolls_up dy Hdy).
  - intros ids active dy Hdy. unfold on_scroll.
    destruct ids as [|i ids]; [reflexivity|]. destruct active as [a|]; [|reflexivity].
    destruct (index a (i :: ids)); [|reflexivity].
    assert (H1 : Qle_bool 0 dy = true) by (apply Qle_bool_iff; rewrite Hdy; apply Qle_refl).
    assert (H2 : Qle_bool dy 0 = true) by (apply Qle_bool_iff; rewrite Hdy; apply Qle_refl).
    now rewrite H1, H2.
Qed.

Lemma scroll_stays_in_list_witness :
  on_scroll [1; 2; 5] (Some 1) (-1 # 1) = Nothing
  /\ on_scroll [1; 2; 5] (Some 7) (1 # 1) = Nothing
  /\ on_scroll [1; 2; 5] (Some 2) (0 # 3) = Nothing.
Proof.
  destruct scroll_stays_in_list as [_ [_ [_ [_ [Hunknown [Hfirst Hstill]]]]]].
  split; [apply Hfirst; reflexivity|].
  split; [apply Hunknown; reflexivity | apply Hstill; reflexivity].
Defined.

(** X8.  On a list without repeated ids, scrolling down from a workspace
    switches to the next one of the list and scrolling up from that one
    switches back; scrolling down on the last workspace asks for a new
    one. *)
Theorem scroll_neighbours :
  forall before a b after dy_up dy_down,
    NoDup (before ++ a :: b :: after) ->
    (dy_up < 0)%Q -> (0 < dy_down)%Q ->
    on_scroll (before ++ a :: b :: after) (Some a) dy_down = SwitchTo b
    /\ on_scroll (before ++ a :: b :: after) (Some b) dy_up = SwitchTo a
    /\ (after = [] ->
        on_scroll (before ++ a :: b :: after) (Some b) dy_down = CreateNext).
Proof.
  intros before a b after dy_up dy_down Hnodup Hup Hdown.
  destruct (scrolls_down dy_down Hdown) as [Hd1 Hd2].
  pose proof (scrolls_up dy_up Hup) as Hu.
  assert (Ha : ~ In a before).
  { intros Hin. apply NoDup_remove_2 in Hnodup. apply Hnodup.
    apply in_or_app. now left. }
  assert (Hb : ~ In b (before ++ [a])).
  { replace (before ++ a :: b :: after)%list
      with ((before ++ [a]) ++ b :: after)%list in Hnodup
      by (now rewrite <- app_assoc).
    intros Hin. apply NoDup_remove_2 in Hnodup. apply Hnodup.
    apply in_or_app. now left. }
  assert (Hia : index a (before ++ a :: b :: after) = Some (List.length before))
    by (now apply index_middle).
  assert (Hib : index b (before ++ a :: b :: after) = Some (S (List.length before))).
  { replace (before ++ a :: b :: after)%list
      with ((before ++ [a]) ++ b :: after)%list by (now rewrite <- app_assoc).
    rewrite (index_middle b _ after Hb), length_app. simpl. f_equal. lia. }
  assert (Hlen : List.length (before ++ a :: b :: after)
                 = S (S (List.length before + List.length after)))
    by (rewrite length_app; simpl; lia).
  assert (Hnonempty : exists x l, (before ++ a :: b :: after)%list = x :: l)
    by (destruct before; simpl; eauto).
  destruct Hnonempty as [x [l Hl]].
  split; [|split].
  - unfold on_scroll. rewrite Hl, <- Hl, Hia, Hd1, Hd2. simpl negb. cbv iota.
    rewrite Hlen.
    replace (Nat.eqb (List.length before) _) with false
      by (symmetry; apply Nat.eqb_neq; lia).
    replace (nth_error (before ++ a :: b :: after) (S (List.length before)))
      with (Some b); [reflexivity|].
    symmetry. replace (before ++ a :: b :: after)%list
      with ((before ++ [a]) ++ b :: after)%list by (now rewrite <- app_assoc).
    replace (S (List.length before)) with (List.length (before ++ [a]))
      by (rewrite length_app; simpl; lia).
    apply nth_error_middle.
  - unfold on_scroll. rewrite Hl, <- Hl, Hib, Hu. simpl negb. cbv iota.
    rewrite nth_error_middle. reflexivity.
  - intros ->. unfold on_scroll. rewrite Hl, <- Hl, Hib, Hd1, Hd2. simpl negb.
    cbv iota. rewrite Hlen. simpl List.length.
    now replace (Nat.eqb (S (List.length before)) _) with true
      by (symmetry; apply Nat.eqb_eq; lia).
Qed.

Lemma scroll_neighbours_witness :
  on_scroll [1; 2; 5] (Some 2) (1 # 1) = SwitchTo 5
  /\ on_scroll [1; 2; 5] (Some 5) (-1 # 1) = SwitchTo 2
  /\ on_scroll [1; 2; 5] (Some 5) (1 # 1) = CreateNext.
Proof.
  assert (Hnodup : NoDup ([1] ++ 2 :: 5 :: [])).
  { repeat constructor; simpl; intros H; intuition discriminate. }
  destruct (scroll_neighbours [1] 2 5 [] (-1 # 1) (1 # 1) Hnodup eq_refl eq_refl)
    as [Hdown [Hup Hlast]].
  split; [exact Hdown|]. split; [exact Hup | exact (Hlast eq_refl)].
Defined.

End WorkspaceButtons.

(** ** The tray *)

Section Tray.
Import PyStr Systray.

Lemma split_once_some sep s a b :
  Island.split_once sep s = Some (a, b) ->
  s = a ++ String sep b /\ contains (String sep "") a = false.
Proof.
  revert a b; induction s as [|c s IH]; intros a b; simpl; [discriminate|].
  destruct (Ascii.eqb c sep) eqn:Hc.
  - intros H. injection H as <- <-. apply Ascii.eqb_eq in Hc. subst c.
    split; reflexivity.
  - destruct (Island.split_once sep s) as [[a' b']|]; [|discriminate].
    intros H. injection H as <- <-. destruct (IH a' b' eq_refl) as [-> Hno].
    split; [reflexivity|]. simpl. rewrite Hno.
    rewrite Ascii.eqb_sym, Hc. reflexivity.
Qed.

Lemma split_once_none sep s :
  Island.split_once sep s = None <-> contains (String sep "") s = false.
Proof.
  induction s as [|c s IH]; simpl; [tauto|].
  rewrite (Ascii.eqb_sym sep c). destruct (Ascii.eqb c sep); simpl.
  - split; discriminate.
  - rewrite <- IH. destruct (Island.split_once sep s) as [[a b]|];
      split; congruence.
Qed.

(** X9.  The two D-Bus names kept on a tray button are the two halves of
    the item's path: for a path that starts with a colon and holds a
    slash, the service name is the text before the first slash (it starts
    with the colon and holds no slash) and the object path is the rest,
    from that slash on, so that the two put together give the path back;
    for every other path both names are None. *)
Theorem dbus_names_split_path :
  forall object_path,
    (startswith ":" object_path && contains "/" object_path = true ->
     exists service_name clean_object_path,
       dbus_names object_path = (Some service_name, Some clean_object_path)
       /\ object_path = service_name ++ clean_object_path
       /\ startswith ":" service_name = true
       /\ contains "/" service_name = false
       /\ startswith "/" clean_object_path = true)
    /\ (startswith ":" object_path && contains "/" object_path = false ->
        dbus_names object_path = (None, None)).
Proof.
  intros object_path. unfold dbus_names. split.
  - intros H. apply andb_true_iff in H. destruct H as [Hcolon Hslash].
    rewrite Hcolon.
    destruct (Island.split_once "/" object_path) as [[service rest]|] eqn:Hsplit.
    + destruct (split_once_some _ _ _ _ Hsplit) as [Hpath Hno].
      exists service, ("/" ++ rest). repeat split; try assumption.
      subst object_path. destruct service as [|c service]; [discriminate|].
      simpl in Hcolon |- *. exact Hcolon.
    + apply split_once_none in Hsplit. congruence.
  - intros H. apply andb_false_iff in H. destruct H as [Hcolon | Hslash].
    + now rewrite Hcolon.
    + destruct (startswith ":" object_path); [|reflexivity].
      apply split_once_none in Hslash. now rewrite Hslash.
Qed.

Lemma dbus_names_split_path_witness :
  dbus_names ":1.42/StatusNotifierItem"
    = (Some ":1.42", Some "/StatusNotifierItem")
  /\ dbus_names "org.kde.StatusNotifierItem-2-1" = (None, None).
Proof.
  destruct (dbus_names_split_path ":1.42/StatusNotifierItem") as [Hsplit _].
  destruct (dbus_names_split_path "org.kde.StatusNotifierItem-2-1") as [_ Hnone].
  split; [|apply Hnone; reflexivity].
  destruct (Hsplit eq_refl) as [service [clean [Hnames _]]].
  vm_compute in Hnames |- *. reflexivity.
Defined.

(** *** One button for each item *)

Lemma known_spec p s : known p s = true <-> In p (item_widgets s).
Proof.
  unfold known. rewrite existsb_exists. split.
  - intros [x [Hx Heq]]. apply String.eqb_eq in Heq. now subst.
  - intros H. exists p. split; [exact H | apply String.eqb_refl].
Qed.

Lemma existsb_last p l q :
  existsb (String.eqb p) (l ++ [q]) = existsb (String.eqb p) l || String.eqb q p.
Proof.
  rewrite existsb_app. simpl. now rewrite orb_false_r, (String.eqb_sym p q).
Qed.

Lemma existsb_absent p l :
  ~ In p l -> existsb (String.eqb p) l = false.
Proof.
  intros H. destruct (existsb (String.eqb p) l) eqn:He; [|reflexivity].
  exfalso. apply H. apply existsb_exists in He. destruct He as [x [Hx Heq]].
  apply String.eqb_eq in Heq. now subst.
Qed.

Lemma existsb_without p q l :
  NoDup l ->
  existsb (String.eqb p) (without q l)
  = existsb (String.eqb p) l && negb (String.eqb q p).
Proof.
  induction 1 as [|x l Hx Hl IH]; simpl; [reflexivity|].
  destruct (String.eqb q x) eqn:Hqx.
  - apply String.eqb_eq in Hqx. subst x. rewrite (String.eqb_sym p q).
    destruct (String.eqb q p) eqn:Hqp; simpl.
    + apply String.eqb_eq in Hqp. subst p.
      rewrite (existsb_absent _ _ Hx). reflexivity.
    + now rewrite andb_true_r.
  - simpl. rewrite IH. destruct (String.eqb p x) eqn:Hpx; simpl; [|reflexivity].
    apply String.eqb_eq in Hpx. subst x. now rewrite Hqx.
Qed.

Lemma without_In p q l : In p (without q l) -> In p l.
Proof.
  induction l as [|x l IH]; [simpl; tauto|].
  change (without q (x :: l))
    with (if String.eqb q x then l else x :: without q l).
  destruct (String.eqb q x); simpl; tauto.
Qed.

Lemma without_NoDup q l : NoDup l -> NoDup (without q l).
Proof.
  induction 1 as [|x l Hx Hl IH]; simpl; [constructor|].
  destruct (String.eqb q x); [exact Hl|].
  constructor; [|exact IH]. intros H. apply Hx. eapply without_In, H.
Qed.

Lemma without_last p l : ~ In p l -> without p (l ++ [p]) = l.
Proof.
  induction l as [|x l IH]; simpl; intros H.
  - now rewrite String.eqb_refl.
  - destruct (String.eqb p x) eqn:Hpx.
    + apply String.eqb_eq in Hpx. exfalso. apply H. left. now symmetry.
    + rewrite IH; [reflexivity | tauto].
Qed.

Lemma on_signal_well_formed s e : well_formed s -> well_formed (on_signal s e).
Proof.
  intros [Hnodup Hsame]. destruct e as [has_item p | p]; simpl.
  - unfold _on_item_added. destruct (negb has_item || known p s) eqn:Hskip;
      [now split|].
    apply orb_false_iff in Hskip. destruct Hskip as [_ Hnew].
    split; simpl; [|now rewrite Hsame].
    apply NoDup_app; [exact Hnodup | repeat constructor; simpl; tauto|].
    intros x Hx [<-|[]]. apply known_spec in Hx. congruence.
  - unfold _on_item_removed. destruct (known p s); [|now split].
    split; simpl; [now apply without_NoDup | now rewrite Hsame].
Qed.

Lemma on_signal_known p s e :
  NoDup (item_widgets s) ->
  known p (on_signal s e)
  = match e with
    | ItemAdded has_item q => known p s || (has_item && String.eqb q p)
    | ItemRemoved q => known p s && negb (String.eqb q p)
    end.
Proof.
  intros Hnodup. destruct e as [has_item q | q]; simpl.
  - unfold _on_item_added. destruct has_item; simpl;
      [|now rewrite orb_false_r].
    destruct (known q s) eqn:Hq.
    + destruct (String.eqb q p) eqn:Hqp; [|now rewrite orb_false_r].
      apply String.eqb_eq in Hqp. subst q. now rewrite Hq.
    + unfold known. simpl. apply existsb_last.
  - unfold _on_item_removed. destruct (known q s) eqn:Hq.
    + unfold known. simpl. now apply existsb_without.
    + destruct (String.eqb q p) eqn:Hqp; simpl; [|now rewrite andb_true_r].
      apply String.eqb_eq in Hqp. subst q. now rewrite Hq.
Qed.

Lemma signals_well_formed signals :
  forall s, well_formed s -> well_formed (fold_left on_signal signals s).
Proof.
  induction signals as [|e signals IH]; intros s Hs; simpl; [exact Hs|].
  apply IH, on_signal_well_formed, Hs.
Qed.

Lemma signals_known p signals :
  forall s, well_formed s ->
    known p (fold_left on_signal signals s) = present p signals (known p s).
Proof.
  induction signals as [|e signals IH]; intros s Hs; simpl; [reflexivity|].
  rewrite (IH _ (on_signal_well_formed s e Hs)).
  rewrite (on_signal_known p s e (proj1 Hs)). now destruct e.
Qed.

(** X10.  Whatever signals the tray sends, the island never shows an item
    twice and its box holds exactly the widgets of its dict; an item has
    a button exactly when the signals about that very item say so: some
    signal added it while the tray had it and no later signal removed it.
    Removing an item just added gives the island back. *)
Theorem tray_shows_each_item_once :
  (forall signals,
     let s := fold_left on_signal signals empty in
     NoDup (children s)
     /\ children s = item_widgets s
     /\ forall object_path,
          In object_path (children s) <-> present object_path signals false = true)
  /\ (forall signals object_path,
        let s := fold_left on_signal signals empty in
        known object_path s = false ->
        _on_item_removed object_path (_on_item_added true object_path s) = s).
Proof.
  assert (Hempty : well_formed empty) by (split; [constructor | reflexivity]).
  split.
  - intros signals s.
    destruct (signals_well_formed signals empty Hempty) as [Hnodup Hsame].
    fold s in Hnodup, Hsame. rewrite Hsame. split; [exact Hnodup|].
    split; [reflexivity|]. intros p. rewrite <- known_spec. unfold s.
    rewrite (signals_known p signals empty Hempty). reflexivity.
  - intros signals p s Hnew.
    destruct (signals_well_formed signals empty Hempty) as [Hnodup Hsame].
    fold s in Hnodup, Hsame.
    assert (Hin : ~ In p (item_widgets s)).
    { intros H. apply known_spec in H. congruence. }
    unfold _on_item_added. simpl negb. rewrite Hnew. simpl orb. cbv iota.
    unfold _on_item_removed, known. simpl item_widgets. simpl children.
    rewrite existsb_last, String.eqb_refl, orb_true_r.
    rewrite Hsame, (without_last p _ Hin). destruct s as [keys box].
    simpl in *. now subst box.
Qed.

Lemma tray_shows_each_item_once_witness :
  let s := fold_left on_signal [ItemAdded true ":1.5/a"; ItemAdded true ":1.5/a"] empty in
  _on_item_removed ":1.7/b" (_on_item_added true ":1.7/b" s) = s.
Proof.
  intros s.
  exact (proj2 tray_shows_each_item_once
           [ItemAdded true ":1.5/a"; ItemAdded true ":1.5/a"] ":1.7/b" eq_refl).
Defined.

End Tray.

(** ** The clock's strings *)

Section ClockStrings.
Import Io Time.

Lemma below_all (n : nat) (P : Z -> bool) :
  forallb (fun k => P (Z.of_nat k)) (seq 0 n) = true ->
  forall z, 0 <= z < Z.of_nat n -> P z = true.
Proof.
  intros Hall z Hz. rewrite forallb_forall in Hall.
  specialize (Hall (Z.to_nat z)). rewrite Z2Nat.id in Hall by lia.
  apply Hall, in_seq. lia.
Qed.







(** Python's [%] with a positive modulus is [Z.modulo]: the remainder is
    never negative.  The suffix depends on the day through its remainders
    by 10 and by 100 only. *)
Lemma ordinal_suffix_by_remainders day :
  get_ordinal_suffix day
  = if (day mod 10 =? 1) && negb (day mod 100 =? 11) then "st"
    else if (day mod 10 =? 2) && negb (day mod 100 =? 12) then "nd"
    else if (day mod 10 =? 3) && negb (day mod 100 =? 13) then "rd"
    else "th".
Proof.
  pose (rule := fun r =>
    String.eqb
      (if (10 <=? r) && (r <=? 20) then "th"
       else match r mod 10 with
            | 1 => "st" | 2 => "nd" | 3 => "rd" | _ => "th"
            end)
      (if (r mod 10 =? 1) && negb (r =? 11) then "st"
       else if (r mod 10 =? 2) && negb (r =? 12) then "nd"
       else if (r mod 10 =? 3) && negb (r =? 13) then "rd"
       else "th")).
  assert (Hall : forallb (fun k => rule (Z.of_nat k)) (seq 0 100) = true)
    by (vm_compute; reflexivity).
  assert (Hr : 0 <= day mod 100 < 100) by (apply Z.mod_pos_bound; lia).
  pose proof (below_all 100 rule Hall (day mod 100) Hr) as H.
  unfold rule in H. apply String.eqb_eq in H.
  assert (Hlast : (day mod 100) mod 10 = day mod 10).
  { pose proof (Z.div_mod day 100 ltac:(lia)).
    pose proof (Z.div_mod (day mod 100) 10 ltac:(lia)).
    pose proof (Z.div_mod day 10 ltac:(lia)).
    pose proof (Z.mod_pos_bound (day mod 100) 10 ltac:(lia)).
    pose proof (Z.mod_pos_bound day 10 ltac:(lia)). lia. }
  rewrite Hlast in H. unfold get_ordinal_suffix. exact H.
Qed.


(** X12.  For a day that is not negative, the suffix is the one of the
    English ordinal: "st", "nd" and "rd" after a last digit 1, 2 and 3,
    except for the numbers that end in 11, 12 and 13, and "th" for all
    the others; [last_digit] and [last_two] are the number made of the
    last decimal digit and of the last two. *)
Theorem ordinal_suffix_of_day :
  forall day last_digit last_two rest rest',
    0 <= day ->
    0 <= last_digit < 10 -> day = 10 * rest + last_digit ->
    0 <= last_two < 100 -> day = 100 * rest' + last_two ->
    get_ordinal_suffix day
    = if (last_digit =? 1) && negb (last_two =? 11) then "st"
      else if (last_digit =? 2) && negb (last_two =? 12) then "nd"
      else if (last_digit =? 3) && negb (last_two =? 13) then "rd"
      else "th".
Proof.
  intros day last_digit last_two rest rest' Hday Hdigit Hrest Htwo Hrest'.
  rewrite ordinal_suffix_by_remainders.
  assert (H10 : day mod 10 = last_digit).
  { symmetry. apply (Z.mod_unique_pos day 10 rest last_digit); assumption. }
  assert (H100 : day mod 100 = last_two).
  { symmetry. apply (Z.mod_unique_pos day 100 rest' last_two); assumption. }
  now rewrite H10, H100.
Qed.

Lemma ordinal_suffix_of_day_witness :
  get_ordinal_suffix 1 = "st" /\ get_ordinal_suffix 12 = "th"
  /\ get_ordinal_suffix 23 = "rd" /\ get_ordinal_suffix 111 = "th".
Proof.
  split; [|split; [|split]].
  - apply (ordinal_suffix_of_day 1 1 1 0 0); lia.
  - apply (ordinal_suffix_of_day 12 2 12 1 0); lia.
  - apply (ordinal_suffix_of_day 23 3 23 2 0); lia.
  - apply (ordinal_suffix_of_day 111 1 11 11 1); lia.
Defined.

End ClockStrings.

(** ** The battery record *)

Section BatteryRecord.
Import Py PyStr Combined.

Lemma positive_or_none_positive x t : positive_or_none x = Some t -> 0 < t.
Proof.
  unfold positive_or_none. destruct (0 <? x) eqn:H; [|discriminate].
  intros E. injection E as <-. now apply Z.ltb_lt.
Qed.

Lemma rate_time_positive files c rate level full t :
  rate_time files c rate level full = Some (Some t) -> 0 < t.
Proof.
  unfold rate_time.
  destruct (has_path (files rate) && has_path (files level)); [|discriminate].
  destruct (read_int (files rate)) as [rate_now|e]; [|discriminate].
  destruct (read_int (files level)) as [level_now|e]; [|discriminate].
  cbn [bind]. destruct (0 <? rate_now); [|discriminate].
  destruct (c && has_path (files full)).
  - destruct (read_int (files full)) as [level_full|e]; [|discriminate].
    cbn [bind]. destruct (seconds (level_full - level_now) rate_now) as [s|e];
      [|discriminate].
    cbn [bind]. intros E. injection E as E. exact (positive_or_none_positive _ _ E).
  - destruct (negb c); [|discriminate].
    destruct (seconds level_now rate_now) as [s|e]; [|discriminate].
    cbn [bind]. intros E. injection E as E. exact (positive_or_none_positive _ _ E).
Qed.

Lemma direct_time_positive files c status_str t :
  direct_time files c status_str = Some t -> 0 < t.
Proof.
  unfold direct_time.
  destruct (if c then Some "time_to_full"
            else if contains "discharging" status_str then Some "time_to_empty"
            else None) as [key|]; [|discriminate].
  destruct (has_path (files key)); [|discriminate].
  destruct (read_int (files key)) as [s|e]; [|discriminate].
  destruct (0 <? s) eqn:Hs; [|discriminate].
  intros E. injection E as <-. now apply Z.ltb_lt.
Qed.

Lemma calculated_time_positive files c status_str t :
  _calculate_time_from_files files c status_str = Some t -> 0 < t.
Proof.
  unfold _calculate_time_from_files, charge_method.
  destruct (direct_time files c status_str) as [d|] eqn:Hd.
  - intros E. injection E as <-. exact (direct_time_positive _ _ _ _ Hd).
  - destruct (rate_time files c "power_now" "energy_now" "energy_full")
      as [r|] eqn:Hr.
    + intros ->. exact (rate_time_positive _ _ _ _ _ _ Hr).
    + destruct (rate_time files c "current_now" "charge_now" "charge_full")
        as [r|] eqn:Hr'; [|discriminate].
      intros ->. exact (rate_time_positive _ _ _ _ _ _ Hr').
Qed.

(** X13.  The time [_calculate_time_from_files] returns is a positive
    number of seconds or None, whatever the files hold; a positive value
    in the kernel's own time file (time_to_full when charging,
    time_to_empty when discharging) is returned as it is, whatever the
    power, energy, current and charge files say; and without any file
    the result is None. *)
Theorem battery_time_is_positive :
  (forall files is_charging status_str t,
     _calculate_time_from_files files is_charging status_str = Some t -> 0 < t)
  /\ (forall files status_str t,
        read_int (files "time_to_full") = Ok t -> 0 < t ->
        _calculate_time_from_files files true status_str = Some t)
  /\ (forall files status_str t,
        contains "discharging" status_str = true ->
        read_int (files "time_to_empty") = Ok t -> 0 < t ->
        _calculate_time_from_files files false status_str = Some t)
  /\ (forall files is_charging status_str,
        (forall name, files name = NoPath) ->
        _calculate_time_from_files files is_charging status_str = None).
Proof.
  split; [exact calculated_time_positive|]. split; [|split].
  - intros files status_str t Hread Ht.
    unfold _calculate_time_from_files, direct_time.
    rewrite (read_int_has_path _ _ Hread), Hread.
    now replace (0 <? t) with true by (symmetry; apply Z.ltb_lt; exact Ht).
  - intros files status_str t Hdis Hread Ht.
    unfold _calculate_time_from_files, direct_time.
    rewrite Hdis, (read_int_has_path _ _ Hread), Hread.
    now replace (0 <? t) with true by (symmetry; apply Z.ltb_lt; exact Ht).
  - intros files c status_str Hnone.
    unfold _calculate_time_from_files, direct_time, charge_method, rate_time.
    destruct c; [|destruct (contains "discharging" status_str)];
      rewrite ?Hnone; reflexivity.
Qed.

Lemma battery_time_is_positive_witness :
  _calculate_time_from_files
    (fun name => if String.eqb name "time_to_empty" then Content "5400"
                 else if String.eqb name "power_now" then Content "0"
                 else NoPath)
    false "discharging"
  = Some 5400.
Proof.
  apply (proj1 (proj2 (proj2 battery_time_is_positive)));
    [reflexivity | reflexivity | lia].
Defined.

(** X14.  What [get_battery_info_internal] returns hangs together: with
    no percentage the battery is reported as not charging and without
    time; a time is a positive number of seconds; when the capacity or
    the status file is missing, unreadable or (for the capacity) not a
    number, all is (None, False, None); else the percentage is the number
    of the capacity file, whatever it is, and a status that is neither
    charging nor discharging (a full battery) has no time. *)
Theorem battery_info_is_coherent :
  forall files,
    let '(percentage, charging, time_remaining) := get_battery_info_internal files in
    (percentage = None -> charging = false /\ time_remaining = None)
    /\ (forall t, time_remaining = Some t -> 0 < t)
    /\ ((forall capacity, read_int (files "capacity") <> Ok capacity)
        \/ (forall text, read (files "status") <> Ok text) ->
        (percentage, charging, time_remaining) = (None, false, None))
    /\ (forall capacity text,
          read_int (files "capacity") = Ok capacity ->
          read (files "status") = Ok text ->
          percentage = Some capacity
          /\ charging = _parse_battery_status (strip text)
          /\ (charging = false ->
              contains "discharging" (lower (strip text)) = false ->
              time_remaining = None)).
Proof.
  intros files. unfold get_battery_info_internal.
  destruct (files "capacity") as [| |capacity_text] eqn:Hcapacity;
    cbn [has_path negb orb].
  1: { repeat split; try discriminate; try reflexivity.
       all: intros; discriminate. }
  1: { destruct (files "status") eqn:Hstatus; cbn [has_path negb read_int read bind].
       all: repeat split; try discriminate; try reflexivity.
       all: intros; discriminate. }
  destruct (files "status") as [| |status_text] eqn:Hstatus;
    cbn [has_path negb].
  1: { repeat split; try discriminate; try reflexivity.
       all: intros; discriminate. }
  1: { destruct (read_int (Content capacity_text)) as [capacity|e];
         cbn [read bind].
       all: repeat split; try discriminate; try reflexivity.
       all: intros; discriminate. }
  destruct (read_int (Content capacity_text)) as [capacity|e] eqn:Hread;
    cbn [read bind].
  2: { repeat split; try discriminate; try reflexivity.
       all: intros; discriminate. }
  split; [discriminate|]. split; [|split].
  - intros t.
    destruct (_parse_battery_status (strip status_text)
              || contains "discharging" (lower (strip status_text)));
      [apply calculated_time_positive | discriminate].
  - intros [Hno | Hno]; exfalso; [eapply Hno | eapply Hno]; reflexivity.
  - intros capacity' text Hc Ht. injection Hc as <-. injection Ht as <-.
    split; [reflexivity|]. split; [reflexivity|].
    intros -> ->. reflexivity.
Qed.

Lemma battery_info_is_coherent_witness :
  get_battery_info_internal
    (fun name => if String.eqb name "capacity" then Content "100"
                 else if String.eqb name "status" then Content "Full"
                 else NoPath)
  = (Some 100, false, None).
Proof.
  pose proof (battery_info_is_coherent
    (fun name => if String.eqb name "capacity" then Content "100"
                 else if String.eqb name "status" then Content "Full"
                 else NoPath)) as H.
  destruct (get_battery_info_internal _) as [[percentage charging] time_remaining].
  destruct H as [_ [_ [_ H]]].
  destruct (H 100 "Full" eq_refl eq_refl) as [-> [-> Htime]].
  rewrite (Htime eq_refl eq_refl). reflexivity.
Defined.

End BatteryRecord.

(** ** The turns of the combined service *)

Section CombinedTurns.
Import Py Io Combined CombinedRun.

Lemma window_elapsed now self :
  (30 <= now - last_battery_update self)%Q -> refreshes false now self = true.
Proof. intros H. unfold refreshes. simpl. now apply Qle_bool_iff. Qed.

(** X15.  The battery files are read on every turn of the loop of the
    service, on an inotify event as on the timeout, and with or without
    inotify: each turn reads them first, stores what it has read and
    stamps the refresh.  At start-up they are read as well (the clock of
    the machine is past 30 seconds), nothing is sent since no client is
    there yet, and the audio fields are the placeholders 70, False, False
    without the mixer library and None with it. *)
Theorem battery_read_on_every_turn :
  forall sys current_time bl,
    get_backlight_percentage_internal
      (backlight_brightness_file sys) (backlight_max_brightness_file sys)
    = Ok bl ->
    (forall inotify_available fd_ready send_ok self,
       exists self' effects,
         inotify_event_loop inotify_available fd_ready sys current_time send_ok self
         = Ok (self', BatteryRead :: effects)
         /\ battery_fields (current_data self')
            = get_battery_info_internal (battery_files sys)
         /\ backlight_percentage (current_data self') = bl
         /\ last_battery_update self' = current_time)
    /\ ((30 <= current_time)%Q ->
        forall cvc_available,
        exists self',
          init cvc_available sys current_time = Ok (self', [BatteryRead])
          /\ clients self' = []
          /\ battery_fields (current_data self')
             = get_battery_info_internal (battery_files sys)
          /\ backlight_percentage (current_data self') = bl
          /\ last_battery_update self' = current_time
          /\ (volume_percentage (current_data self'),
              speaker_muted (current_data self'),
              mic_muted (current_data self'))
             = if cvc_available then (None, None, None)
               else (Some 70, Some false, Some false)).
Proof.
  intros sys now bl Hbl. split.
  - intros inotify_available fd_ready send_ok self. unfold inotify_event_loop.
    destruct (negb inotify_available); [|destruct fd_ready];
      exact (update_forced sys now send_ok self bl Hbl).
  - intros Hnow cvc_available. unfold init.
    match goal with
    | |- context [update_file_data_and_notify _ _ _ _ ?s] => set (self := s)
    end.
    assert (Hrefresh : refreshes false now self = true).
    { apply window_elapsed.
      assert (Hlast : last_battery_update self = 0%Q)
        by (unfold self; now destruct cvc_available).
      rewrite Hlast. assert (E : (now - 0 == now)%Q) by ring.
      rewrite E. exact Hnow. }
    assert (Hclients : clients self = [])
      by (unfold self; now destruct cvc_available).
    assert (Hlast : last_battery_update self = 0%Q)
      by (unfold self; now destruct cvc_available).
    assert (Haudio : (volume_percentage (current_data self),
                      speaker_muted (current_data self),
                      mic_muted (current_data self))
                     = if cvc_available then (None, None, None)
                       else (Some 70, Some false, Some false))
      by (unfold self; now destruct cvc_available).
    clearbody self.
    rewrite (update_file_data_spec sys now (fun _ => true) false self bl Hbl).
    unfold file_input. rewrite Hrefresh.
    destruct (get_battery_info_internal (battery_files sys)) as [[b c] t].
    rewrite combined_notify_spec.
    unfold set_clients, set_current_data, set_last_battery_update.
    cbn [current_data clients last_battery_update fst snd].
    rewrite Hclients. cbn [filter map app].
    eexists. split; [destruct (snapshot_eq_dec _ _); reflexivity|].
    cbn [current_data clients last_battery_update merge battery_fields
         battery_percentage is_charging battery_time_remaining
         backlight_percentage volume_percentage speaker_muted mic_muted].
    repeat split. exact Haudio.
Qed.

Lemma battery_read_on_every_turn_witness :
  exists self' effects,
    inotify_event_loop true false
      {| battery_files := fun _ => NoPath;
         backlight_brightness_file := NoPath;
         backlight_max_brightness_file := NoPath |}
      (100 # 1) (fun _ => true)
      {| current_data := initial_data; clients := [3%nat];
         last_battery_update := 99 # 1 |}
    = Ok (self', BatteryRead :: effects)
    /\ last_battery_update self' = (100 # 1)%Q.
Proof.
  destruct (proj1 (battery_read_on_every_turn
              {| battery_files := fun _ => NoPath;
                 backlight_brightness_file := NoPath;
                 backlight_max_brightness_file := NoPath |}
              (100 # 1) None eq_refl)
              true false (fun _ => true)
              {| current_data := initial_data; clients := [3%nat];
                 last_battery_update := 99 # 1 |})
    as [self' [effects [Hrun [_ [_ Hstamp]]]]].
  exists self', effects. split; assumption.
Defined.

(** X16.  When the default output device goes away (the mixer names no
    stream, or a stream it cannot find), the service keeps the volume and
    the speaker mute it had stored: the bar goes on showing the last known
    values.  When the mixer finds the stream, its volume and mute are
    stored. *)
Theorem lost_speaker_keeps_volume :
  forall control stream_id audio send_ok self,
    let '(audio', (self', effects)) :=
      sink_changed control stream_id audio send_ok self in
    microphone audio' = microphone audio
    /\ (stream_id = INVALID_STREAM_ID
        \/ _lookup_any_stream control stream_id = None ->
        speaker audio' = None
        /\ volume_percentage (current_data self')
           = volume_percentage (current_data self)
        /\ speaker_muted (current_data self') = speaker_muted (current_data self))
    /\ (forall s,
          stream_id <> INVALID_STREAM_ID ->
          _lookup_any_stream control stream_id = Some s ->
          speaker audio' = Some s
          /\ volume_percentage (current_data self') = Some (volume s)
          /\ speaker_muted (current_data self') = Some (muted s)).
Proof.
  intros control stream_id audio send_ok self. unfold sink_changed.
  set (audio' := _on_default_sink_changed control stream_id audio).
  assert (Hstored : current_data (fst (_on_audio_state_changed (Some audio') send_ok self))
                    = merge (current_data self) (AudioData audio')).
  { rewrite audio_state_changed_spec.
    destruct (snapshot_eq_dec _ _) as [Heq | Hne]; [now rewrite Heq|].
    now rewrite (proj1 (notify_keeps_state send_ok _)). }
  destruct (_on_audio_state_changed (Some audio') send_ok self) as [self' effects].
  cbn [fst] in Hstored. rewrite Hstored.
  split; [reflexivity|]. split.
  - intros Hgone.
    assert (Hspeaker : speaker audio' = None).
    { unfold audio', _on_default_sink_changed. cbn [speaker].
      destruct Hgone as [-> | Hnone]; [now rewrite Z.eqb_refl|].
      rewrite Hnone. now destruct (stream_id =? INVALID_STREAM_ID). }
    clearbody audio'. split; [exact Hspeaker|].
    unfold merge. cbn. rewrite Hspeaker. now split.
  - intros s Hvalid Hfound.
    assert (Hspeaker : speaker audio' = Some s).
    { unfold audio', _on_default_sink_changed. cbn [speaker].
      apply Z.eqb_neq in Hvalid. now rewrite Hvalid. }
    clearbody audio'. split; [exact Hspeaker|].
    unfold merge. cbn. rewrite Hspeaker. now split.
Qed.

Lemma lost_speaker_keeps_volume_witness :
  let control := {| lookup_stream_id := fun _ => None;
                    lookup_output_id := fun _ => None;
                    lookup_input_id := fun _ => None |} in
  let self := {| current_data := audio_placeholders initial_data;
                 clients := []; last_battery_update := 0 |} in
  volume_percentage
    (current_data
       (fst (snd (sink_changed control INVALID_STREAM_ID
                    {| speaker := Some {| volume := 35; muted := true |};
                       microphone := None |}
                    (fun _ => true) self))))
  = Some 70.
Proof.
  intros control self.
  pose proof (lost_speaker_keeps_volume control INVALID_STREAM_ID
                {| speaker := Some {| volume := 35; muted := true |};
                   microphone := None |}
                (fun _ => true) self) as H.
  destruct (sink_changed _ _ _ _ _) as [audio' [self' effects]].
  destruct H as [_ [Hgone _]].
  destruct (Hgone (or_introl eq_refl)) as [_ [Hvolume _]].
  cbn [fst snd]. rewrite Hvolume. reflexivity.
Defined.

End CombinedTurns.

(** ** The replies of the compositor *)

Section Replies.
Import Hyprland.

Variable json : Type.
Variable decode : string -> option string.
Variable loads : string -> option json.

Lemma receive_bounded results :
  forall response_data d,
    Z.of_nat (String.length response_data) <= limit ->
    receive response_data results = Data d ->
    Z.of_nat (String.length d) <= limit.
Proof.
  induction results as [|r results IH]; intros acc d Hacc; simpl.
  - intros E. injection E as <-. exact Hacc.
  - destruct r as [chunk| |]; try discriminate.
    + destruct chunk as [|c chunk].
      * intros E. injection E as <-. exact Hacc.
      * destruct (limit <? Z.of_nat (String.length (acc ++ String c chunk)))
          eqn:Hover; [discriminate|].
        apply IH. now apply Z.ltb_ge.
    + intros E. injection E as <-. exact Hacc.
Qed.

Lemma try_socket_data s j :
  try_socket json decode loads s = Some (Returns (Some j)) ->
  exists d decoded_data,
    decode d = Some decoded_data /\ loads decoded_data = Some j
    /\ 0 < Z.of_nat (String.length d) <= limit.
Proof.
  destruct s as [| |sends results]; try discriminate.
  destruct sends; [|discriminate]. simpl.
  destruct (receive "" results) as [d| |] eqn:Hreceive; try discriminate.
  destruct d as [|c d]; [discriminate|].
  destruct (decode (String c d)) as [decoded_data|] eqn:Hdecode; [|discriminate].
  intros E. injection E as E. exists (String c d), decoded_data.
  split; [exact Hdecode|]. split; [exact E|]. split; [simpl; lia|].
  apply (receive_bounded results "" _); [unfold limit; simpl; lia | exact Hreceive].
Qed.

Lemma try_paths_data paths j :
  try_paths json decode loads paths = Returns (Some j) ->
  exists d decoded_data,
    decode d = Some decoded_data /\ loads decoded_data = Some j
    /\ 0 < Z.of_nat (String.length d) <= limit.
Proof.
  induction paths as [|s paths IH]; simpl; [discriminate|].
  destruct (try_socket json decode loads s) as [o|] eqn:Hs; [|exact IH].
  intros ->. exact (try_socket_data s j Hs).
Qed.

(** X17.  What [_fetch_hyprland_data] takes from the compositor is
    bounded: the receive loop never hands over more than 131072 bytes,
    and a value is returned only as the decoding of a reply that is not
    empty, not longer than that and valid UTF-8, and only with the
    instance signature in the environment. *)
Theorem hyprland_reply_is_bounded :
  (forall results d,
     receive "" results = Data d -> Z.of_nat (String.length d) <= limit)
  /\ (forall env j,
        _fetch_hyprland_data json decode loads env = Returns (Some j) ->
        is_set (HYPRLAND_INSTANCE_SIGNATURE env) = true
        /\ exists d decoded_data,
             decode d = Some decoded_data /\ loads decoded_data = Some j
             /\ 0 < Z.of_nat (String.length d) <= limit).
Proof.
  split.
  - intros results d. apply receive_bounded. unfold limit. simpl. lia.
  - intros env j. unfold _fetch_hyprland_data.
    destruct (is_set (HYPRLAND_INSTANCE_SIGNATURE env)); [|discriminate].
    intros H. split; [reflexivity | exact (try_paths_data _ j H)].
Qed.

Lemma try_socket_answer results :
  receive "" results <> Lost ->
  try_socket json decode loads (Accepts true results)
  = Some (answer_of json decode loads (receive "" results)).
Proof.
  intros Hanswer. simpl. destruct (receive "" results) as [[|c d]| |];
    try reflexivity.
  - simpl. now destruct (decode (String c d)).
  - now elim Hanswer.
Qed.

(** X18.  The socket under XDG_RUNTIME_DIR is asked first, and its
    answer is final: once it has taken the command and answered, the
    fetch returns None for no bytes, for too many and for text that is
    not JSON, and the decoded reply otherwise, and the UnicodeDecodeError
    of bytes that are not UTF-8 leaves the function, caught by neither of
    its except clauses; in all these cases the socket under /tmp is not
    asked.  The socket under /tmp decides only when XDG_RUNTIME_DIR is
    not set or when the first socket is missing, refuses the connection,
    fails on the command or breaks while answering. *)
Theorem first_answer_is_final :
  forall env,
    is_set (HYPRLAND_INSTANCE_SIGNATURE env) = true ->
    (forall results,
       is_set (XDG_RUNTIME_DIR env) = true ->
       xdg_socket env = Accepts true results ->
       receive "" results <> Lost ->
       _fetch_hyprland_data json decode loads env
       = match receive "" results with
         | Data (String c d) =>
             match decode (String c d) with
             | Some decoded_data => Returns (loads decoded_data)
             | None => UnicodeDecodeError
             end
         | _ => Returns None
         end)
    /\ (is_set (XDG_RUNTIME_DIR env) = false
        \/ xdg_socket env = NoSocket
        \/ xdg_socket env = Refuses
        \/ (exists results, xdg_socket env = Accepts false results)
        \/ (exists results, xdg_socket env = Accepts true results
                            /\ receive "" results = Lost) ->
        _fetch_hyprland_data json decode loads env
        = match try_socket json decode loads (tmp_socket env) with
          | Some o => o
          | None => Returns None
          end).
Proof.
  intros env Hsignature. unfold _fetch_hyprland_data, potential_paths.
  rewrite Hsignature. cbn [negb]. split.
  - intros results Hxdg Hsocket Hanswer. rewrite Hxdg, Hsocket.
    cbn [app try_paths]. now rewrite (try_socket_answer results Hanswer).
  - intros Hskip.
    assert (Hnext : is_set (XDG_RUNTIME_DIR env) = true ->
                    try_socket json decode loads (xdg_socket env) = None).
    { intros Hxdg.
      destruct Hskip as [H | [-> | [-> | [[results ->] | [results [-> H]]]]]];
        try reflexivity; [congruence|]. simpl. now rewrite H. }
    destruct (is_set (XDG_RUNTIME_DIR env)); cbn [app try_paths];
      [rewrite (Hnext eq_refl)|]; reflexivity.
Qed.

End Replies.

Section RepliesWitnesses.
Import Hyprland.

Lemma hyprland_reply_is_bounded_witness :
  receive "" [Chunk "{}"; Chunk ""] = Data "{}"
  /\ Z.of_nat (String.length "{}") <= limit.
Proof.
  split; [reflexivity|].
  exact (proj1 (hyprland_reply_is_bounded string Some Some)
           [Chunk "{}"; Chunk ""] "{}" eq_refl).
Defined.

Lemma first_answer_is_final_witness :
  _fetch_hyprland_data string Some Some
    {| HYPRLAND_INSTANCE_SIGNATURE := Some "a1b2";
       XDG_RUNTIME_DIR := Some "/run/user/1000";
       xdg_socket := Accepts true [Chunk ""];
       tmp_socket := Accepts true [Chunk "[]"] |}
  = Returns None
  /\ _fetch_hyprland_data string (fun _ => None) Some
       {| HYPRLAND_INSTANCE_SIGNATURE := Some "a1b2";
          XDG_RUNTIME_DIR := Some "/run/user/1000";
          xdg_socket := Accepts true [Chunk "{}"];
          tmp_socket := Accepts true [Chunk "[]"] |}
     = UnicodeDecodeError.
Proof.
  split.
  - refine (proj1 (first_answer_is_final string Some Some
                     {| HYPRLAND_INSTANCE_SIGNATURE := Some "a1b2";
                        XDG_RUNTIME_DIR := Some "/run/user/1000";
                        xdg_socket := Accepts true [Chunk ""];
                        tmp_socket := Accepts true [Chunk "[]"] |} eq_refl)
              [Chunk ""] eq_refl eq_refl _).
    simpl. discriminate.
  - refine (proj1 (first_answer_is_final string (fun _ => None) Some
                     {| HYPRLAND_INSTANCE_SIGNATURE := Some "a1b2";
                        XDG_RUNTIME_DIR := Some "/run/user/1000";
                        xdg_socket := Accepts true [Chunk "{}"];
                        tmp_socket := Accepts true [Chunk "[]"] |} eq_refl)
              [Chunk "{}"] eq_refl eq_refl _).
    simpl. discriminate.
Defined.

End RepliesWitnesses.

(** ** The changes of the display state *)

Section DisplayChanges.
Import Io Window WindowMonitor.

Lemma monitor_step new_state_data send_ok self :
  monitor_display_state new_state_data send_ok self
  = if display_state_eq_dec new_state_data (current_display_state_data self)
    then (self, [])
    else ({| current_display_state_data := new_state_data;
             clients := filter send_ok (clients self) |},
          (map (fun c => Sent c (dumps new_state_data ++ Json.LF))
               (filter send_ok (clients self))
           ++ map Closed (filter (send_fails send_ok) (clients self)))%list).
Proof.
  unfold monitor_display_state.
  destruct (display_state_eq_dec _ _); [reflexivity|].
  unfold notify_clients. cbn [current_display_state_data clients].
  now rewrite broadcast_spec.
Qed.

Lemma sent_to_app c effects more :
  sent_to c (effects ++ more) = (sent_to c effects ++ sent_to c more)%list.
Proof.
  induction effects as [|e effects IH]; [reflexivity|].
  destruct e as [|c' m|c']; simpl; try exact IH.
  destruct (Nat.eqb c' c); simpl; now rewrite IH.
Qed.

Lemma sent_to_closed c cs : sent_to c (map Closed cs) = [].
Proof. induction cs as [|x cs IH]; [reflexivity | exact IH]. Qed.

Lemma sent_to_absent c message cs :
  ~ In c cs -> sent_to c (map (fun x => Sent x message) cs) = [].
Proof.
  induction cs as [|x cs IH]; [reflexivity|]. simpl. intros Hc.
  destruct (Nat.eqb x c) eqn:Hx; [apply Nat.eqb_eq in Hx; tauto|].
  apply IH. tauto.
Qed.

Lemma sent_to_once c message cs :
  NoDup cs -> In c cs ->
  sent_to c (map (fun x => Sent x message) cs) = [message].
Proof.
  induction 1 as [|x cs Hx Hcs IH]; [intros []|]. simpl. intros [-> | Hc].
  - rewrite Nat.eqb_refl. now rewrite (sent_to_absent c message cs Hx).
  - destruct (Nat.eqb x c) eqn:Hxc; [|now apply IH].
    apply Nat.eqb_eq in Hxc. subst x. tauto.
Qed.

Lemma sent_to_In c message effects :
  In message (sent_to c effects) -> In (Sent c message) effects.
Proof.
  induction effects as [|e effects IH]; [intros []|].
  destruct e as [|c' m|c']; simpl; try (intros H; right; now apply IH).
  destruct (Nat.eqb c' c) eqn:Hc.
  - apply Nat.eqb_eq in Hc. subst c'. intros [-> | H]; [now left|].
    right. now apply IH.
  - intros H. right. now apply IH.
Qed.

Lemma monitor_all_stored turns :
  forall self,
    current_display_state_data (fst (monitor_all turns self))
    = last (map fst turns) (current_display_state_data self).
Proof.
  induction turns as [|[s send_ok] turns IH]; intros self; [reflexivity|].
  cbn [map fst]. rewrite last_cons. cbn [monitor_all]. rewrite monitor_step.
  destruct (display_state_eq_dec s (current_display_state_data self)) as [-> | Hne].
  - specialize (IH self). destruct (monitor_all turns self). exact IH.
  - match goal with
    | |- context [monitor_all turns ?s1] =>
        specialize (IH s1); destruct (monitor_all turns s1)
    end.
    exact IH.
Qed.

Lemma monitor_all_quiet turns :
  forall self,
    changes (current_display_state_data self) (map fst turns) = [] ->
    monitor_all turns self = (self, []).
Proof.
  induction turns as [|[s send_ok] turns IH]; intros self; [reflexivity|].
  cbn [map fst changes monitor_all]. rewrite monitor_step.
  destruct (display_state_eq_dec s (current_display_state_data self));
    [|discriminate].
  intros H. now rewrite (IH self H).
Qed.

Lemma monitor_all_sends turns :
  forall self c message,
    In (Sent c message) (snd (monitor_all turns self)) ->
    In c (clients self)
    /\ exists state,
         In state (changes (current_display_state_data self) (map fst turns))
         /\ message = dumps state ++ Json.LF.
Proof.
  induction turns as [|[s send_ok] turns IH]; intros self c message; [intros []|].
  cbn [map fst changes monitor_all]. rewrite monitor_step.
  destruct (display_state_eq_dec s (current_display_state_data self)) as [Heq | Hne].
  - specialize (IH self c message). destruct (monitor_all turns self). exact IH.
  - match goal with
    | |- context [monitor_all turns ?s1] =>
        specialize (IH s1 c message); destruct (monitor_all turns s1) as [self' more]
    end.
    cbn [snd current_display_state_data clients] in *. intros H.
    apply in_app_or in H. destruct H as [H | H].
    + apply in_app_or in H. destruct H as [H | H]; apply in_map_iff in H;
        destruct H as [x [Hx Hin]]; [|discriminate].
      injection Hx as -> <-. apply filter_In in Hin.
      split; [tauto|]. exists s. split; [now left | reflexivity].
    + destruct (IH H) as [Hc [state [Hstate Hm]]]. apply filter_In in Hc.
      split; [tauto|]. exists state. split; [now right | exact Hm].
Qed.

Lemma monitor_all_steady turns :
  forall self c,
    NoDup (clients self) -> In c (clients self) ->
    (forall turn, In turn turns -> snd turn c = true) ->
    In c (clients (fst (monitor_all turns self)))
    /\ sent_to c (snd (monitor_all turns self))
       = map (fun state => dumps state ++ Json.LF)
           (changes (current_display_state_data self) (map fst turns)).
Proof.
  induction turns as [|[s send_ok] turns IH]; intros self c Hnodup Hc Hok;
    [split; [exact Hc | reflexivity]|].
  cbn [map fst changes monitor_all]. rewrite monitor_step.
  assert (Hlater : forall turn, In turn turns -> snd turn c = true)
    by (intros turn Hturn; apply Hok; now right).
  destruct (display_state_eq_dec s (current_display_state_data self)) as [Heq | Hne].
  - specialize (IH self c Hnodup Hc Hlater).
    destruct (monitor_all turns self). exact IH.
  - assert (Hsend : send_ok c = true) by (apply (Hok (s, send_ok)); now left).
    assert (Hstays : In c (filter send_ok (clients self)))
      by (apply filter_In; now split).
    assert (Hnodup' : NoDup (filter send_ok (clients self)))
      by (now apply NoDup_filter).
    match goal with
    | |- context [monitor_all turns ?s1] =>
        specialize (IH s1 c Hnodup' Hstays Hlater);
        destruct (monitor_all turns s1) as [self' more]
    end.
    cbn [fst snd current_display_state_data clients] in *.
    destruct IH as [Hin Hsent]. split; [exact Hin|].
    rewrite !sent_to_app, sent_to_closed, Hsent, app_nil_r.
    now rewrite (sent_to_once c _ _ Hnodup' Hstays).
Qed.

Lemma monitor_all_dropped turns :
  forall self c,
    ~ In c (clients self) ->
    ~ In c (clients (fst (monitor_all turns self)))
    /\ sent_to c (snd (monitor_all turns self)) = [].
Proof.
  induction turns as [|[s send_ok] turns IH]; intros self c Hc;
    [split; [exact Hc | reflexivity]|].
  cbn [monitor_all]. rewrite monitor_step.
  destruct (display_state_eq_dec s (current_display_state_data self)) as [Heq | Hne].
  - specialize (IH self c Hc). destruct (monitor_all turns self). exact IH.
  - assert (Hgone : ~ In c (filter send_ok (clients self)))
      by (intros H; apply filter_In in H; tauto).
    match goal with
    | |- context [monitor_all turns ?s1] =>
        specialize (IH s1 c Hgone); destruct (monitor_all turns s1) as [self' more]
    end.
    cbn [fst snd clients] in *. destruct IH as [Hout Hnone].
    split; [exact Hout|].
    rewrite !sent_to_app, sent_to_closed, Hnone.
    now rewrite (sent_to_absent c _ _ Hgone).
Qed.

(** X19.  The window service stores the state it has just fetched and
    sends a message for each change and for nothing else.  Over the turns
    of its loop, each with its state and with what the sends do at that
    time, and each broadcast run to its end: the stored state at the end
    is the last one fetched; every message sent goes to a client of the
    registry and is the line of a state that differed, in some field,
    from the one fetched before it; a client on which no send fails stays
    registered and receives exactly these lines, each once and in that
    order; when no state differs nothing is sent and no client is
    dropped; and a client whose send fails at a change is closed, taken
    out of the registry and sent nothing afterwards. *)
Theorem display_changes_are_sent :
  forall turns self,
    let fetched := map fst turns in
    let differing := changes (current_display_state_data self) fetched in
    let '(self', effects) := monitor_all turns self in
    current_display_state_data self'
    = last fetched (current_display_state_data self)
    /\ (forall c message,
          In (Sent c message) effects ->
          In c (clients self)
          /\ exists state, In state differing /\ message = dumps state ++ Json.LF)
    /\ (forall c,
          NoDup (clients self) -> In c (clients self) ->
          (forall turn, In turn turns -> snd turn c = true) ->
          In c (clients self')
          /\ sent_to c effects
             = map (fun state => dumps state ++ Json.LF) differing)
    /\ (differing = [] -> self' = self /\ effects = [])
    /\ (forall new_state_data send_ok later c,
          turns = (new_state_data, send_ok) :: later ->
          new_state_data <> current_display_state_data self ->
          In c (clients self) -> send_ok c = false ->
          In (Closed c) effects /\ ~ In c (clients self')
          /\ sent_to c effects = []).
Proof.
  intros turns self fetched differing.
  pose proof (monitor_all_stored turns self) as Hstored.
  pose proof (monitor_all_sends turns self) as Hsends.
  pose proof (monitor_all_steady turns self) as Hsteady.
  pose proof (monitor_all_quiet turns self) as Hquiet.
  assert (Hfails : forall new_state_data send_ok later c,
            turns = (new_state_data, send_ok) :: later ->
            new_state_data <> current_display_state_data self ->
            In c (clients self) -> send_ok c = false ->
            In (Closed c) (snd (monitor_all turns self))
            /\ ~ In c (clients (fst (monitor_all turns self)))
            /\ sent_to c (snd (monitor_all turns self)) = []).
  { intros s send_ok later c -> Hne Hc Hfail. cbn [monitor_all].
    rewrite monitor_step.
    destruct (display_state_eq_dec s (current_display_state_data self));
      [contradiction|].
    assert (Hgone : ~ In c (filter send_ok (clients self)))
      by (intros H; apply filter_In in H; destruct H; congruence).
    match goal with
    | |- context [monitor_all later ?s1] =>
        pose proof (monitor_all_dropped later s1 c Hgone) as Hdropped;
        destruct (monitor_all later s1) as [self' more]
    end.
    cbn [fst snd] in *. destruct Hdropped as [Hout Hnone].
    split; [|split; [exact Hout|]].
    - apply in_or_app. left. apply in_or_app. right. apply in_map.
      apply filter_In. split; [exact Hc|]. unfold send_fails. now rewrite Hfail.
    - rewrite !sent_to_app, sent_to_closed, Hnone.
      now rewrite (sent_to_absent c _ _ Hgone). }
  destruct (monitor_all turns self) as [self' effects]. cbn [fst snd] in *.
  split; [exact Hstored|]. split; [exact Hsends|]. split; [exact Hsteady|].
  split; [|exact Hfails].
  intros Hnone. specialize (Hquiet Hnone). injection Hquiet as -> ->.
  now split.
Qed.

Lemma display_changes_are_sent_witness :
  let idle := {| active_window := {| title := "Hyprland, ArchLinux"; class := "";
                                     pid := 0 |};
                 workspaces := []; active_workspace_id := None |} in
  let busy := {| active_window := {| title := "Terminal"; class := "kitty";
                                     pid := 4242 |};
                 workspaces := []; active_workspace_id := Some 1 |} in
  let self := {| current_display_state_data := idle; clients := [1%nat; 2%nat] |} in
  let turns := [(busy, fun c => negb (Nat.eqb c 1)); (busy, fun _ => true);
                (idle, fun _ => true)] in
  sent_to 2%nat (snd (monitor_all turns self))
  = [dumps busy ++ Json.LF; dumps idle ++ Json.LF]
  /\ sent_to 1%nat (snd (monitor_all turns self)) = [].
Proof.
  intros idle busy self turns.
  pose proof (display_changes_are_sent turns self) as H. cbv zeta in H.
  destruct (monitor_all turns self) as [self' effects]. cbn [snd].
  destruct H as [_ [_ [Hsteady [_ Hfails]]]]. split.
  - refine (proj2 (Hsteady 2%nat _ _ _)).
    + repeat constructor; simpl; intuition discriminate.
    + right. now left.
    + intros turn [<- | [<- | [<- | []]]]; reflexivity.
  - refine (proj2 (proj2 (Hfails busy (fun c => negb (Nat.eqb c 1)) _ 1%nat
                            eq_refl _ _ eq_refl))).
    + discriminate.
    + now left.
Defined.

End DisplayChanges.

(** ** From the battery files to the label *)

Section BatteryFilesToLabel.
Import Py PyStr Combined BatteryIsland.

Lemma reported_time_positive files percentage charging t :
  get_battery_info_internal files = (percentage, charging, Some t) -> 0 < t.
Proof.
  unfold get_battery_info_internal.
  destruct (negb (has_path (files "capacity")) || negb (has_path (files "status")));
    [discriminate|].
  destruct (read_int (files "capacity")) as [capacity|e]; [|discriminate].
  destruct (read (files "status")) as [text|e]; [|discriminate].
  cbn [bind].
  destruct (_parse_battery_status (strip text)
            || contains "discharging" (lower (strip text)));
    [|discriminate].
  intros E. injection E as _ _ E. exact (calculated_time_positive _ _ _ _ E).
Qed.

(** X20.  The battery label shows a time exactly when the service
    reports one: for every content of the battery files, the time of
    [get_battery_info_internal] is formatted by [_format_time] to the
    empty text if and only if it is None. *)
Theorem label_shows_each_reported_time :
  forall files,
    let '(_, _, time_remaining) := get_battery_info_internal files in
    _format_time time_remaining = "" <-> time_remaining = None.
Proof.
  intros files.
  destruct (get_battery_info_internal files) as [[percentage charging] [t|]] eqn:Hinfo;
    [|split; reflexivity].
  pose proof (reported_time_positive files percentage charging t Hinfo) as Ht.
  split; [|discriminate]. unfold _format_time.
  replace (t <=? 0) with false by (symmetry; apply Z.leb_gt; exact Ht).
  intros H. exfalso.
  destruct (0 <? t / 3600); exact (append_nonempty _ _ _ H).
Qed.

Lemma label_shows_each_reported_time_witness :
  let files := fun name => if String.eqb name "capacity" then Content "80"
                           else if String.eqb name "status" then Content "Discharging"
                           else if String.eqb name "time_to_empty" then Content "5400"
                           else NoPath in
  _format_time (snd (get_battery_info_internal files)) = ""
  <-> snd (get_battery_info_internal files) = None.
Proof.
  intros files. pose proof (label_shows_each_reported_time files) as H.
  destruct (get_battery_info_internal files) as [[percentage charging] t].
  exact H.
Defined.

End BatteryFilesToLabel.

(** ** C7: the broadcast among the other threads *)

Section SharedClients.
Import Io SharedRegistry.

Variable send_ok : client -> bool.
Variable message : string.

Local Abbreviation notify_step := (SharedRegistry.notify_step send_ok message).
Local Abbreviation run := (SharedRegistry.run send_ok message).

Lemma registry_run_app schedule schedule' r :
  run (schedule ++ schedule') r = run schedule' (run schedule r).
Proof. apply fold_left_app. Qed.

Lemma repeat_notify n m :
  repeat Notify (n + m) = (repeat Notify n ++ repeat Notify m)%list.
Proof. apply repeat_app. Qed.

(** The first loop, alone: after [k] turns the iterator stands at [k]. *)
Lemma sending_alone done todo sent disconnected :
  run (repeat Notify (S (List.length todo)))
    {| clients := (done ++ todo)%list;
       notify := Sending (List.length done) disconnected;
       effects := sent |}
  = {| clients := (done ++ todo)%list;
       notify := Removing (disconnected ++ filter (send_fails send_ok) todo);
       effects := (sent ++ map (fun c => Sent c message) (filter send_ok todo))%list |}.
Proof.
  revert done sent disconnected.
  induction todo as [|c todo IH]; intros done sent disconnected.
  - simpl. unfold SharedRegistry.notify_step. simpl.
    rewrite app_nil_r.
    replace (nth_error done (List.length done)) with (@None client)
      by (symmetry; apply nth_error_None; lia).
    now rewrite !app_nil_r.
  - change (repeat Notify (S (List.length (c :: todo))))
      with (Notify :: repeat Notify (S (List.length todo))).
    cbn [SharedRegistry.run fold_left SharedRegistry.step].
    unfold SharedRegistry.notify_step. cbn [notify clients effects].
    rewrite nth_error_app2, Nat.sub_diag by lia. cbn [nth_error].
    replace (done ++ c :: todo)%list with ((done ++ [c]) ++ todo)%list
      by (now rewrite <- app_assoc).
    replace (S (List.length done)) with (List.length (done ++ [c]))
      by (rewrite length_app; simpl; lia).
    unfold send_fails at 1. cbn [filter].
    destruct (send_ok c) eqn:Hc; cbn [negb map].
    + pose proof (IH (done ++ [c])%list (sent ++ [Sent c message])%list disconnected)
        as H.
      unfold SharedRegistry.run in H. rewrite H.
      now rewrite <- (app_assoc sent [Sent c message]).
    + pose proof (IH (done ++ [c])%list sent (disconnected ++ [c])%list) as H.
      unfold SharedRegistry.run in H. rewrite H.
      now rewrite <- (app_assoc disconnected [c]).
Qed.

(** The second loop, alone, is [remove_disconnected]. *)
Lemma removing_alone disconnected :
  forall cs sent n,
    (List.length disconnected < n)%nat ->
    let '(cs', closed, raised) := remove_disconnected disconnected cs in
    run (repeat Notify n)
      {| clients := cs; notify := Removing disconnected; effects := sent |}
    = {| clients := cs';
         notify := match raised with
                   | Some e => Raised e
                   | None => Returned
                   end;
         effects := (sent ++ closed)%list |}.
Proof.
  assert (Hstays : forall n r,
            notify r = Returned \/ (exists e, notify r = Raised e) ->
            run (repeat Notify n) r = r).
  { induction n as [|n IHn]; intros r Hr; [reflexivity|].
    cbn [repeat SharedRegistry.run fold_left SharedRegistry.step].
    assert (Hsame : notify_step r = r).
    { unfold SharedRegistry.notify_step.
      destruct Hr as [-> | [e ->]]; reflexivity. }
    rewrite Hsame. apply IHn, Hr. }
  induction disconnected as [|c rest IH]; intros cs sent n Hn.
  - destruct n as [|n]; [simpl in Hn; lia|].
    cbn [remove_disconnected repeat SharedRegistry.run fold_left SharedRegistry.step].
    unfold SharedRegistry.notify_step. cbn [notify clients effects].
    rewrite app_nil_r. apply Hstays. now left.
  - destruct n as [|n]; [simpl in Hn; lia|].
    cbn [remove_disconnected repeat SharedRegistry.run fold_left SharedRegistry.step].
    unfold SharedRegistry.notify_step. cbn [notify clients effects].
    destruct (mem c cs).
    + specialize (IH (remove_first c cs) (sent ++ [Closed c])%list n).
      destruct (remove_disconnected rest (remove_first c cs)) as [[cs' closed] raised].
      unfold SharedRegistry.run in IH. rewrite IH by (simpl in Hn; lia).
      now rewrite <- app_assoc.
    + rewrite app_nil_r. apply Hstays. right. now exists Py.ValueError.
Qed.

(** A call of [notify_clients] that no other thread interrupts is the
    [broadcast] of the services: it returns, with the sockets whose send
    succeeded still registered and the others closed. *)
Lemma notify_alone cs :
  run (alone cs) (start cs)
  = {| clients := filter send_ok cs; notify := Returned;
       effects := (map (fun c => Sent c message) (filter send_ok cs)
                   ++ map Closed (filter (send_fails send_ok) cs))%list |}.
Proof.
  unfold alone. rewrite repeat_notify, registry_run_app.
  pose proof (sending_alone [] cs [] []) as Hfirst. cbn [app List.length] in Hfirst.
  unfold start. rewrite Hfirst.
  pose proof (removing_alone (filter (send_fails send_ok) cs) cs
                (map (fun c => Sent c message) (filter send_ok cs))
                (S (List.length cs))) as Hsecond.
  pose proof (remove_disconnected_spec send_ok [] cs (Forall_nil _)) as Hloop.
  cbn [app] in Hloop. rewrite Hloop in Hsecond. apply Hsecond.
  pose proof (filter_length_le (send_fails send_ok) cs). lia.
Qed.

End SharedClients.

Section SharedClientsTheorem.
Import Io SharedRegistry.

(** C7.  The claim fails in time_service.py (and, by the same code, in
    window_service.py).  The registry holds the sockets 1, 2 and 3; the
    peer of 1 is gone, so that every send on 1 fails, and 2 and 3 are
    healthy.  [notify_clients] sends on 1, which fails; the thread of
    [handle_client] of 1, whose own send has failed, then runs its
    [finally] and takes 1 out of [self.clients]; [notify_clients] goes
    on.  Its loop, which stands at index 1 of a list that is now
    [[2; 3]], sends to 3 and leaves out 2: the healthy client 2 never
    receives this broadcast.  Then [self.clients.remove] of 1, which has
    no membership test, raises ValueError, and the exception leaves
    [notify_clients].  The same call without the other thread sends to 2
    and to 3 and returns.  With two sockets whose send fails, the
    ValueError on the first leaves the second registered and open. *)
Theorem broadcast_interrupted_by_handler :
  let send_ok := fun c : client => negb (Nat.eqb c 1) in
  let message := Time.dumps (Time.get_formatted_time Time.monday_1406) ++ Json.LF in
  let interrupted :=
    run send_ok message [Notify; HandlerEnds 1%nat; Notify; Notify; Notify]
      (start [1; 2; 3]%nat) in
  let undisturbed :=
    run send_ok message (alone [1; 2; 3]%nat) (start [1; 2; 3]%nat) in
  let both_gone :=
    run (fun _ => false) message [Notify; Notify; Notify; HandlerEnds 1%nat; Notify]
      (start [1; 2]%nat) in
  (In 2%nat (clients interrupted) /\ send_ok 2%nat = true
   /\ effects interrupted = [Closed 1%nat; Sent 3%nat message]
   /\ notify interrupted = Raised Py.ValueError)
  /\ (effects undisturbed
      = [Sent 2%nat message; Sent 3%nat message; Closed 1%nat]
      /\ clients undisturbed = [2; 3]%nat
      /\ notify undisturbed = Returned)
  /\ (notify both_gone = Raised Py.ValueError
      /\ clients both_gone = [2%nat]
      /\ ~ In (Closed 2%nat) (effects both_gone)).
Proof.
  intros send_ok message interrupted undisturbed both_gone.
  split; [|split].
  - split; [now left|]. repeat split.
  - unfold undisturbed. rewrite notify_alone. repeat split.
  - split; [reflexivity|]. split; [reflexivity|].
    intros [H | []]. discriminate.
Qed.

End SharedClientsTheorem.
